(** * vimba-api: the frame grabber's helper library [vimbaapilib.py]

    A shallow embedding of the Python module and of the NumPy / SciPy
    routines it calls, followed by the properties of [parse_args],
    [get_camera], [get_frame], [save_frame] and [peak_fwhm].  The functions
    that only drive the camera ([setup_camera], and [main] but for the lines
    that take and save a frame) are left out.

    Conventions of the embedding.
    - Python [int] is [Z]; array indices ([np.intp]) are [Z] as well.
    - A [float64] is a rational or NaN ([f64]).  Every arithmetic result
      and every conversion from an integer is rounded to the nearest number
      of binary64 (53 bits, least exponent -1074, ties to even) and kept in
      lowest terms, so that equal numbers are equal terms.  The infinities
      are left out: no value of a lineout reaches 2**1024.
    - [np.mean(a, axis=0)] adds the rows one after the other, as NumPy does
      for an array of several columns in row-major order.  (The one column
      of a region a single column wide NumPy adds up pairwise; the two
      orders agree wherever the sum is exact, that is up to 2**53, and no
      property below depends on the order beyond that.)
    - Console output, issued warnings, the clock, [sys.argv], the files
      written and the paths that can be written live in a [world] that every
      effectful function threads.  A warning is known by its kind, not by
      its text, which differs between releases of NumPy.
    - An exception (also [SystemExit]) is the [Raised] outcome.
    - A frame is an array of unsigned integers ([uint8] to [uint64]);
      [pixbit], a number of bits, is a natural number. *)

From Stdlib Require Import ZArith QArith Qreduction Qcanon Qround Qpower Lqa.
From Stdlib Require Import String Ascii DecimalString List Bool Lia.
Import ListNotations.

Open Scope Z_scope.

(** ** float64 *)

Module F64.

Inductive f64 : Type :=
| FNum (q : Q)
| FNaN.

(** Rounding to binary64.  [pow2 e] is 2**e; [ilog2 q] is the integer [k]
    with 2**k <= q < 2**(k+1), for a positive [q]; [cexp q] is the exponent
    of the last place of the nearest float, subnormal from 2**-1022 down;
    [rne] rounds to the nearest integer, ties to even. *)
Definition pow2 (e : Z) : Q := (2 ^ e)%Q.

Definition ilog2 (q : Q) : Z :=
  let k := Z.log2 (Qnum q) - Z.log2 (Z.pos (Qden q)) in
  if Qle_bool (pow2 k) q then k else k - 1.

Definition cexp (q : Q) : Z := Z.max (ilog2 q - 52) (-1074).

Definition rne (q : Q) : Z :=
  let f := Qfloor q in
  match (q - inject_Z f ?= 1 # 2)%Q with
  | Lt => f
  | Gt => f + 1
  | Eq => if Z.even f then f else f + 1
  end.

Definition round_pos (q : Q) : Q :=
  let e := cexp q in (inject_Z (rne (q / pow2 e)) * pow2 e)%Q.

Definition round (q : Q) : Q :=
  match (q ?= 0)%Q with
  | Eq => 0%Q
  | Gt => Qred (round_pos q)
  | Lt => Qred (- round_pos (- q))
  end.

(** [float(z)] and [np.float64(z)]. *)
Definition of_Z (z : Z) : f64 := FNum (round (inject_Z z)).

Definition lift2 (op : Q -> Q -> Q) (a b : f64) : f64 :=
  match a, b with
  | FNum p, FNum q => FNum (round (op p q))
  | _, _ => FNaN
  end.

Definition add : f64 -> f64 -> f64 := lift2 Qplus.
Definition sub : f64 -> f64 -> f64 := lift2 Qminus.
Definition mul : f64 -> f64 -> f64 := lift2 Qmult.

(** The program divides by zero in one place only, [0.0 / 0] in the mean of
    a column without rows, which is NaN. *)
Definition div (a b : f64) : f64 :=
  match a, b with
  | FNum p, FNum q => if Qeq_bool q 0 then FNaN else FNum (round (p / q))
  | _, _ => FNaN
  end.

(** Comparisons are false as soon as one side is NaN. *)
Definition ltb (a b : f64) : bool :=
  match a, b with
  | FNum p, FNum q => negb (Qle_bool q p)
  | _, _ => false
  end.

Definition leb (a b : f64) : bool :=
  match a, b with
  | FNum p, FNum q => Qle_bool p q
  | _, _ => false
  end.

Definition eqb (a b : f64) : bool :=
  match a, b with
  | FNum p, FNum q => Qeq_bool p q
  | _, _ => false
  end.

(** [max(a, b)], as Python has it: [b] if [a < b], else [a]. *)
Definition max (a b : f64) : f64 := if ltb a b then b else a.

Definition half : f64 := FNum (1 # 2).
Definition zero : f64 := FNum 0.

End F64.

Import F64.

(** ** Python: outcomes, the world, printing *)

Inductive exn : Type :=
| IndexError
| ValueError (msg : string)
| OverflowError
| OSError
| ObjectError
| VimbaCameraError
| SystemExit (code : Z).

Inductive outcome (A : Type) : Type :=
| Returned (a : A)
| Raised (e : exn).
Arguments Returned {A} a.
Arguments Raised {A} e.

Record datetime : Type := mkDatetime {
  year : nat; month : nat; day : nat;
  hour : nat; minute : nat; second : nat
}.

Inductive dtype : Type := uint8 | uint16 | uint32 | uint64.

Definition bits (d : dtype) : Z :=
  match d with uint8 => 8 | uint16 => 16 | uint32 => 32 | uint64 => 64 end.

(** A two-dimensional array of unsigned integers.  The number of columns is
    kept apart from the rows: an array of shape (0, c) has columns. *)
Record ndarray : Type := mkArray {
  arr_dtype : dtype;
  ncols : nat;
  rows : list (list Z)
}.

(** The warnings that NumPy's [mean] ([RuntimeWarning]) and SciPy's
    [peak_prominences] and [peak_widths] ([PeakPropertyWarning]) issue. *)
Inductive warning : Type :=
| MeanOfEmptySlice
| InvalidValueInDivide
| ProminenceOfZero
| WidthOfZero.

(** [writable path]: a file can be created at [path] (its directory exists
    and may be written to). *)
Record world : Type := mkWorld {
  stdout : list string;
  pywarnings : list warning;
  clock : datetime;
  sys_argv : list string;
  files : list (string * ndarray);
  writable : string -> bool
}.

Definition py (A : Type) : Type := world -> outcome A * world.

Definition ret {A} (a : A) : py A := fun w => (Returned a, w).

Definition raise {A} (e : exn) : py A := fun w => (Raised e, w).

Definition bind {A B} (m : py A) (k : A -> py B) : py B :=
  fun w =>
    match m w with
    | (Returned a, w') => k a w'
    | (Raised e, w') => (Raised e, w')
    end.

Declare Scope py_scope.
Delimit Scope py_scope with py.
Notation "x <- m ;; k" := (bind m (fun x => k))
  (at level 61, m at next level, right associativity) : py_scope.
Notation "m ;;; k" := (bind m (fun _ => k))
  (at level 61, right associativity) : py_scope.
Open Scope py_scope.

Definition with_stdout (w : world) (out : list string) : world :=
  mkWorld out (pywarnings w) (clock w) (sys_argv w) (files w) (writable w).

Definition with_warnings (w : world) (ws : list warning) : world :=
  mkWorld (stdout w) ws (clock w) (sys_argv w) (files w) (writable w).

Definition with_files (w : world) (fs : list (string * ndarray)) : world :=
  mkWorld (stdout w) (pywarnings w) (clock w) (sys_argv w) fs (writable w).

(** [print(s)]: one entry of [stdout] per call. *)
Definition print (s : string) : py unit :=
  fun w => (Returned tt, with_stdout w (stdout w ++ [s])).

(** [warnings.warn(msg, category)]. *)
Definition warn (s : warning) : py unit :=
  fun w => (Returned tt, with_warnings w (pywarnings w ++ [s])).

Definition datetime_now : py datetime := fun w => (Returned (clock w), w).

Definition get_argv : py (list string) := fun w => (Returned (sys_argv w), w).

(** [sys.exit(code)] raises [SystemExit]. *)
Definition sys_exit {A} (code : Z) : py A := raise (SystemExit code).

(** [l[i]] on a Python list. *)
Definition py_index {A} (l : list A) (i : Z) : py A :=
  let n := Z.of_nat (length l) in
  let j := if i <? 0 then i + n else i in
  if (0 <=? j) && (j <? n) then
    match nth_error l (Z.to_nat j) with
    | Some a => ret a
    | None => raise IndexError
    end
  else raise IndexError.

(** ** NumPy *)

Module Numpy.

(** Bounds of [a[start:stop]] on an axis of length [len]
    ([PySlice_AdjustIndices], step 1). *)
Definition adjust_index (len v : Z) : Z :=
  if v <? 0 then Z.max (v + len) 0 else Z.min v len.

Definition slice {A} (l : list A) (start stop : Z) : list A :=
  let len := Z.of_nat (length l) in
  let lo := adjust_index len start in
  let hi := adjust_index len stop in
  firstn (Z.to_nat (hi - lo)) (skipn (Z.to_nat lo) l).

Definition slice_len (len : nat) (start stop : Z) : nat :=
  let lo := adjust_index (Z.of_nat len) start in
  let hi := adjust_index (Z.of_nat len) stop in
  Z.to_nat (hi - lo).

(** [a[r0:r1, c0:c1]]. *)
Definition crop (a : ndarray) (r0 r1 c0 c1 : Z) : ndarray :=
  mkArray (arr_dtype a)
          (slice_len (ncols a) c0 c1)
          (map (fun row => slice row c0 c1) (slice (rows a) r0 r1)).

Definition wrap (d : dtype) (z : Z) : Z := z mod 2 ^ bits d.

(** [k - a] for a Python int [k] (NumPy 2 promotion: the result keeps the
    dtype of [a]; [k] must be representable in it, and the subtraction
    wraps).  With the promotion of NumPy 1 a [k] that does not fit widens
    the result instead; both agree whenever [k] fits. *)
Definition rsub_values (k : Z) (a : ndarray) : ndarray :=
  mkArray (arr_dtype a) (ncols a)
          (map (map (fun s => wrap (arr_dtype a) (k - s))) (rows a)).

Definition rsub_scalar (k : Z) (a : ndarray) : py ndarray :=
  if (0 <=? k) && (k <? 2 ^ bits (arr_dtype a)) then ret (rsub_values k a)
  else raise OverflowError.

Definition column (a : ndarray) (j : nat) : list Z :=
  map (fun row => nth j row 0) (rows a).

(** [np.add.reduce] of one column in float64. *)
Definition sum_f64 (col : list Z) : f64 :=
  fold_left (fun acc s => F64.add acc (of_Z s)) col F64.zero.

(** The values of [np.mean(a, axis=0)]: one mean per column. *)
Definition column_means (a : ndarray) : list f64 :=
  map (fun j => F64.div (sum_f64 (column a j))
                        (of_Z (Z.of_nat (length (rows a)))))
      (seq 0 (ncols a)).

(** [np.mean(a, axis=0)], with the RuntimeWarnings of an axis of length 0. *)
Definition mean_axis0 (a : ndarray) : py (list f64) :=
  let rcount := length (rows a) in
  (if Nat.eqb rcount 0 then warn MeanOfEmptySlice else ret tt) ;;;
  (if Nat.eqb rcount 0 && negb (Nat.eqb (ncols a) 0)
   then warn InvalidValueInDivide else ret tt) ;;;
  ret (column_means a).

(** [x.argmax()] on a non-empty array: the first index of the maximum, a
    NaN counting as the maximum. *)
Definition beats (v best : f64) : bool :=
  match best, v with
  | FNaN, _ => false
  | _, FNaN => true
  | _, _ => F64.ltb best v
  end.

Fixpoint argmax_from (l : list f64) (i : Z) (best : f64) (besti : Z) : Z :=
  match l with
  | [] => besti
  | v :: l' =>
      if beats v best then argmax_from l' (i + 1) v i
      else argmax_from l' (i + 1) best besti
  end.

Definition argmax (l : list f64) : py Z :=
  match l with
  | [] => raise (ValueError "attempt to get argmax of an empty sequence")
  | v :: l' => ret (argmax_from l' 1 v 0)
  end.

End Numpy.

(** ** SciPy: [scipy.signal.find_peaks] and [scipy.signal.peak_widths]

    The loops are those of [_peak_finding_utils.pyx]; each [while] becomes a
    recursion on a number of steps that the loop cannot exceed (see the
    [*_fuel] lemmas). *)

Module Scipy.

(** [x[i]] on a float64 buffer. *)
Definition get (x : list f64) (i : Z) : f64 := nth (Z.to_nat i) x FNaN.

Definition len (x : list f64) : Z := Z.of_nat (length x).

(** *** [_local_maxima_1d] *)

(** [while i_ahead < i_max and x[i_ahead] == x[i]: i_ahead += 1] *)
Fixpoint plateau_end (fuel : nat) (x : list f64) (i_max i i_ahead : Z) : Z :=
  match fuel with
  | O => i_ahead
  | S fuel' =>
      if (i_ahead <? i_max) && F64.eqb (get x i_ahead) (get x i)
      then plateau_end fuel' x i_max i (i_ahead + 1)
      else i_ahead
  end.

(** The outer loop; a maximum is (midpoint, left edge, right edge). *)
Fixpoint local_maxima_loop (fuel : nat) (x : list f64) (i_max i : Z)
  : list (Z * Z * Z) :=
  match fuel with
  | O => []
  | S fuel' =>
      if i <? i_max then
        if F64.ltb (get x (i - 1)) (get x i) then
          let i_ahead := plateau_end (Z.to_nat (i_max - i)) x i_max i (i + 1) in
          if F64.ltb (get x i_ahead) (get x i) then
            let left_edge := i in
            let right_edge := i_ahead - 1 in
            ((left_edge + right_edge) / 2, left_edge, right_edge)
              :: local_maxima_loop fuel' x i_max (i_ahead + 1)
          else local_maxima_loop fuel' x i_max (i + 1)
        else local_maxima_loop fuel' x i_max (i + 1)
      else []
  end.

Definition local_maxima_1d (x : list f64) : list (Z * Z * Z) :=
  local_maxima_loop (length x) x (len x - 1) 1.

(** *** [_peak_prominences], with [wlen = -1] (the whole signal) *)

(** [while i_min <= i and x[i] <= x[peak]: ...; i -= 1] *)
Fixpoint left_base_loop (fuel : nat) (x : list f64) (i_min peak i : Z)
         (left_min : f64) (left_base : Z) : f64 * Z :=
  match fuel with
  | O => (left_min, left_base)
  | S fuel' =>
      if (i_min <=? i) && F64.leb (get x i) (get x peak) then
        if F64.ltb (get x i) left_min
        then left_base_loop fuel' x i_min peak (i - 1) (get x i) i
        else left_base_loop fuel' x i_min peak (i - 1) left_min left_base
      else (left_min, left_base)
  end.

(** [while i <= i_max and x[i] <= x[peak]: ...; i += 1] *)
Fixpoint right_base_loop (fuel : nat) (x : list f64) (i_max peak i : Z)
         (right_min : f64) (right_base : Z) : f64 * Z :=
  match fuel with
  | O => (right_min, right_base)
  | S fuel' =>
      if (i <=? i_max) && F64.leb (get x i) (get x peak) then
        if F64.ltb (get x i) right_min
        then right_base_loop fuel' x i_max peak (i + 1) (get x i) i
        else right_base_loop fuel' x i_max peak (i + 1) right_min right_base
      else (right_min, right_base)
  end.

(** One peak: (prominence, left base, right base). *)
Definition prominence_data (x : list f64) (peak : Z) : f64 * Z * Z :=
  let i_min := 0 in
  let i_max := len x - 1 in
  let '(left_min, left_base) :=
    left_base_loop (S (Z.to_nat (peak - i_min))) x i_min peak peak
                   (get x peak) peak in
  let '(right_min, right_base) :=
    right_base_loop (S (Z.to_nat (i_max - peak))) x i_max peak peak
                    (get x peak) peak in
  (F64.sub (get x peak) (F64.max left_min right_min), left_base, right_base).

Definition valid_peak (x : list f64) (peak : Z) : bool :=
  (0 <=? peak) && (peak <=? len x - 1).

Definition prominence_of (x : list f64) (peak : Z) : py (f64 * Z * Z) :=
  if valid_peak x peak then ret (prominence_data x peak)
  else raise (ValueError "peak is not a valid index for `x`").

Fixpoint prominences_loop (x : list f64) (peaks : list Z)
  : py (list (f64 * Z * Z)) :=
  match peaks with
  | [] => ret []
  | peak :: rest =>
      d <- prominence_of x peak ;;
      ds <- prominences_loop x rest ;;
      ret (d :: ds)
  end.

Definition peak_prominences (x : list f64) (peaks : list Z)
  : py (list (f64 * Z * Z)) :=
  data <- prominences_loop x peaks ;;
  (if existsb (fun d => F64.eqb (fst (fst d)) F64.zero) data
   then warn ProminenceOfZero else ret tt) ;;;
  ret data.

(** *** [_peak_widths] *)

(** [while i_min < i and height < x[i]: i -= 1] *)
Fixpoint left_cross_loop (fuel : nat) (x : list f64) (i_min : Z)
         (height : f64) (i : Z) : Z :=
  match fuel with
  | O => i
  | S fuel' =>
      if (i_min <? i) && F64.ltb height (get x i)
      then left_cross_loop fuel' x i_min height (i - 1)
      else i
  end.

(** [while i < i_max and height < x[i]: i += 1] *)
Fixpoint right_cross_loop (fuel : nat) (x : list f64) (i_max : Z)
         (height : f64) (i : Z) : Z :=
  match fuel with
  | O => i
  | S fuel' =>
      if (i <? i_max) && F64.ltb height (get x i)
      then right_cross_loop fuel' x i_max height (i + 1)
      else i
  end.

(** The left intersection point, interpolated between samples. *)
Definition left_ip_of (x : list f64) (i_min peak : Z) (height : f64) : f64 :=
  let i := left_cross_loop (Z.to_nat (peak - i_min)) x i_min height peak in
  if F64.ltb (get x i) height
  then F64.add (of_Z i)
               (F64.div (F64.sub height (get x i))
                        (F64.sub (get x (i + 1)) (get x i)))
  else of_Z i.

Definition right_ip_of (x : list f64) (i_max peak : Z) (height : f64) : f64 :=
  let i := right_cross_loop (Z.to_nat (i_max - peak)) x i_max height peak in
  if F64.ltb (get x i) height
  then F64.sub (of_Z i)
               (F64.div (F64.sub height (get x i))
                        (F64.sub (get x (i - 1)) (get x i)))
  else of_Z i.

(** One peak: (width, width height, left ip, right ip). *)
Definition width_data (x : list f64) (rel_height : f64) (peak : Z)
           (d : f64 * Z * Z) : f64 * f64 * f64 * f64 :=
  let '(prominence, i_min, i_max) := d in
  let height := F64.sub (get x peak) (F64.mul prominence rel_height) in
  let left_ip := left_ip_of x i_min peak height in
  let right_ip := right_ip_of x i_max peak height in
  (F64.sub right_ip left_ip, height, left_ip, right_ip).

Definition valid_bases (x : list f64) (peak : Z) (d : f64 * Z * Z) : bool :=
  let '(_, i_min, i_max) := d in
  (0 <=? i_min) && (i_min <=? peak) && (peak <=? i_max) && (i_max <? len x).

Definition width_of (x : list f64) (rel_height : f64) (peak : Z)
           (d : f64 * Z * Z) : py (f64 * f64 * f64 * f64) :=
  if valid_bases x peak d then ret (width_data x rel_height peak d)
  else raise (ValueError "prominence data is invalid for peak").

Fixpoint widths_loop (x : list f64) (rel_height : f64) (peaks : list Z)
         (data : list (f64 * Z * Z)) : py (list (f64 * f64 * f64 * f64)) :=
  match peaks, data with
  | peak :: peaks', d :: data' =>
      w <- width_of x rel_height peak d ;;
      ws <- widths_loop x rel_height peaks' data' ;;
      ret (w :: ws)
  | _, _ => ret []
  end.

(** The result of [peak_widths]: four arrays of one length. *)
Record widths : Type := mkWidths {
  widths_ : list f64;
  width_heights : list f64;
  left_ips : list f64;
  right_ips : list f64
}.

Definition pack_widths (ws : list (f64 * f64 * f64 * f64)) : widths :=
  mkWidths (map (fun w => fst (fst (fst w))) ws)
           (map (fun w => snd (fst (fst w))) ws)
           (map (fun w => snd (fst w)) ws)
           (map (fun w => snd w) ws).

(** [peak_widths(x, peaks, rel_height)]: the prominences are computed
    again from [x] and [peaks]. *)
Definition peak_widths (x : list f64) (peaks : list Z) (rel_height : f64)
  : py widths :=
  data <- peak_prominences x peaks ;;
  if F64.ltb rel_height F64.zero
  then raise (ValueError "`rel_height` must be greater or equal to 0.0")
  else
    ws <- widths_loop x rel_height peaks data ;;
    (if existsb (fun w => F64.eqb (fst (fst (fst w))) F64.zero) ws
     then warn WidthOfZero else ret tt) ;;;
    ret (pack_widths ws).

(** *** [find_peaks(x, prominence=(pmin, None))] *)

(** The [properties] dictionary: keys 'prominences', 'left_bases',
    'right_bases'. *)
Record properties : Type := mkProperties {
  prominences : list f64;
  left_bases : list Z;
  right_bases : list Z
}.

(** [keep = pmin <= prominences], then [peaks[keep]] and [array[keep]]. *)
Definition keep (pmin : f64) (c : Z * (f64 * Z * Z)) : bool :=
  F64.leb pmin (fst (fst (snd c))).

Definition select_by_prominence (pmin : f64) (peaks : list Z)
           (data : list (f64 * Z * Z)) : list Z * properties :=
  let kept := filter (keep pmin) (combine peaks data) in
  (map fst kept,
   mkProperties (map (fun c => fst (fst (snd c))) kept)
                (map (fun c => snd (fst (snd c))) kept)
                (map (fun c => snd (snd c)) kept)).

Definition find_peaks (x : list f64) (pmin : f64) : py (list Z * properties) :=
  let peaks := map (fun m => fst (fst m)) (local_maxima_1d x) in
  data <- peak_prominences x peaks ;;
  ret (select_by_prominence pmin peaks data).

End Scipy.

(** ** The module [vimbaapilib] *)

Import Numpy Scipy.

Definition TS_FMT_STR : string := "%Y-%m-%dT%H-%M-%S".

(** [str(n).zfill(width)] for a natural number. *)
Definition zfill (width : nat) (s : string) : string :=
  let fix zeros (k : nat) : string :=
    match k with O => EmptyString | S k' => String "0" (zeros k') end in
  (zeros (width - String.length s)%nat ++ s)%string.

Definition decimal (n : nat) : string := NilEmpty.string_of_uint (Nat.to_uint n).

(** [datetime.strftime(dt, fmt)] for the directives of [TS_FMT_STR]; any
    other character is copied. *)
Fixpoint strftime (dt : datetime) (fmt : string) : string :=
  match fmt with
  | EmptyString => EmptyString
  | String "%" (String c rest) =>
      let field :=
        if Ascii.eqb c "Y" then zfill 4 (decimal (year dt))
        else if Ascii.eqb c "m" then zfill 2 (decimal (month dt))
        else if Ascii.eqb c "d" then zfill 2 (decimal (day dt))
        else if Ascii.eqb c "H" then zfill 2 (decimal (hour dt))
        else if Ascii.eqb c "M" then zfill 2 (decimal (minute dt))
        else if Ascii.eqb c "S" then zfill 2 (decimal (second dt))
        else String "%" (String c EmptyString) in
      (field ++ strftime dt rest)%string
  | String c rest => String c (strftime dt rest)
  end.

Definition usage_lines : list string :=
  [ "Usage:";
    "    python manta-frame.py [camera_id]";
    "    python manta-frame.py [/h] [-h]";
    "";
    "Parameters:";
    "    camera_id   ID of the camera to use (will use first found camera if not specified)";
    "" ]%string.

Fixpoint print_all (ls : list string) : py unit :=
  match ls with
  | [] => ret tt
  | l :: ls' => print l ;;; print_all ls'
  end.

Definition print_usage : py unit := print_all usage_lines.

Definition newline : string := String (ascii_of_nat 10) EmptyString.

Definition abort {A} (reason : string) (return_code : Z) (usage : bool) : py A :=
  print (reason ++ newline) ;;;
  (if usage then print_usage else ret tt) ;;;
  sys_exit return_code.

Definition is_help (arg : string) : bool :=
  String.eqb arg "/h" || String.eqb arg "-h".

(** [for arg in args: if arg in ('/h', '-h'): print_usage(); sys.exit(0)] *)
Fixpoint help_loop (args : list string) : py unit :=
  match args with
  | [] => ret tt
  | arg :: rest =>
      if is_help arg then print_usage ;;; sys_exit 0
      else help_loop rest
  end.

Definition parse_args : py (option string) :=
  argv <- get_argv ;;
  let args := skipn 1 argv in
  let argc := length args in
  help_loop args ;;;
  (if (1 <? argc)%nat
   then abort "Invalid number of arguments. Abort." 2 true
   else ret tt) ;;;
  match args with
  | [] => ret None
  | a :: _ => ret (Some a)
  end.

(** The Vimba session, as far as [get_camera] uses it. *)
Record Camera : Type := mkCamera {
  cam_id : string;
  cam_name : string;
  cam_interface_id : string
}.

Record Vimba : Type := mkVimba {
  all_cameras : list Camera
}.

Definition get_camera_by_id (vimba : Vimba) (id : string) : py Camera :=
  match find (fun c => String.eqb (cam_id c) id) (all_cameras vimba) with
  | Some c => ret c
  | None => raise VimbaCameraError
  end.

(** [try: body except VimbaCameraError: handler] *)
Definition try_except_camera {A} (body : py A) (handler : py A) : py A :=
  fun w =>
    match body w with
    | (Raised VimbaCameraError, w') => handler w'
    | r => r
    end.

(** Truth value of an [Optional[str]]: [None] and [''] are false. *)
Definition truthy (s : option string) : bool :=
  match s with
  | None => false
  | Some s' => negb (String.eqb s' "")
  end.

Definition get_camera (vimba : Vimba) (camera_id : option string) : py Camera :=
  if truthy camera_id then
    let id := match camera_id with Some s => s | None => EmptyString end in
    try_except_camera
      (get_camera_by_id vimba id)
      (abort ("Failed to access Camera '" ++ id ++ "'. Abort.") 1 false)
  else
    let cams := all_cameras vimba in
    (if (length cams =? 0)%nat
     then abort "No Cameras accessible. Abort." 1 false
     else ret tt) ;;;
    py_index cams 0.

(** A value passed as [frametsstr]: a [str], an [int], [None], or any other
    object (a [pathlib.PurePath], a [datetime], an instance of a subclass of
    [str] or of a user class), known by the truth value of its comparison
    with 'now' and by what [str()] makes of it; [None] there stands for a
    method that raises. *)
Inductive pyvalue : Type :=
| PyStr (s : string)
| PyInt (z : Z)
| PyNone
| PyObject (eq_now : option bool) (str_ : option string).

(** [v == 'now'], as the condition of an [if]. *)
Definition eq_now_test (v : pyvalue) : py bool :=
  match v with
  | PyStr s => ret (String.eqb s "now")
  | PyInt _ | PyNone => ret false
  | PyObject (Some b) _ => ret b
  | PyObject None _ => raise ObjectError
  end.

(** [type(v) == str] *)
Definition is_str (v : pyvalue) : bool :=
  match v with
  | PyStr _ => true
  | _ => false
  end.

(** [str(v)] *)
Definition py_str (v : pyvalue) : py string :=
  match v with
  | PyStr s => ret s
  | PyInt z => ret (NilEmpty.string_of_int (Z.to_int z))
  | PyNone => ret "None"%string
  | PyObject _ (Some s) => ret s
  | PyObject _ None => raise ObjectError
  end.

(** What [frame.as_numpy_ndarray()] returns: height x width x channels. *)
Record ndarray3 : Type := mkArray3 {
  arr3_dtype : dtype;
  arr3_width : nat;
  arr3_channels : nat;
  arr3_rows : list (list (list Z))
}.

Record Frame : Type := mkFrame {
  as_numpy_ndarray : ndarray3
}.

(** [a[:, :, 0]] *)
Definition channel0 (a : ndarray3) : py ndarray :=
  if (arr3_channels a =? 0)%nat then raise IndexError
  else ret (mkArray (arr3_dtype a) (arr3_width a)
                    (map (map (fun px => nth 0 px 0)) (arr3_rows a))).

(** [np.save(path, a)]; every name [save_frame] builds ends in '.npy'.  The
    file is opened for writing first: where that fails ([FileNotFoundError],
    [PermissionError], both an [OSError]) nothing is written. *)
Definition np_save (path : string) (a : ndarray) : py unit :=
  fun w =>
    if writable w path
    then (Returned tt, with_files w ((path, a) :: files w))
    else (Raised OSError, w).

(** Lines 110-123 of [save_frame]: the timestamp that goes into the name. *)
Definition save_timestamp (frametsstr : pyvalue) : py string :=
  is_now <- eq_now_test frametsstr ;;
  if is_now then
    now <- datetime_now ;;
    let frametsstr := strftime now TS_FMT_STR in
    print "::: WARNING: No timestamp for frame was provided. File will save with timestamp at time of saving." ;;;
    ret frametsstr
  else if is_str frametsstr then py_str frametsstr
  else
    (* the assertion fails; [print(error)] prints an empty line *)
    print "" ;;;
    frametsstr <- py_str frametsstr ;;
    print "::: WARNING: `frametsstr` was not type `str`. Conversion was made to type `str`." ;;;
    ret frametsstr.

Definition save_name (savepath pixformatstr frametsstr : string) : string :=
  (savepath ++ ("manta-frame_" ++ pixformatstr ++ "_" ++ frametsstr ++ ".npy"))%string.

Definition save_frame (frame : Frame) (savepath : string)
           (frametsstr : pyvalue) (pixformatstr : string) : py unit :=
  print "save frame" ;;;
  frametsstr <- save_timestamp frametsstr ;;
  frame_ndarray <- channel0 (as_numpy_ndarray frame) ;;
  np_save (save_name savepath pixformatstr frametsstr) frame_ndarray ;;;
  print (save_name savepath pixformatstr frametsstr).

(** The defaults of [save_frame]: [frametsstr='now'], [pixformatstr='NA']. *)
Definition save_frame_default (frame : Frame) (savepath : string) : py unit :=
  save_frame frame savepath (PyStr "now") "NA".

(** The tuple [peak_fwhm] returns. *)
Record fwhm_result : Type := mkResult {
  peakwidth : widths;
  peakmax : list Z;
  peaks_props : properties;
  frame_lineout : list f64
}.

Definition multiple_peaks_warning : list string :=
  [ "::: WARNING: Multiple peaks detected.";
    "/// Only the most prominent peak is taken into FWHM calculation.";
    "/// This is usually OK, but you could try increasing the prominence_min to correct for noise." ]%string.

(** Lines 147-153 of [peak_fwhm]: crop, invert, mean lineout. *)
Definition lineout (frame_ndarray : ndarray) (pixbit : N) (invert : bool)
           (roi : list Z) : py (list f64) :=
  r0 <- py_index roi 0 ;;
  r1 <- py_index roi 1 ;;
  c0 <- py_index roi 2 ;;
  c1 <- py_index roi 3 ;;
  let frame_ndarray := crop frame_ndarray r0 r1 c0 c1 in
  frame_ndarray <-
    (if invert then rsub_scalar (2 ^ Z.of_N pixbit - 1) frame_ndarray
     else ret frame_ndarray) ;;
  mean_axis0 frame_ndarray.

(** Lines 158-164: the peak the width is computed for. *)
Definition select_peak (peaks : list Z) (peaks_props : properties) : py (list Z) :=
  if (1 <? length peaks)%nat then
    k <- argmax (prominences peaks_props) ;;
    p <- py_index peaks k ;;
    print_all multiple_peaks_warning ;;;
    ret [p]
  else ret peaks.

Definition peak_fwhm (frame_ndarray : ndarray) (prominence_min : f64)
           (pixbit : N) (invert : bool) (roi : list Z) : py fwhm_result :=
  frame_lineout <- lineout frame_ndarray pixbit invert roi ;;
  found <- find_peaks frame_lineout prominence_min ;;
  let peaks := fst found in
  let peaks_props := snd found in
  peakmax <- select_peak peaks peaks_props ;;
  peakwidth <- peak_widths frame_lineout peakmax F64.half ;;
  ret (mkResult peakwidth peakmax peaks_props frame_lineout).

(** The defaults of [peak_fwhm]. *)
Definition default_prominence_min : f64 := of_Z 25.
Definition default_pixbit : N := 8%N.
Definition default_roi : list Z := [0; 1215; 0; 1935].

Definition peak_fwhm_default (frame_ndarray : ndarray) : py fwhm_result :=
  peak_fwhm frame_ndarray default_prominence_min default_pixbit false default_roi.

(** A camera as [get_frame] uses it: the three calls made on [cam].  Each is
    a computation of its own, which may change the world (the clock moves on
    while a frame is awaited) or raise; [get_pixel_format] stands for
    [str(cam.get_pixel_format())]. *)
Record CameraDevice : Type := mkDevice {
  get_name : py string;
  get_pixel_format : py string;
  cam_get_frame : Z -> py Frame
}.

Definition get_frame (cam : CameraDevice) (verbose : bool)
  : py (Frame * string * string) :=
  camname <- get_name cam ;;
  pixformatstr <- get_pixel_format cam ;;
  frame <- cam_get_frame cam 2000 ;;
  now <- datetime_now ;;
  let frametsstr := strftime now TS_FMT_STR in
  (if verbose then
     print ("get frame from " ++ camname) ;;;
     print ("pixel format: " ++ pixformatstr) ;;;
     print ("datetime string: " ++ frametsstr)
   else ret tt) ;;;
  ret (frame, frametsstr, pixformatstr).

Definition SAVE_PATH : string :=
  "D:/Dropbox/RBT/4grit/laser/data/shg-test/2021-08-13/".

(** Lines 209-213 of [main]: the frame is taken and saved under the
    timestamp and the pixel format that [get_frame] returned. *)
Definition get_and_save_frame (cam : CameraDevice) : py unit :=
  got <- get_frame cam false ;;
  let '(frame, frameTSstr, pixfmtstr) := got in
  save_frame frame SAVE_PATH (PyStr frameTSstr) pixfmtstr.

(** A world to run examples in. *)
Definition world0 : world :=
  mkWorld [] [] (mkDatetime 2021 8 13 9 5 7) ["manta-frame.py"%string] []
          (fun _ => true).

(** * Vocabulary of the statements *)

(** [extend w out warns]: [w] after [out] was printed and [warns] issued. *)
Definition extend (w : world) (out : list string) (warns : list warning)
  : world :=
  mkWorld (stdout w ++ out) (pywarnings w ++ warns)
          (clock w) (sys_argv w) (files w) (writable w).

(** [emits m r out warns]: from any world, [m] ends with outcome [r], having
    printed [out] and issued [warns], and nothing else. *)
Definition emits {A} (m : py A) (r : outcome A) (out : list string)
           (warns : list warning) : Prop :=
  forall w, m w = (r, extend w out warns).

(** A maximum found from position [i] on: its plateau lies in [i, i_max). *)
Definition maximum_within (lo hi : Z) (m : Z * Z * Z) : Prop :=
  let '(mid, l, r) := m in lo <= l /\ l <= mid /\ mid <= r /\ r < hi.

(** The array the lineout is taken of. *)
Definition analysed (frame : ndarray) (pixbit : N) (invert : bool)
           (r0 r1 c0 c1 : Z) : ndarray :=
  let cropped := crop frame r0 r1 c0 c1 in
  if invert then rsub_values (2 ^ Z.of_N pixbit - 1) cropped else cropped.

(** The local maxima of a signal, and those [find_peaks] keeps. *)
Definition detected (x : list f64) : list Z :=
  map (fun m => fst (fst m)) (local_maxima_1d x).

Definition candidates (x : list f64) (pmin : f64) : list Z * properties :=
  select_by_prominence pmin (detected x) (map (prominence_data x) (detected x)).

Definition argmax_index (l : list f64) : Z :=
  match l with
  | [] => 0
  | v :: l' => argmax_from l' 1 v 0
  end.

(** The peak list handed to [peak_widths]. *)
Definition selected (peaks : list Z) (peaks_props : properties) : list Z :=
  if (1 <? length peaks)%nat
  then [nth (Z.to_nat (argmax_index (prominences peaks_props))) peaks 0]
  else peaks.

Definition widths_of (x : list f64) (peaks : list Z) : widths :=
  pack_widths
    (map (fun p => width_data x F64.half p (prominence_data x p)) peaks).

(** The frame is stored with at least [pixbit] bits per sample, whenever the
    inversion constant [2**pixbit - 1] is used. *)
Definition storable (frame : ndarray) (pixbit : N) (invert : bool) : Prop :=
  invert = true -> Z.of_N pixbit <= bits (arr_dtype frame).

(** The run of [peak_fwhm] on a four-element [roi]. *)
Definition fwhm_of (frame : ndarray) (prominence_min : f64) (pixbit : N)
           (invert : bool) (r0 r1 c0 c1 : Z) : fwhm_result :=
  let x := column_means (analysed frame pixbit invert r0 r1 c0 c1) in
  let found := candidates x prominence_min in
  let peakmax := selected (fst found) (snd found) in
  mkResult (widths_of x peakmax) peakmax (snd found) x.

Definition fwhm_output (frame : ndarray) (prominence_min : f64) (pixbit : N)
           (invert : bool) (r0 r1 c0 c1 : Z) : list string :=
  let x := column_means (analysed frame pixbit invert r0 r1 c0 c1) in
  if (1 <? length (fst (candidates x prominence_min)))%nat
  then multiple_peaks_warning else [].

Fixpoint contains (c : ascii) (s : string) : bool :=
  match s with
  | EmptyString => false
  | String c' s' => Ascii.eqb c c' || contains c s'
  end.

Definition warning_no_timestamp : string :=
  "::: WARNING: No timestamp for frame was provided. File will save with timestamp at time of saving.".

Definition warning_not_str : string :=
  "::: WARNING: `frametsstr` was not type `str`. Conversion was made to type `str`.".

(** What [frametsstr == 'now'] and [str(frametsstr)] give, where they give
    anything. *)
Definition equals_now (v : pyvalue) : option bool :=
  match v with
  | PyStr s => Some (String.eqb s "now")
  | PyInt _ | PyNone => Some false
  | PyObject b _ => b
  end.

Definition str_of (v : pyvalue) : option string :=
  match v with
  | PyStr s => Some s
  | PyInt z => Some (NilEmpty.string_of_int (Z.to_int z))
  | PyNone => Some "None"%string
  | PyObject _ s => s
  end.

(** [printed w out]: [w] after the lines [out] were printed. *)
Definition printed (w : world) (out : list string) : world :=
  mkWorld (stdout w ++ out) (pywarnings w) (clock w) (sys_argv w) (files w)
          (writable w).

(** The end of a run of [save_frame] that printed [out] before [np.save]:
    where the file can be written it is, and its name is printed; where it
    cannot, [np.save]'s error leaves [save_frame] and no name is printed. *)
Definition saved (w : world) (out : list string) (name : string)
           (a : ndarray) : outcome unit * world :=
  if writable w name
  then (Returned tt,
        mkWorld (stdout w ++ out ++ [name]) (pywarnings w) (clock w)
                (sys_argv w) ((name, a) :: files w) (writable w))
  else (Raised OSError, printed w out).

Definition is_num (v : f64) : bool :=
  match v with FNum _ => true | FNaN => false end.

Definition zsum (l : list Z) : Z := fold_right Z.add 0 l.

(** Every row of the array has [ncols] entries. *)
Definition wf (a : ndarray) : Prop :=
  Forall (fun row => length row = ncols a) (rows a).

(** A single excursion above a flat background: the signal is [lo] up to
    position [a], rises strictly to a plateau of height [hi] over
    [pl .. pr], falls strictly to position [e], and is [lo] from there on. *)
Definition single_bump (x : list f64) (lo hi : f64) (a pl pr e : Z) : Prop :=
  0 <= a /\ a < pl /\ pl <= pr /\ pr < e /\ e <= len x - 1
  /\ (forall j, 0 <= j <= a -> get x j = lo)
  /\ (forall j, a < j <= pl -> F64.ltb (get x (j - 1)) (get x j) = true)
  /\ (forall j, pl <= j <= pr -> get x j = hi)
  /\ (forall j, pr <= j < e -> F64.ltb (get x (j + 1)) (get x j) = true)
  /\ (forall j, e <= j <= len x - 1 -> get x j = lo).

(** A single dip below a flat background [bg], down to [low]. *)
Definition single_dip (x : list f64) (bg low : f64) (a pl pr e : Z) : Prop :=
  0 <= a /\ a < pl /\ pl <= pr /\ pr < e /\ e <= len x - 1
  /\ (forall j, 0 <= j <= a -> get x j = bg)
  /\ (forall j, a < j <= pl -> F64.ltb (get x j) (get x (j - 1)) = true)
  /\ (forall j, pl <= j <= pr -> get x j = low)
  /\ (forall j, pr <= j < e -> F64.ltb (get x j) (get x (j + 1)) = true)
  /\ (forall j, e <= j <= len x - 1 -> get x j = bg).

(** A float that is an integer sample from 0 to [M]. *)
Definition sample (M : Z) (v : f64) : Prop :=
  exists s, 0 <= s <= M /\ v = of_Z s.

(** Every sample lies in [0, 2**pixbit - 1]. *)
Definition has_bit_depth (a : ndarray) (pixbit : N) : Prop :=
  Forall (Forall (fun s => 0 <= s <= 2 ^ Z.of_N pixbit - 1)) (rows a).

(** [maxValue - sample], sample by sample, without wrap-around. *)
Definition inverted (pixbit : N) (a : ndarray) : ndarray :=
  mkArray (arr_dtype a) (ncols a)
          (map (map (fun s => (2 ^ Z.of_N pixbit - 1) - s)) (rows a)).

(** Two rows with a small peak at column 1 and a larger one at column 3. *)
Definition two_peaks : ndarray :=
  mkArray uint8 5 [[0; 1; 0; 2; 0]; [0; 1; 0; 2; 0]].

(** Two rows whose column means are 9, 9, 7, 5, 7, 9, 9. *)
Definition dip_example : ndarray :=
  mkArray uint8 7 [[9; 9; 8; 5; 6; 9; 9]; [9; 9; 6; 5; 8; 9; 9]].

(** One row: 9, but for a dip to 5 at columns 2 and 3. *)
Definition dip_row : ndarray := mkArray uint8 6 [[9; 9; 5; 5; 9; 9]].

(** Three rows whose columns add up to 742, 667 and 742. *)
Definition dip_thirds : ndarray :=
  mkArray uint8 3 [[247; 222; 247]; [247; 222; 247]; [248; 223; 248]].

(** One row of 64-bit samples: a peak of 2**60, 128 above its neighbours. *)
Definition narrow_peak : ndarray :=
  mkArray uint64 3 [[2 ^ 60 - 128; 2 ^ 60; 2 ^ 60 - 128]].

(** One 64-bit sample at full scale. *)
Definition full_scale_64 : ndarray := mkArray uint64 1 [[2 ^ 64 - 1]].

(** One row, flat. *)
Definition flat_frame : ndarray := mkArray uint8 4 [[7; 7; 7; 7]].

Definition frame3 : ndarray :=
  mkArray uint8 3 [[1; 2; 3]; [4; 9; 6]; [7; 8; 9]].

Definition camera_frame : Frame :=
  mkFrame (mkArray3 uint8 2 1 [[[1]; [2]]; [[3]; [4]]]).

Definition argv_world (argv : list string) : world :=
  mkWorld [] [] (mkDatetime 2021 8 13 9 5 7) argv [] (fun _ => true).

(** ** Further vocabulary *)

(** The signal never falls, or never rises, from left to right. *)
Definition never_falls (x : list f64) : Prop :=
  forall i j, 0 <= i -> i <= j -> j < len x ->
    F64.ltb (get x j) (get x i) = false.

Definition never_rises (x : list f64) : Prop :=
  forall i j, 0 <= i -> i <= j -> j < len x ->
    F64.ltb (get x i) (get x j) = false.

(** Every sample is a value of the array's dtype. *)
Definition in_dtype (a : ndarray) : Prop :=
  Forall (Forall (fun s => 0 <= s < 2 ^ bits (arr_dtype a))) (rows a).

(** The warnings of a run of [peak_fwhm], stage by stage. *)
Definition mean_warnings (a : ndarray) : list warning :=
  (if Nat.eqb (length (rows a)) 0 then [MeanOfEmptySlice] else [])
  ++ (if Nat.eqb (length (rows a)) 0 && negb (Nat.eqb (ncols a) 0)
      then [InvalidValueInDivide] else []).

Definition prominence_warnings (x : list f64) (peaks : list Z) : list warning :=
  if existsb (fun d => F64.eqb (fst (fst d)) F64.zero)
             (map (prominence_data x) peaks)
  then [ProminenceOfZero] else [].

Definition width_warnings (x : list f64) (peaks : list Z) : list warning :=
  if existsb (fun w => F64.eqb (fst (fst (fst w))) F64.zero)
             (map (fun p => width_data x F64.half p (prominence_data x p)) peaks)
  then [WidthOfZero] else [].

Definition fwhm_warnings (frame : ndarray) (prominence_min : f64) (pixbit : N)
           (invert : bool) (r0 r1 c0 c1 : Z) : list warning :=
  let a := analysed frame pixbit invert r0 r1 c0 c1 in
  let x := column_means a in
  let found := candidates x prominence_min in
  let peakmax := selected (fst found) (snd found) in
  mean_warnings a
  ++ prominence_warnings x (detected x)
  ++ prominence_warnings x peakmax
  ++ width_warnings x peakmax.

(** A candidate as [find_peaks] keeps it: the peak with its prominence and
    bases. *)
Definition cand_prominence (c : Z * (f64 * Z * Z)) : f64 := fst (fst (snd c)).

(** The candidates that pass the threshold [pmin]. *)
Definition kept (x : list f64) (pmin : f64) : list (Z * (f64 * Z * Z)) :=
  filter (keep pmin)
         (combine (detected x) (map (prominence_data x) (detected x))).

(** The first candidate of largest prominence, if there is a candidate. *)
Fixpoint first_max (l : list (Z * (f64 * Z * Z)))
         (best : option (Z * (f64 * Z * Z))) : option (Z * (f64 * Z * Z)) :=
  match l with
  | [] => best
  | c :: l' =>
      first_max l'
        (match best with
         | None => Some c
         | Some b =>
             if F64.ltb (cand_prominence b) (cand_prominence c)
             then Some c else Some b
         end)
  end.

Definition passing (t : f64) (best : option (Z * (f64 * Z * Z)))
  : option (Z * (f64 * Z * Z)) :=
  match best with
  | Some b => if keep t b then Some b else None
  | None => None
  end.

(** Characters and fields of a timestamp. *)
Definition is_digit (c : ascii) : bool :=
  (48 <=? nat_of_ascii c)%nat && (nat_of_ascii c <=? 57)%nat.

Definition timestamp_char (c : ascii) : bool :=
  is_digit c || Ascii.eqb c "-" || Ascii.eqb c "T".

Fixpoint all_chars (P : ascii -> bool) (s : string) : bool :=
  match s with
  | EmptyString => true
  | String c s' => P c && all_chars P s'
  end.

(** The number that a string of decimal digits denotes. *)
Fixpoint digits_value_from (acc : nat) (s : string) : nat :=
  match s with
  | EmptyString => acc
  | String c s' => digits_value_from (10 * acc + (nat_of_ascii c - 48)) s'
  end.

Definition digits_value (s : string) : nat := digits_value_from 0 s.

(** A field of a timestamp is [width] digits that denote [n]. *)
Definition field_ok (width n : nat) : bool :=
  let s := zfill width (decimal n) in
  (String.length s =? width)%nat && all_chars is_digit s
  && (digits_value s =? n)%nat.

(** A date and time as [datetime.now()] gives it, from the year 1000 on. *)
Definition valid_datetime (dt : datetime) : Prop :=
  1000 <= Z.of_nat (year dt) <= 9999
  /\ (1 <= month dt <= 12 /\ 1 <= day dt <= 31
      /\ hour dt < 24 /\ minute dt < 60 /\ second dt < 60)%nat.

(** A camera that returns the example frame, the clock one second on. *)
Definition example_camera : CameraDevice :=
  mkDevice (ret "Manta G-235B"%string) (ret "Mono8"%string)
           (fun _ w =>
              (Returned camera_frame,
               mkWorld (stdout w) (pywarnings w) (mkDatetime 2021 8 13 9 5 8)
                       (sys_argv w) (files w) (writable w))).

(** The finite numbers of binary64: [m * 2**c] with at most 53 bits in [m]
    and [c] from -1074 on. *)
Definition representable (q : Q) : Prop :=
  exists m c, -1074 <= c /\ Z.abs m <= 2 ^ 53 /\ (q == inject_Z m * pow2 c)%Q.

(** What an arithmetic operation returns: a number of binary64, or NaN. *)
Definition float_value (v : f64) : Prop :=
  match v with
  | FNum q => representable q
  | FNaN => True
  end.

(** * Properties *)

(** ** Effects: what a computation may do to the world *)

Lemma extend_nil (w : world) : extend w [] [] = w.
Proof. destruct w; unfold extend; simpl; now rewrite !app_nil_r. Qed.

Lemma extend_extend (w : world) (o1 o2 : list string) (w1 w2 : list warning) :
  extend (extend w o1 w1) o2 w2 = extend w (o1 ++ o2) (w1 ++ w2).
Proof. unfold extend; simpl; now rewrite !app_assoc. Qed.

Lemma emits_ret {A} (a : A) : emits (ret a) (Returned a) [] [].
Proof. intros w; unfold ret; now rewrite extend_nil. Qed.

Lemma emits_raise {A} (e : exn) : emits (@raise A e) (Raised e) [] [].
Proof. intros w; unfold raise; now rewrite extend_nil. Qed.

Lemma emits_print (s : string) : emits (print s) (Returned tt) [s] [].
Proof.
  intros w; unfold print, with_stdout, extend; now rewrite app_nil_r.
Qed.

Lemma emits_warn (s : warning) : emits (warn s) (Returned tt) [] [s].
Proof.
  intros w; unfold warn, with_warnings, extend; now rewrite app_nil_r.
Qed.

Lemma emits_bind {A B} (m : py A) (k : A -> py B) a r o1 o2 w1 w2 :
  emits m (Returned a) o1 w1 ->
  emits (k a) r o2 w2 ->
  emits (bind m k) r (o1 ++ o2) (w1 ++ w2).
Proof.
  intros Hm Hk w; unfold bind; rewrite Hm, Hk; now rewrite extend_extend.
Qed.

Lemma emits_bind_raised {A B} (m : py A) (k : A -> py B) e o1 w1 :
  emits m (Raised e) o1 w1 ->
  emits (bind m k) (Raised e) o1 w1.
Proof. intros Hm w; unfold bind; now rewrite Hm. Qed.

Lemma emits_when (b : bool) (s : warning) :
  emits (if b then warn s else ret tt) (Returned tt) [] (if b then [s] else []).
Proof. destruct b; [apply emits_warn | apply emits_ret]. Qed.

Lemma emits_then_ret {A B} (m : py A) (b : B) a warns :
  emits m (Returned a) [] warns ->
  emits (m ;;; ret b) (Returned b) [] warns.
Proof.
  intros Hm.
  change (@nil string) with (@nil string ++ []).
  rewrite <- (app_nil_r warns).
  eapply emits_bind; [exact Hm | apply emits_ret].
Qed.

Lemma emits_print_all (ls : list string) :
  emits (print_all ls) (Returned tt) ls [].
Proof.
  induction ls as [| l ls IH]; simpl.
  - apply emits_ret.
  - change (l :: ls) with ([l] ++ ls).
    change (@nil warning) with (@nil warning ++ []).
    eapply emits_bind; [apply emits_print | exact IH].
Qed.

(** ** Rounding to binary64 *)

Lemma pow2_pos e : (0 < pow2 e)%Q.
Proof. apply Qpower_0_lt. reflexivity. Qed.

Lemma pow2_add a b : (pow2 (a + b) == pow2 a * pow2 b)%Q.
Proof. apply Qpower_plus. discriminate. Qed.

Lemma pow2_le a b : a <= b -> (pow2 a <= pow2 b)%Q.
Proof. intros H. apply Qpower_le_compat_l; [exact H | discriminate]. Qed.

Lemma pow2_lt a b : a < b -> (pow2 a < pow2 b)%Q.
Proof. intros H. apply Qpower_lt_compat_l; [exact H | reflexivity]. Qed.

Lemma pow2_lt_inv a b : (pow2 a < pow2 b)%Q -> a < b.
Proof.
  intros H. destruct (Z_lt_le_dec a b) as [Hlt | Hle]; [exact Hlt |].
  apply pow2_le in Hle. lra.
Qed.

Lemma pow2_Z e : 0 <= e -> (pow2 e == inject_Z (2 ^ e))%Q.
Proof. intros H. unfold pow2. now rewrite Zpower_Qpower. Qed.

Lemma pow2_opp e : (pow2 (- e) == / pow2 e)%Q.
Proof. apply Qpower_opp. Qed.

Lemma pow2_shift_lt q b c : (q * pow2 b < pow2 c)%Q <-> (q < pow2 (c - b))%Q.
Proof.
  assert (E : (pow2 c == pow2 (c - b) * pow2 b)%Q)
    by (rewrite <- pow2_add; now replace (c - b + b) with c by lia).
  rewrite E. pose proof (pow2_pos b). split; intros H0.
  - now apply Qmult_lt_r in H0.
  - now apply Qmult_lt_r.
Qed.

Lemma pow2_shift_le q b c : (pow2 c <= q * pow2 b)%Q <-> (pow2 (c - b) <= q)%Q.
Proof.
  assert (E : (pow2 c == pow2 (c - b) * pow2 b)%Q)
    by (rewrite <- pow2_add; now replace (c - b + b) with c by lia).
  rewrite E. pose proof (pow2_pos b). split; intros H0.
  - now apply Qmult_le_r in H0.
  - now apply Qmult_le_r.
Qed.

Lemma ilog2_spec q :
  (0 < q)%Q -> (pow2 (ilog2 q) <= q)%Q /\ (q < pow2 (ilog2 q + 1))%Q.
Proof.
  intros Hq. unfold ilog2.
  destruct q as [n d]. cbn [Qnum Qden].
  assert (Hn : 0 < n) by (unfold Qlt in Hq; simpl in Hq; lia).
  pose proof (Z.log2_spec n Hn) as [Ha1 Ha2].
  pose proof (Z.log2_spec (Z.pos d) (Pos2Z.is_pos d)) as [Hb1 Hb2].
  pose proof (Z.log2_nonneg n) as Ha0.
  pose proof (Z.log2_nonneg (Z.pos d)) as Hb0.
  set (a := Z.log2 n) in *. set (b := Z.log2 (Z.pos d)) in *.
  assert (Hlow : (pow2 (a - b - 1) <= n # d)%Q).
  { replace (a - b - 1) with (a - (b + 1)) by lia.
    apply pow2_shift_le. rewrite !pow2_Z by lia.
    unfold Qle, Qmult, inject_Z; simpl.
    rewrite Z.mul_1_r. rewrite Pos.mul_1_r.
    replace (Z.succ b) with (b + 1) in Hb2 by lia.
    assert (0 < 2 ^ a) by (apply Z.pow_pos_nonneg; lia).
    nia. }
  assert (Hhigh : (n # d < pow2 (a - b + 1))%Q).
  { replace (a - b + 1) with (a + 1 - b) by lia.
    apply pow2_shift_lt. rewrite !pow2_Z by lia.
    unfold Qlt, Qmult, inject_Z; simpl.
    rewrite Z.mul_1_r. rewrite Pos.mul_1_r.
    replace (Z.succ a) with (a + 1) in Ha2 by lia.
    assert (0 < 2 ^ b) by (apply Z.pow_pos_nonneg; lia).
    nia. }
  destruct (Qle_bool (pow2 (a - b)) (n # d)) eqn:E.
  - apply Qle_bool_iff in E. split; assumption.
  - split; [exact Hlow |].
    replace (a - b - 1 + 1) with (a - b) by lia.
    apply Qnot_le_lt. intros H. apply Qle_bool_iff in H. congruence.
Qed.

Lemma ilog2_unique q k :
  (pow2 k <= q)%Q -> (q < pow2 (k + 1))%Q -> ilog2 q = k.
Proof.
  intros H1 H2.
  assert (Hq : (0 < q)%Q) by (pose proof (pow2_pos k); lra).
  destruct (ilog2_spec q Hq) as [H3 H4].
  assert (ilog2 q < k + 1) by (apply pow2_lt_inv; lra).
  assert (k < ilog2 q + 1) by (apply pow2_lt_inv; lra).
  lia.
Qed.

Lemma ilog2_le p q : (0 < p)%Q -> (p <= q)%Q -> ilog2 p <= ilog2 q.
Proof.
  intros Hp Hpq.
  destruct (ilog2_spec p Hp) as [H1 _].
  destruct (ilog2_spec q ltac:(lra)) as [_ H2].
  assert (ilog2 p < ilog2 q + 1) by (apply pow2_lt_inv; lra). lia.
Qed.

Lemma ilog2_comp p q : (0 < p)%Q -> (p == q)%Q -> ilog2 p = ilog2 q.
Proof.
  intros Hp E. symmetry. destruct (ilog2_spec p Hp).
  apply ilog2_unique; lra.
Qed.

Lemma rne_Z z : rne (inject_Z z) = z.
Proof.
  unfold rne. rewrite Qfloor_Z.
  replace (inject_Z z - inject_Z z ?= 1 # 2)%Q with Lt; [reflexivity |].
  symmetry. apply Qlt_alt.
  assert (E : (inject_Z z - inject_Z z == 0)%Q) by ring.
  rewrite E. reflexivity.
Qed.

Lemma rne_cases q :
  rne q = Qfloor q \/ rne q = Qfloor q + 1.
Proof.
  unfold rne. destruct (_ ?= _)%Q; auto. destruct (Z.even _); auto.
Qed.

Lemma rne_le p q : (p <= q)%Q -> rne p <= rne q.
Proof.
  intros Hpq.
  pose proof (Qfloor_resp_le p q Hpq) as Hfl.
  destruct (Z.eq_dec (Qfloor p) (Qfloor q)) as [E | NE].
  - unfold rne. rewrite E.
    generalize (inject_Z (Qfloor q)); intros F.
    destruct (Qcompare_spec (q - F) (1 # 2)) as [Cq | Cq | Cq];
      destruct (Qcompare_spec (p - F) (1 # 2)) as [Cp | Cp | Cp];
      try (destruct (Z.even (Qfloor q))); try lia; exfalso; lra.
  - destruct (rne_cases p) as [-> | ->], (rne_cases q) as [-> | ->]; lia.
Qed.

Lemma rne_comp p q : (p == q)%Q -> rne p = rne q.
Proof. intros E. apply Z.le_antisymm; apply rne_le; lra. Qed.

(** Scaled mantissas *)

Lemma cexp_ge q : -1074 <= cexp q.
Proof. unfold cexp. lia. Qed.

Lemma cexp_le p q : (0 < p)%Q -> (p <= q)%Q -> cexp p <= cexp q.
Proof. intros Hp Hpq. unfold cexp. pose proof (ilog2_le p q Hp Hpq). lia. Qed.

Lemma cexp_comp p q : (0 < p)%Q -> (p == q)%Q -> cexp p = cexp q.
Proof. intros Hp E. unfold cexp. now rewrite (ilog2_comp p q Hp E). Qed.

Lemma scaled_lt q : (0 < q)%Q -> (q / pow2 (cexp q) < pow2 53)%Q.
Proof.
  intros Hq. destruct (ilog2_spec q Hq) as [_ H].
  apply Qlt_shift_div_r; [apply pow2_pos |].
  rewrite <- pow2_add.
  eapply Qlt_le_trans; [exact H |]. apply pow2_le. unfold cexp. lia.
Qed.

Lemma scaled_ge q :
  (0 < q)%Q -> -1074 < cexp q -> (pow2 52 <= q / pow2 (cexp q))%Q.
Proof.
  intros Hq He. destruct (ilog2_spec q Hq) as [H _].
  apply Qle_shift_div_l; [apply pow2_pos |].
  rewrite <- pow2_add.
  eapply Qle_trans; [| exact H]. apply pow2_le. unfold cexp in *. lia.
Qed.

Lemma scaled_pos q : (0 < q)%Q -> (0 < q / pow2 (cexp q))%Q.
Proof.
  intros Hq. apply Qlt_shift_div_l; [apply pow2_pos |]. lra.
Qed.

Lemma rne_nonneg s : (0 <= s)%Q -> 0 <= rne s.
Proof. intros H. rewrite <- (rne_Z 0). now apply rne_le. Qed.

Lemma rne_upper s z : (s <= inject_Z z)%Q -> rne s <= z.
Proof. intros H. rewrite <- (rne_Z z). now apply rne_le. Qed.

Lemma rne_lower s z : (inject_Z z <= s)%Q -> z <= rne s.
Proof. intros H. rewrite <- (rne_Z z). now apply rne_le. Qed.

Lemma mantissa_range q :
  (0 < q)%Q ->
  0 <= rne (q / pow2 (cexp q)) <= 2 ^ 53
  /\ (-1074 < cexp q -> 2 ^ 52 <= rne (q / pow2 (cexp q))).
Proof.
  intros Hq. pose proof (scaled_pos q Hq). pose proof (scaled_lt q Hq) as Hlt.
  rewrite (pow2_Z 53) in Hlt by lia.
  split; [split |].
  - apply rne_nonneg. lra.
  - apply rne_upper. lra.
  - intros He. pose proof (scaled_ge q Hq He) as Hge.
    rewrite (pow2_Z 52) in Hge by lia. now apply rne_lower.
Qed.

Lemma round_pos_nonneg q : (0 < q)%Q -> (0 <= round_pos q)%Q.
Proof.
  intros Hq. unfold round_pos.
  destruct (mantissa_range q Hq) as [[H0 _] _].
  apply Qmult_le_0_compat; [| apply Qlt_le_weak, pow2_pos].
  change 0%Q with (inject_Z 0). now rewrite <- Zle_Qle.
Qed.

Lemma round_pos_le p q :
  (0 < p)%Q -> (p <= q)%Q -> (round_pos p <= round_pos q)%Q.
Proof.
  intros Hp Hpq. assert (Hq : (0 < q)%Q) by lra.
  pose proof (cexp_le p q Hp Hpq) as He.
  unfold round_pos.
  destruct (Z.eq_dec (cexp p) (cexp q)) as [E | NE].
  - rewrite E. apply Qmult_le_compat_r; [| apply Qlt_le_weak, pow2_pos].
    rewrite <- Zle_Qle. apply rne_le.
    apply Qmult_le_compat_r; [exact Hpq |].
    apply Qlt_le_weak, Qinv_lt_0_compat, pow2_pos.
  - destruct (mantissa_range p Hp) as [[_ Hup] _].
    destruct (mantissa_range q Hq) as [_ Hlo].
    specialize (Hlo ltac:(pose proof (cexp_ge p); lia)).
    apply Qle_trans with (pow2 (cexp p + 53)).
    + rewrite Z.add_comm, pow2_add.
      apply Qmult_le_compat_r; [| apply Qlt_le_weak, pow2_pos].
      rewrite (pow2_Z 53) by lia. now rewrite <- Zle_Qle.
    + apply Qle_trans with (pow2 (cexp q + 52)).
      * apply pow2_le. lia.
      * rewrite Z.add_comm, pow2_add.
        apply Qmult_le_compat_r; [| apply Qlt_le_weak, pow2_pos].
        rewrite (pow2_Z 52) by lia. now rewrite <- Zle_Qle.
Qed.

(** Signed rounding *)

Lemma round_pos_comp p q : (0 < p)%Q -> (p == q)%Q -> (round_pos p == round_pos q)%Q.
Proof.
  intros Hp E. unfold round_pos. rewrite (cexp_comp p q Hp E).
  rewrite (rne_comp (p / pow2 (cexp q)) (q / pow2 (cexp q))); [reflexivity |].
  now rewrite E.
Qed.

Lemma round_gt q : (0 < q)%Q -> round q = Qred (round_pos q).
Proof.
  intros H. unfold round.
  destruct (Qcompare_spec q 0); [lra | lra | reflexivity].
Qed.

Lemma round_lt q : (q < 0)%Q -> round q = Qred (- round_pos (- q)).
Proof.
  intros H. unfold round.
  destruct (Qcompare_spec q 0); [lra | reflexivity | lra].
Qed.

Lemma round_zero q : (q == 0)%Q -> round q = 0%Q.
Proof.
  intros H. unfold round.
  destruct (Qcompare_spec q 0); [reflexivity | lra | lra].
Qed.

Lemma round_comp p q : (p == q)%Q -> round p = round q.
Proof.
  intros E.
  destruct (Qcompare_spec p 0) as [H | H | H].
  - rewrite !round_zero; [reflexivity | lra | lra].
  - rewrite !round_lt by lra. apply Qred_complete.
    rewrite (round_pos_comp (- p) (- q)); [reflexivity | lra | now rewrite E].
  - rewrite !round_gt by lra. apply Qred_complete.
    apply round_pos_comp; [lra | exact E].
Qed.

Lemma round_sign q :
  ((0 <= q)%Q -> (0 <= round q)%Q) /\ ((q <= 0)%Q -> (round q <= 0)%Q).
Proof.
  destruct (Qcompare_spec q 0) as [H | H | H].
  - rewrite (round_zero q H). split; intros; lra.
  - rewrite (round_lt q H), Qred_correct.
    pose proof (round_pos_nonneg (- q) ltac:(lra)). split; intros; lra.
  - rewrite (round_gt q H), Qred_correct.
    pose proof (round_pos_nonneg q H). split; intros; lra.
Qed.

Lemma round_le p q : (p <= q)%Q -> (round p <= round q)%Q.
Proof.
  intros Hpq.
  destruct (Qcompare_spec q 0) as [Hq | Hq | Hq].
  - destruct (round_sign q) as [H0 _]. specialize (H0 ltac:(lra)).
    destruct (round_sign p) as [_ H1]. specialize (H1 ltac:(lra)). lra.
  - rewrite (round_lt p), (round_lt q), !Qred_correct by lra.
    pose proof (round_pos_le (- q) (- p) ltac:(lra) ltac:(lra)). lra.
  - destruct (Qlt_le_dec 0 p) as [Hp | Hp].
    + rewrite (round_gt p), (round_gt q), !Qred_correct by lra.
      now apply round_pos_le.
    + destruct (round_sign q) as [H0 _]. specialize (H0 ltac:(lra)).
      destruct (round_sign p) as [_ H1]. specialize (H1 Hp). lra.
Qed.

Lemma round_pos_exact_lt m c :
  0 < m < 2 ^ 53 -> -1074 <= c ->
  (round_pos (inject_Z m * pow2 c) == inject_Z m * pow2 c)%Q.
Proof.
  intros Hm Hc.
  set (q := (inject_Z m * pow2 c)%Q).
  assert (Hpm : (0 < inject_Z m)%Q)
    by (change 0%Q with (inject_Z 0); rewrite <- Zlt_Qlt; lia).
  assert (Hq : (0 < q)%Q)
    by (unfold q; apply Qmult_lt_0_compat; [exact Hpm | apply pow2_pos]).
  assert (He : cexp q <= c).
  { destruct (ilog2_spec q Hq) as [H1 _].
    assert (Hlt : (q < pow2 (53 + c))%Q).
    { unfold q. rewrite pow2_add.
      apply Qmult_lt_r; [apply pow2_pos |].
      rewrite (pow2_Z 53) by lia. rewrite <- Zlt_Qlt. lia. }
    assert (ilog2 q < 53 + c) by (apply pow2_lt_inv; lra).
    unfold cexp. lia. }
  set (e := cexp q) in *.
  assert (Hs : (q / pow2 e == inject_Z (m * 2 ^ (c - e)))%Q).
  { unfold q. rewrite inject_Z_mult, <- (pow2_Z (c - e)) by lia.
    replace c with ((c - e) + e) at 1 by lia. rewrite pow2_add.
    field. pose proof (pow2_pos e). lra. }
  unfold round_pos. fold e.
  rewrite (rne_comp _ _ Hs), rne_Z.
  rewrite inject_Z_mult, <- (pow2_Z (c - e)) by lia.
  unfold q. replace c with ((c - e) + e) at 2 by lia. rewrite pow2_add. ring.
Qed.

Lemma round_pos_exact m c :
  0 < m <= 2 ^ 53 -> -1074 <= c ->
  (round_pos (inject_Z m * pow2 c) == inject_Z m * pow2 c)%Q.
Proof.
  intros Hm Hc.
  destruct (Z.eq_dec m (2 ^ 53)) as [-> | Hne];
    [| apply round_pos_exact_lt; [lia | exact Hc]].
  assert (E : (inject_Z (2 ^ 53) * pow2 c == inject_Z (2 ^ 52) * pow2 (c + 1))%Q).
  { rewrite <- (pow2_Z 53), <- (pow2_Z 52), <- !pow2_add by lia.
    now replace (53 + c) with (52 + (c + 1)) by lia. }
  assert (Hpos : (0 < inject_Z (2 ^ 53) * pow2 c)%Q)
    by (apply Qmult_lt_0_compat; [reflexivity | apply pow2_pos]).
  rewrite (round_pos_comp _ _ Hpos E).
  rewrite E. apply round_pos_exact_lt; lia.
Qed.

Lemma round_exact q : representable q -> (round q == q)%Q.
Proof.
  intros (m & c & Hc & Hm & E).
  rewrite (round_comp _ _ E), E.
  destruct (Z_dec 0 m) as [[Hpos | Hneg] | Hz].
  - assert (Hq : (0 < inject_Z m * pow2 c)%Q).
    { apply Qmult_lt_0_compat; [| apply pow2_pos].
      change 0%Q with (inject_Z 0); rewrite <- Zlt_Qlt; lia. }
    rewrite (round_gt _ Hq), Qred_correct.
    apply round_pos_exact; lia.
  - assert (Hq' : (0 < inject_Z (- m) * pow2 c)%Q).
    { apply Qmult_lt_0_compat; [| apply pow2_pos].
      change 0%Q with (inject_Z 0); rewrite <- Zlt_Qlt; lia. }
    assert (En : (- (inject_Z m * pow2 c) == inject_Z (- m) * pow2 c)%Q)
      by (rewrite inject_Z_opp; ring).
    assert (Hq : (inject_Z m * pow2 c < 0)%Q) by lra.
    rewrite (round_lt _ Hq), Qred_correct.
    assert (Hn : (0 < - (inject_Z m * pow2 c))%Q) by lra.
    rewrite (round_pos_comp _ _ Hn En).
    rewrite (round_pos_exact (- m) c) by lia.
    rewrite inject_Z_opp. ring.
  - subst m. rewrite round_zero; ring.
Qed.

Lemma round_representable q : representable (round q).
Proof.
  destruct (Qcompare_spec q 0) as [H | H | H].
  - rewrite (round_zero q H). exists 0, 0. split; [lia | split; [simpl; lia | ring]].
  - rewrite (round_lt q H).
    destruct (mantissa_range (- q) ltac:(lra)) as [[H0 H1] _].
    exists (- rne (- q / pow2 (cexp (- q)))), (cexp (- q)).
    split; [apply cexp_ge | split; [lia |]].
    rewrite Qred_correct. unfold round_pos. rewrite inject_Z_opp. ring.
  - rewrite (round_gt q H).
    destruct (mantissa_range q H) as [[H0 H1] _].
    exists (rne (q / pow2 (cexp q))), (cexp q).
    split; [apply cexp_ge | split; [lia |]].
    rewrite Qred_correct. reflexivity.
Qed.

Lemma round_canonical q : Qred (round q) = round q.
Proof.
  unfold round.
  destruct (q ?= 0)%Q; [reflexivity | |]; apply Qred_complete, Qred_correct.
Qed.

Lemma round_idem q : round (round q) = round q.
Proof.
  rewrite <- (round_canonical q) at 2.
  rewrite <- (round_canonical (round q)).
  apply Qred_complete, round_exact, round_representable.
Qed.

Lemma representable_Z z : Z.abs z <= 2 ^ 53 -> representable (inject_Z z).
Proof.
  intros H. exists z, 0. split; [lia | split; [exact H |]].
  change (pow2 0) with 1%Q. ring.
Qed.

Lemma round_Z z : Z.abs z <= 2 ^ 53 -> round (inject_Z z) = inject_Z z.
Proof.
  intros H. rewrite <- round_canonical.
  rewrite (Qred_complete _ _ (round_exact _ (representable_Z z H))).
  apply Qred_identity; simpl; apply Z.gcd_1_r.
Qed.

(** Two different numbers of binary64 differ by a number that does not
    round to zero. *)
Lemma representable_tiny q :
  representable q -> exists n, (q == inject_Z n * pow2 (-1074))%Q.
Proof.
  intros (m & c & Hc & _ & E).
  exists (m * 2 ^ (c + 1074)).
  rewrite E, inject_Z_mult, <- (pow2_Z (c + 1074)) by lia.
  rewrite <- Qmult_assoc, <- pow2_add.
  now replace (c + 1074 + -1074) with c by lia.
Qed.

Lemma round_sub_pos p q :
  representable p -> representable q -> (p < q)%Q -> (0 < round (q - p))%Q.
Proof.
  intros Hp Hq Hlt.
  destruct (representable_tiny p Hp) as [np Ep].
  destruct (representable_tiny q Hq) as [nq Eq].
  pose proof (pow2_pos (-1074)) as Ht.
  assert (Hn : np < nq).
  { rewrite Ep, Eq in Hlt. apply Qmult_lt_r in Hlt; [| exact Ht].
    now rewrite <- Zlt_Qlt in Hlt. }
  assert (Hge : (pow2 (-1074) <= q - p)%Q).
  { rewrite Ep, Eq.
    assert (H1 : (inject_Z (np + 1) <= inject_Z nq)%Q)
      by (rewrite <- Zle_Qle; lia).
    rewrite inject_Z_plus in H1.
    change (inject_Z 1) with 1%Q in H1.
    set (A := inject_Z nq) in *. set (B := inject_Z np) in *.
    set (t := pow2 (-1074)) in *. clearbody A B t.
    setoid_replace (A * t - B * t)%Q with ((A - B) * t)%Q by ring.
    setoid_replace t with (1 * t)%Q at 1 by ring.
    apply Qmult_le_compat_r; lra. }
  pose proof (round_le _ _ Hge) as Hr.
  assert (Hrep : representable (pow2 (-1074))).
  { exists 1, (-1074). split; [lia | split; [simpl; lia | ring]]. }
  rewrite (round_exact _ Hrep) in Hr. lra.
Qed.

Lemma round_0 : round 0 = 0%Q.
Proof. reflexivity. Qed.

Lemma round_1 : round 1 = 1%Q.
Proof. vm_compute. reflexivity. Qed.

(** Rounding at most doubles *)

Lemma rne_le_half s : (inject_Z (rne s) <= s + (1 # 2))%Q.
Proof.
  unfold rne. pose proof (Qfloor_le s) as Hf.
  generalize dependent (Qfloor s). intros f Hf.
  destruct (Qcompare_spec (s - inject_Z f) (1 # 2)) as [C | C | C].
  - destruct (Z.even f); [lra |].
    rewrite inject_Z_plus. change (inject_Z 1) with 1%Q. lra.
  - lra.
  - rewrite inject_Z_plus. change (inject_Z 1) with 1%Q. lra.
Qed.

Lemma Qfloor_small s : (0 <= s)%Q -> (s < 1)%Q -> Qfloor s = 0.
Proof.
  intros H0 H1. pose proof (Qfloor_le s) as Hf. pose proof (Qlt_floor s) as Hl.
  assert (Ha : (inject_Z (Qfloor s) < inject_Z 1)%Q)
    by (change (inject_Z 1) with 1%Q; lra).
  assert (Hb : (inject_Z 0 < inject_Z (Qfloor s + 1))%Q)
    by (change (inject_Z 0) with 0%Q; lra).
  rewrite <- Zlt_Qlt in Ha, Hb. lia.
Qed.

Lemma rne_le_twice s : (0 <= s)%Q -> (inject_Z (rne s) <= 2 * s)%Q.
Proof.
  intros H0. destruct (Qlt_le_dec s (1 # 2)) as [Hs | Hs].
  - unfold rne. rewrite (Qfloor_small s) by lra.
    destruct (Qcompare_spec (s - inject_Z 0) (1 # 2)) as [C | C | C];
      change (inject_Z 0) with 0%Q in *; try lra.
  - pose proof (rne_le_half s). lra.
Qed.

Lemma round_pos_le_twice q : (0 < q)%Q -> (round_pos q <= 2 * q)%Q.
Proof.
  intros Hq. unfold round_pos.
  pose proof (pow2_pos (cexp q)) as He.
  pose proof (rne_le_twice (q / pow2 (cexp q))
                ltac:(apply Qlt_le_weak, scaled_pos, Hq)) as H.
  apply (Qmult_le_compat_r _ _ (pow2 (cexp q))) in H; [| lra].
  eapply Qle_trans; [exact H |].
  apply Qle_lteq. right. field. lra.
Qed.

Lemma round_le_twice q : (0 <= q)%Q -> (round q <= 2 * q)%Q.
Proof.
  intros H0. destruct (Qcompare_spec q 0) as [H | H | H].
  - rewrite (round_zero q H). lra.
  - lra.
  - rewrite (round_gt q H), Qred_correct. now apply round_pos_le_twice.
Qed.

(** Half of the rounded difference of two floats is at most the
    difference. *)
Lemma round_half_le D :
  (0 <= D)%Q -> (exists n, D == inject_Z n * pow2 (-1074))%Q ->
  (round (round D * (1 # 2)) <= D)%Q.
Proof.
  intros H0 [n En].
  destruct (Qcompare_spec D 0) as [H | H | H]; [| lra |].
  - rewrite (round_zero D H).
    rewrite (round_zero (0 * (1 # 2))) by ring. lra.
  - destruct (Z.eq_dec (cexp D) (-1074)) as [Ec | Ec].
    + assert (Hex : (round D == D)%Q).
      { rewrite (round_gt D H), Qred_correct. unfold round_pos. rewrite Ec.
        assert (Hs : (D / pow2 (-1074) == inject_Z n)%Q).
        { rewrite En. field. pose proof (pow2_pos (-1074)). lra. }
        rewrite (rne_comp _ _ Hs), rne_Z. now rewrite En. }
      destruct (round_sign D) as [Hs _]. specialize (Hs H0).
      assert (Hle : (round D * (1 # 2) <= round D)%Q) by lra.
      apply round_le in Hle. rewrite round_idem in Hle. lra.
    + pose proof (cexp_ge D) as Hge.
      destruct (mantissa_range D H) as [[Hm0 Hm1] _].
      assert (Hrep : representable (round D * (1 # 2))).
      { exists (rne (D / pow2 (cexp D))), (cexp D - 1).
        split; [lia | split; [lia |]].
        rewrite (round_gt D H), Qred_correct. unfold round_pos.
        replace (cexp D) with ((cexp D - 1) + 1) at 2 by lia.
        rewrite pow2_add. change (pow2 1) with 2%Q. ring. }
      rewrite (round_exact _ Hrep).
      pose proof (round_le_twice D H0). lra.
Qed.

(** ** Order and arithmetic on float64 *)

Lemma ltb_lt p q : F64.ltb (FNum p) (FNum q) = true <-> (p < q)%Q.
Proof.
  simpl; rewrite negb_true_iff; split.
  - intros H; apply Qnot_le_lt; intros Hle.
    apply Qle_bool_iff in Hle; congruence.
  - intros H; destruct (Qle_bool q p) eqn:E; [| reflexivity].
    apply Qle_bool_iff in E; exfalso; eapply Qlt_not_le; eauto.
Qed.

Lemma leb_le p q : F64.leb (FNum p) (FNum q) = true <-> (p <= q)%Q.
Proof. apply Qle_bool_iff. Qed.

Lemma eqb_eq p q : F64.eqb (FNum p) (FNum q) = true <-> (p == q)%Q.
Proof. apply Qeq_bool_iff. Qed.

Lemma ltb_irrefl v : F64.ltb v v = false.
Proof.
  destruct v as [p |]; [| reflexivity].
  destruct (F64.ltb (FNum p) (FNum p)) eqn:E; [| reflexivity].
  apply ltb_lt in E; exfalso; eapply Qlt_irrefl; eauto.
Qed.

Lemma leb_is_num a b : F64.leb a b = true -> is_num a = true /\ is_num b = true.
Proof. destruct a, b; simpl; intuition discriminate. Qed.

Lemma ltb_is_num a b : F64.ltb a b = true -> is_num a = true /\ is_num b = true.
Proof. destruct a, b; simpl; intuition discriminate. Qed.

Lemma leb_refl v : is_num v = true -> F64.leb v v = true.
Proof. destruct v; [intros _; apply leb_le, Qle_refl | discriminate]. Qed.

Lemma ltb_leb a b : F64.ltb a b = true -> F64.leb a b = true.
Proof.
  destruct a as [p |], b as [q |]; try discriminate.
  rewrite ltb_lt, leb_le; apply Qlt_le_weak.
Qed.

Lemma leb_ltb_trans a b c :
  F64.leb a b = true -> F64.ltb b c = true -> F64.ltb a c = true.
Proof.
  destruct a as [p |], b as [q |], c as [r |]; try discriminate.
  rewrite leb_le, !ltb_lt; apply Qle_lt_trans.
Qed.

Lemma ltb_leb_trans a b c :
  F64.ltb a b = true -> F64.leb b c = true -> F64.ltb a c = true.
Proof.
  destruct a as [p |], b as [q |], c as [r |]; try discriminate.
  rewrite leb_le, !ltb_lt; apply Qlt_le_trans.
Qed.

Lemma leb_trans a b c :
  F64.leb a b = true -> F64.leb b c = true -> F64.leb a c = true.
Proof.
  destruct a as [p |], b as [q |], c as [r |]; try discriminate.
  rewrite !leb_le; apply Qle_trans.
Qed.

Lemma not_ltb_leb a b :
  is_num a = true -> is_num b = true ->
  F64.ltb a b = false -> F64.leb b a = true.
Proof.
  destruct a as [p |], b as [q |]; try discriminate; intros _ _.
  simpl; now rewrite negb_false_iff.
Qed.

Lemma leb_not_ltb a b : F64.leb a b = true -> F64.ltb b a = false.
Proof.
  destruct a as [p |], b as [q |]; try discriminate.
  rewrite leb_le; intros Hle.
  destruct (F64.ltb (FNum q) (FNum p)) eqn:E; [| reflexivity].
  apply ltb_lt in E; exfalso; eapply Qlt_not_le; eauto.
Qed.

Lemma ltb_trans a b c :
  F64.ltb a b = true -> F64.ltb b c = true -> F64.ltb a c = true.
Proof. intros Hab Hbc; eapply leb_ltb_trans; [apply ltb_leb |]; eauto. Qed.

Lemma ltb_asym a b : F64.ltb a b = true -> F64.ltb b a = false.
Proof. intros H; apply leb_not_ltb; now apply ltb_leb. Qed.

Lemma eqb_refl v : is_num v = true -> F64.eqb v v = true.
Proof. destruct v; [intros _; apply eqb_eq; reflexivity | discriminate]. Qed.

Lemma ltb_not_eqb a b : F64.ltb a b = true -> F64.eqb a b = false.
Proof.
  destruct a as [p |], b as [q |]; try discriminate.
  rewrite ltb_lt; intros Hlt.
  destruct (F64.eqb (FNum p) (FNum q)) eqn:E; [| reflexivity].
  apply eqb_eq in E; rewrite E in Hlt; exfalso; eapply Qlt_irrefl; eauto.
Qed.

Lemma ltb_nan_r v : F64.ltb v FNaN = false.
Proof. now destruct v. Qed.

Lemma max_upper a b :
  is_num a = true -> is_num b = true ->
  F64.leb a (F64.max a b) = true /\ F64.leb b (F64.max a b) = true
  /\ (F64.max a b = a \/ F64.max a b = b).
Proof.
  intros Ha Hb; unfold F64.max.
  destruct (F64.ltb a b) eqn:E.
  - repeat split; auto using leb_refl, ltb_leb.
  - repeat split; auto using leb_refl, not_ltb_leb.
Qed.

Lemma of_Z_exact z : Z.abs z <= 2 ^ 53 -> of_Z z = FNum (inject_Z z).
Proof. intros H. unfold of_Z. now rewrite round_Z. Qed.

Lemma of_Z_le a b : a <= b -> F64.leb (of_Z a) (of_Z b) = true.
Proof.
  intros H. unfold of_Z. apply leb_le, round_le. now rewrite <- Zle_Qle.
Qed.

Lemma round_pos_Z n : 0 < n -> (0 < round (inject_Z n))%Q.
Proof.
  intros H.
  assert (H1 : (inject_Z 1 <= inject_Z n)%Q) by (rewrite <- Zle_Qle; lia).
  apply round_le in H1. rewrite (round_Z 1) in H1 by (simpl; lia).
  change (inject_Z 1) with 1%Q in H1. lra.
Qed.

Lemma add_of_Z a b :
  Z.abs a <= 2 ^ 53 -> Z.abs b <= 2 ^ 53 -> Z.abs (a + b) <= 2 ^ 53 ->
  F64.add (of_Z a) (of_Z b) = of_Z (a + b).
Proof.
  intros Ha Hb Hab. rewrite !of_Z_exact by assumption.
  unfold F64.add, lift2. f_equal.
  rewrite <- (round_Z (a + b)) by exact Hab.
  apply round_comp. now rewrite inject_Z_plus.
Qed.

Lemma div_of_Z s n :
  0 < n ->
  F64.div (of_Z s) (of_Z n)
  = FNum (round (round (inject_Z s) / round (inject_Z n))).
Proof.
  intros Hn. unfold F64.div, of_Z.
  destruct (Qeq_bool (round (inject_Z n)) 0) eqn:E; [| reflexivity].
  apply Qeq_bool_iff in E. pose proof (round_pos_Z n Hn). lra.
Qed.

Lemma div_of_Z_exact s n :
  Z.abs s <= 2 ^ 53 -> 0 < n <= 2 ^ 53 ->
  F64.div (of_Z s) (of_Z n) = FNum (round (inject_Z s / inject_Z n)).
Proof.
  intros Hs Hn. rewrite div_of_Z by lia.
  now rewrite !round_Z by lia.
Qed.

Lemma sub_of_Z a b :
  Z.abs a <= 2 ^ 53 -> Z.abs b <= 2 ^ 53 -> Z.abs (a - b) <= 2 ^ 53 ->
  F64.sub (of_Z a) (of_Z b) = of_Z (a - b).
Proof.
  intros Ha Hb Hab. rewrite !of_Z_exact by assumption.
  unfold F64.sub, lift2. f_equal.
  rewrite <- (round_Z (a - b)) by exact Hab.
  apply round_comp. unfold Z.sub.
  now rewrite inject_Z_plus, inject_Z_opp.
Qed.

Lemma ltb_of_Z a b :
  Z.abs a <= 2 ^ 53 -> Z.abs b <= 2 ^ 53 ->
  F64.ltb (of_Z a) (of_Z b) = true <-> a < b.
Proof.
  intros Ha Hb. rewrite !of_Z_exact by assumption.
  rewrite ltb_lt, <- Zlt_Qlt. reflexivity.
Qed.

Lemma float_of_Z z : float_value (of_Z z).
Proof. apply round_representable. Qed.

Lemma float_lift2 op a b : float_value (lift2 op a b).
Proof. destruct a, b; cbn; auto using round_representable. Qed.

Lemma float_div a b : float_value (F64.div a b).
Proof.
  destruct a as [p |], b as [q |]; cbn; auto.
  destruct (Qeq_bool q 0); cbn; auto using round_representable.
Qed.

(** ** Python sequences: indexing and slices *)

Lemma py_index_in_range {A} (l : list A) (i : Z) (d : A) :
  0 <= i < Z.of_nat (length l) ->
  py_index l i = ret (nth (Z.to_nat i) l d).
Proof.
  intros Hi; unfold py_index.
  replace (i <? 0) with false by (symmetry; apply Z.ltb_ge; lia).
  replace ((0 <=? i) && (i <? Z.of_nat (length l))) with true.
  - rewrite (nth_error_nth' l d) by lia. reflexivity.
  - symmetry; apply andb_true_iff; split; [apply Z.leb_le | apply Z.ltb_lt]; lia.
Qed.

Lemma get_app_l (pre l : list f64) j :
  0 <= j < len pre -> get (pre ++ l) j = get pre j.
Proof. unfold get, len; intros H; apply app_nth1; lia. Qed.

Lemma get_app_r (pre l : list f64) j :
  len pre <= j -> get (pre ++ l) j = get l (j - len pre).
Proof.
  unfold get, len; intros H; rewrite app_nth2 by lia.
  f_equal; lia.
Qed.

Lemma len_app (a b : list f64) : len (a ++ b) = len a + len b.
Proof. unfold len; rewrite length_app; lia. Qed.

Lemma get_repeat c n j : get (repeat c n) j = c \/ get (repeat c n) j = FNaN.
Proof.
  unfold get.
  destruct (Nat.lt_ge_cases (Z.to_nat j) n) as [Hlt | Hge].
  - left; now apply nth_repeat_lt.
  - right; apply nth_overflow; now rewrite repeat_length.
Qed.

Lemma len_map (f : f64 -> f64) x : len (map f x) = len x.
Proof. unfold len; now rewrite length_map. Qed.

Lemma get_map_sub M x j : get (map (F64.sub M) x) j = F64.sub M (get x j).
Proof.
  unfold get.
  replace FNaN with (F64.sub M FNaN) at 1 by (now destruct M).
  apply map_nth.
Qed.

Lemma combine_map_snd {A B} (f : A -> B) (l : list A) c :
  In c (combine l (map f l)) -> snd c = f (fst c).
Proof.
  induction l as [| a l IH]; cbn [map combine]; [intros [] |].
  intros [<- | Hin]; [reflexivity | now apply IH].
Qed.

Lemma adjust_index_range len v : 0 <= len -> 0 <= adjust_index len v <= len.
Proof. unfold adjust_index; destruct (v <? 0) eqn:E; lia. Qed.

Lemma adjust_index_nonneg len v : 0 <= v -> adjust_index len v = Z.min v len.
Proof.
  intros Hv; unfold adjust_index.
  now replace (v <? 0) with false by (symmetry; apply Z.ltb_ge; lia).
Qed.

Lemma length_slice {A} (l : list A) start stop :
  length (slice l start stop) = slice_len (length l) start stop.
Proof.
  unfold slice, slice_len.
  pose proof (adjust_index_range (Z.of_nat (length l)) start) as Hlo.
  pose proof (adjust_index_range (Z.of_nat (length l)) stop) as Hhi.
  rewrite length_firstn, length_skipn; lia.
Qed.

Lemma nth_slice {A} (l : list A) start stop j d :
  (j < length (slice l start stop))%nat ->
  nth j (slice l start stop) d
  = nth (Z.to_nat (adjust_index (Z.of_nat (length l)) start) + j) l d.
Proof.
  intros Hj; rewrite length_slice in Hj; unfold slice, slice_len in *.
  rewrite nth_firstn.
  replace (j <? _)%nat with true by (symmetry; apply Nat.ltb_lt; lia).
  apply nth_skipn.
Qed.

Lemma slice_empty {A} (l : list A) start stop :
  0 <= start -> 0 <= stop -> stop <= start -> slice l start stop = [].
Proof.
  intros H0 H1 Hle; unfold slice.
  rewrite !adjust_index_nonneg by lia.
  set (len := Z.of_nat (length l)).
  replace (Z.to_nat (Z.min stop len - Z.min start len)) with 0%nat by lia.
  reflexivity.
Qed.

Lemma slice_all {A} (l : list A) stop :
  Z.of_nat (length l) <= stop -> slice l 0 stop = l.
Proof.
  intros H; unfold slice.
  rewrite !adjust_index_nonneg by lia.
  rewrite (Z.min_l 0), (Z.min_r stop) by lia.
  cbn [Z.to_nat skipn]. rewrite Z.sub_0_r, Nat2Z.id. apply firstn_all.
Qed.

Lemma in_slice {A} (l : list A) start stop x :
  In x (slice l start stop) -> In x l.
Proof.
  unfold slice; intros Hin.
  set (n := Z.to_nat (_ - _)) in Hin; set (k := Z.to_nat _) in Hin.
  rewrite <- (firstn_skipn k l); apply in_or_app; right.
  rewrite <- (firstn_skipn n (skipn k l)); apply in_or_app; now left.
Qed.

(** ** NumPy: cropping, inversion, column means and [argmax] *)

Lemma crop_wf a r0 r1 c0 c1 : wf a -> wf (crop a r0 r1 c0 c1).
Proof.
  unfold wf, crop; cbn [rows ncols]; intros Hwf.
  apply Forall_map, Forall_forall; intros row Hin.
  rewrite length_slice.
  rewrite Forall_forall in Hwf; rewrite (Hwf row); [reflexivity |].
  now apply in_slice in Hin.
Qed.

Lemma crop_rows_length a r0 r1 c0 c1 :
  length (rows (crop a r0 r1 c0 c1)) = slice_len (length (rows a)) r0 r1.
Proof. unfold crop; cbn [rows]; now rewrite length_map, length_slice. Qed.

Lemma crop_entry a r0 r1 c0 c1 i j :
  wf a ->
  (i < length (rows (crop a r0 r1 c0 c1)))%nat ->
  (j < ncols (crop a r0 r1 c0 c1))%nat ->
  nth j (nth i (rows (crop a r0 r1 c0 c1)) []) 0
  = nth (Z.to_nat (adjust_index (Z.of_nat (ncols a)) c0) + j)
        (nth (Z.to_nat (adjust_index (Z.of_nat (length (rows a))) r0) + i)
             (rows a) [])
        0.
Proof.
  intros Hwf Hi Hj.
  pose proof Hi as Hi'; rewrite crop_rows_length, <- length_slice in Hi'.
  unfold crop in *; cbn [rows ncols] in *.
  rewrite (nth_indep _ [] (slice [] c0 c1)) by exact Hi.
  rewrite (map_nth (fun row => slice row c0 c1)).
  rewrite (nth_slice (rows a)) by exact Hi'.
  set (row := nth _ (rows a) []).
  assert (Hrow : length row = ncols a).
  { unfold wf in Hwf; rewrite Forall_forall in Hwf; apply Hwf, nth_In.
    rewrite length_slice in Hi'; unfold slice_len in Hi'.
    pose proof (adjust_index_range (Z.of_nat (length (rows a))) r0).
    pose proof (adjust_index_range (Z.of_nat (length (rows a))) r1).
    lia. }
  rewrite nth_slice by (now rewrite length_slice, Hrow).
  now rewrite Hrow.
Qed.

Lemma crop_default a stop_r stop_c :
  wf a ->
  Z.of_nat (length (rows a)) <= stop_r -> Z.of_nat (ncols a) <= stop_c ->
  crop a 0 stop_r 0 stop_c = a.
Proof.
  intros Hwf Hr Hc; destruct a as [d n rs]; unfold wf, crop in *;
    cbn [rows ncols arr_dtype] in *.
  f_equal.
  - unfold slice_len; rewrite !adjust_index_nonneg by lia. lia.
  - rewrite slice_all by lia.
    rewrite <- (map_id rs) at 2. apply map_ext_in; intros row Hin.
    rewrite Forall_forall in Hwf.
    apply slice_all; rewrite (Hwf row Hin); lia.
Qed.

Lemma rsub_scalar_fits (pixbit : N) (a : ndarray) :
  Z.of_N pixbit <= bits (arr_dtype a) ->
  rsub_scalar (2 ^ Z.of_N pixbit - 1) a = ret (rsub_values (2 ^ Z.of_N pixbit - 1) a).
Proof.
  intros H; unfold rsub_scalar.
  assert (0 < 2 ^ Z.of_N pixbit) by (apply Z.pow_pos_nonneg; lia).
  assert (2 ^ Z.of_N pixbit <= 2 ^ bits (arr_dtype a))
    by (apply Z.pow_le_mono_r; lia).
  replace ((0 <=? _) && _) with true; [reflexivity |].
  symmetry; apply andb_true_iff; split; [apply Z.leb_le | apply Z.ltb_lt]; lia.
Qed.

Lemma rsub_values_exact pixbit a :
  Z.of_N pixbit <= bits (arr_dtype a) ->
  has_bit_depth a pixbit ->
  rsub_values (2 ^ Z.of_N pixbit - 1) a = inverted pixbit a.
Proof.
  intros Hfit Hdepth; unfold rsub_values, inverted; f_equal.
  assert (0 < 2 ^ Z.of_N pixbit) by (apply Z.pow_pos_nonneg; lia).
  assert (2 ^ Z.of_N pixbit <= 2 ^ bits (arr_dtype a))
    by (apply Z.pow_le_mono_r; lia).
  unfold has_bit_depth in Hdepth; rewrite Forall_forall in Hdepth.
  apply map_ext_in; intros row Hrow.
  specialize (Hdepth row Hrow); rewrite Forall_forall in Hdepth.
  apply map_ext_in; intros s Hs.
  specialize (Hdepth s Hs).
  unfold wrap; apply Z.mod_small; lia.
Qed.

Lemma crop_bit_depth a pixbit r0 r1 c0 c1 :
  has_bit_depth a pixbit -> has_bit_depth (crop a r0 r1 c0 c1) pixbit.
Proof.
  unfold has_bit_depth, crop; cbn [rows]; intros H.
  rewrite Forall_forall in H.
  apply Forall_map, Forall_forall; intros row Hrow.
  apply in_slice in Hrow. specialize (H row Hrow).
  rewrite Forall_forall in *; intros s Hs; apply H.
  now apply in_slice in Hs.
Qed.

Lemma zsum_nonneg col : Forall (fun s => 0 <= s) col -> 0 <= zsum col.
Proof.
  induction 1 as [| s col Hs _ IH]; unfold zsum in *; cbn [fold_right]; lia.
Qed.

(** A sum of samples that stays below 2**53 is exact. *)
Lemma sum_f64_from (col : list Z) : forall z,
  0 <= z -> Forall (fun s => 0 <= s) col -> z + zsum col <= 2 ^ 53 ->
  fold_left (fun acc s => F64.add acc (of_Z s)) col (of_Z z)
  = of_Z (z + zsum col).
Proof.
  induction col as [| s col IH]; intros z Hz Hcol Hsum;
    unfold zsum in *; cbn [fold_left fold_right] in *.
  - now rewrite Z.add_0_r.
  - inversion Hcol as [| ? ? Hs Hcol']; subst.
    pose proof (zsum_nonneg col Hcol') as H0. unfold zsum in H0.
    rewrite add_of_Z by lia. rewrite IH by (auto; lia). f_equal; lia.
Qed.

Lemma sum_f64_exact (col : list Z) :
  Forall (fun s => 0 <= s) col -> zsum col <= 2 ^ 53 ->
  sum_f64 col = of_Z (zsum col).
Proof. intros Hcol Hsum. apply (sum_f64_from col 0); auto; lia. Qed.

Lemma sum_f64_num (col : list Z) : is_num (sum_f64 col) = true.
Proof.
  unfold sum_f64. generalize F64.zero (eq_refl : is_num F64.zero = true).
  induction col as [| s col IH]; intros acc Hacc; cbn [fold_left];
    [exact Hacc |].
  apply IH. now destruct acc.
Qed.

Lemma div_by_count v n :
  is_num v = true -> 0 < n -> is_num (F64.div v (of_Z n)) = true.
Proof.
  intros Hv Hn. destruct v as [p |]; [| discriminate].
  unfold F64.div, of_Z.
  destruct (Qeq_bool (round (inject_Z n)) 0) eqn:E; [| reflexivity].
  apply Qeq_bool_iff in E. pose proof (round_pos_Z n Hn). lra.
Qed.

Lemma length_column_means a : length (column_means a) = ncols a.
Proof. unfold column_means; now rewrite length_map, length_seq. Qed.

Lemma length_column a j : length (column a j) = length (rows a).
Proof. unfold column; apply length_map. Qed.

Lemma nth_column_means a j :
  (j < ncols a)%nat ->
  nth j (column_means a) FNaN
  = F64.div (sum_f64 (column a j)) (of_Z (Z.of_nat (length (rows a)))).
Proof.
  intros Hj; unfold column_means.
  rewrite (nth_indep _ FNaN
             (F64.div (sum_f64 (column a 0))
                      (of_Z (Z.of_nat (length (rows a))))))
    by (now rewrite length_map, length_seq).
  rewrite (map_nth (fun j => F64.div (sum_f64 (column a j)) _)).
  now rewrite seq_nth.
Qed.

Lemma column_means_numbers a :
  rows a <> [] -> Forall (fun v => is_num v = true) (column_means a).
Proof.
  intros Hrows; unfold column_means.
  apply Forall_map, Forall_forall; intros j _.
  apply div_by_count; [apply sum_f64_num |].
  destruct (rows a); [congruence | simpl; lia].
Qed.

Lemma fold_left_map {A B C} (f : A -> B -> A) (g : C -> B) (l : list C) :
  forall a, fold_left f (map g l) a = fold_left (fun acc i => f acc (g i)) l a.
Proof. induction l as [| c l IH]; intros a; simpl; [reflexivity | apply IH]. Qed.

Lemma column_means_floats a : Forall float_value (column_means a).
Proof.
  unfold column_means. apply Forall_forall. intros v Hin.
  apply in_map_iff in Hin as (j & <- & _). apply float_div.
Qed.

Lemma map_nth_seq {A B} (f : A -> B) (l : list A) d :
  map (fun j => f (nth j l d)) (seq 0 (length l)) = map f l.
Proof.
  induction l as [| a l IH]; [reflexivity |].
  cbn [length seq map nth]. f_equal.
  rewrite <- seq_shift, map_map. exact IH.
Qed.

(** The mean of one sample is the sample, converted. *)
Lemma mean_of_one s : F64.div (sum_f64 [s]) (of_Z (Z.of_nat 1)) = of_Z s.
Proof.
  unfold sum_f64, of_Z, F64.zero, F64.add, lift2, F64.div.
  cbn [fold_left Z.of_nat Pos.of_succ_nat].
  change (inject_Z 1) with 1%Q. rewrite round_1.
  change (Qeq_bool 1 0) with false. cbv iota. f_equal.
  rewrite (round_comp (0 + round (inject_Z s)) (round (inject_Z s))) by ring.
  rewrite round_idem.
  rewrite (round_comp (round (inject_Z s) / 1) (round (inject_Z s)))
    by (field; discriminate).
  apply round_idem.
Qed.

Lemma column_means_single_row a row :
  rows a = [row] -> ncols a = length row -> column_means a = map of_Z row.
Proof.
  intros Hrows Hcols. unfold column_means, column.
  rewrite Hrows, Hcols. cbn [map length].
  rewrite <- (map_nth_seq of_Z row 0).
  apply map_ext. intros j. apply mean_of_one.
Qed.

Lemma column_means_no_rows a :
  rows a = [] -> Forall (fun v => v = FNaN) (column_means a).
Proof.
  intros Hrows; unfold column_means, column; rewrite Hrows.
  apply Forall_map, Forall_forall; intros j _. reflexivity.
Qed.

Lemma mean_axis0_emits (a : ndarray) :
  exists warns, emits (mean_axis0 a) (Returned (column_means a)) [] warns.
Proof.
  unfold mean_axis0; eexists.
  change (@nil string) with (@nil string ++ []).
  eapply emits_bind; [apply emits_when |].
  eapply emits_then_ret; apply emits_when.
Qed.

Lemma argmax_from_bounds l i best besti :
  0 <= besti < i ->
  0 <= argmax_from l i best besti < i + Z.of_nat (length l).
Proof.
  revert i best besti; induction l as [| v l IH]; intros i best besti Hb; simpl.
  - lia.
  - destruct (beats v best).
    + specialize (IH (i + 1) v i); lia.
    + specialize (IH (i + 1) best besti); lia.
Qed.

Lemma argmax_index_bounds l :
  l <> [] -> 0 <= argmax_index l < Z.of_nat (length l).
Proof.
  destruct l as [| v l]; [congruence | intros _; simpl].
  pose proof (argmax_from_bounds l 1 v 0); lia.
Qed.

Lemma argmax_nonempty l :
  l <> [] -> argmax l = ret (argmax_index l).
Proof. destruct l; [congruence | reflexivity]. Qed.

Lemma argmax_from_spec l : forall pre best besti,
  0 <= besti < len pre ->
  get pre besti = best ->
  is_num best = true ->
  Forall (fun v => is_num v = true) l ->
  (forall j, 0 <= j < len pre -> F64.leb (get pre j) best = true) ->
  (forall j, 0 <= j < besti -> F64.ltb (get pre j) best = true) ->
  let k := argmax_from l (len pre) best besti in
  0 <= k < len (pre ++ l)
  /\ (forall j, 0 <= j < len (pre ++ l) ->
        F64.leb (get (pre ++ l) j) (get (pre ++ l) k) = true)
  /\ (forall j, 0 <= j < k ->
        F64.ltb (get (pre ++ l) j) (get (pre ++ l) k) = true).
Proof.
  induction l as [| v l IH]; intros pre best besti Hb Hg Hn Hl Hle Hlt; simpl.
  - rewrite app_nil_r, Hg; auto.
  - inversion Hl as [| ? ? Hv Hl']; subst.
    assert (Hlen : len (pre ++ [v]) = len pre + 1) by (rewrite len_app; reflexivity).
    assert (Hgi : get (pre ++ [v]) (len pre) = v).
    { rewrite get_app_r by lia. rewrite Z.sub_diag. reflexivity. }
    replace (pre ++ v :: l) with ((pre ++ [v]) ++ l)
      by (rewrite <- app_assoc; reflexivity).
    rewrite <- Hlen.
    assert (Hbeats : beats v (get pre besti) = F64.ltb (get pre besti) v).
    { destruct (get pre besti), v; try discriminate; reflexivity. }
    rewrite Hbeats.
    destruct (F64.ltb (get pre besti) v) eqn:Hcmp.
    + apply IH; auto.
      * unfold len in *; lia.
      * intros j Hj. destruct (Z.eq_dec j (len pre)) as [-> | Hne].
        -- rewrite Hgi; now apply leb_refl.
        -- rewrite get_app_l by lia.
           apply ltb_leb, (leb_ltb_trans _ (get pre besti)); auto.
           apply Hle; lia.
      * intros j Hj. rewrite get_app_l by lia.
        apply (leb_ltb_trans _ (get pre besti)); auto.
    + apply IH; auto.
      * lia.
      * rewrite get_app_l by lia; reflexivity.
      * intros j Hj. destruct (Z.eq_dec j (len pre)) as [-> | Hne].
        -- rewrite Hgi; now apply not_ltb_leb.
        -- rewrite get_app_l by lia. apply Hle; lia.
      * intros j Hj. rewrite get_app_l by lia. now apply Hlt.
Qed.

Lemma argmax_index_spec l :
  l <> [] -> Forall (fun v => is_num v = true) l ->
  let k := argmax_index l in
  0 <= k < len l
  /\ (forall j, 0 <= j < len l -> F64.leb (get l j) (get l k) = true)
  /\ (forall j, 0 <= j < k -> F64.ltb (get l j) (get l k) = true).
Proof.
  destruct l as [| v l]; [congruence | intros _ Hl].
  inversion Hl as [| ? ? Hv Hl']; subst.
  apply (argmax_from_spec l [v] v 0); auto.
  - unfold len; simpl; lia.
  - intros j Hj. unfold len in Hj; simpl in Hj.
    replace j with 0 by lia. now apply leb_refl.
  - intros j Hj; lia.
Qed.

(** ** SciPy: the indices the loops produce stay inside the signal *)

Lemma plateau_end_bounds fuel x i_max i i_ahead :
  i_ahead <= plateau_end fuel x i_max i i_ahead <= Z.max i_ahead i_max.
Proof.
  revert i_ahead; induction fuel as [| fuel IH]; intros i_ahead; simpl.
  - lia.
  - destruct (i_ahead <? i_max) eqn:Hlt; simpl; [| lia].
    destruct (F64.eqb _ _); [| lia].
    apply Z.ltb_lt in Hlt.
    specialize (IH (i_ahead + 1)); lia.
Qed.

Lemma local_maxima_loop_bounds fuel x i_max i :
  Forall (maximum_within i i_max) (local_maxima_loop fuel x i_max i).
Proof.
  revert i; induction fuel as [| fuel IH]; intros i; simpl; [constructor |].
  assert (Hweak : forall j, i <= j ->
            Forall (maximum_within i i_max) (local_maxima_loop fuel x i_max j)).
  { intros j Hj. eapply Forall_impl; [| apply IH].
    intros [[mid l] r]; unfold maximum_within; lia. }
  destruct (i <? i_max) eqn:Hlt; [| constructor].
  apply Z.ltb_lt in Hlt.
  destruct (F64.ltb (get x (i - 1)) (get x i)); [| apply Hweak; lia].
  pose proof (plateau_end_bounds (Z.to_nat (i_max - i)) x i_max i (i + 1)) as Hb.
  set (i_ahead := plateau_end _ _ _ _ _) in *.
  destruct (F64.ltb (get x i_ahead) (get x i)); [| apply Hweak; lia].
  constructor; [| apply Hweak; lia].
  unfold maximum_within.
  assert (i <= (i + (i_ahead - 1)) / 2 <= i_ahead - 1).
  { split.
    - apply Z.div_le_lower_bound; lia.
    - apply Z.div_le_upper_bound; lia. }
  lia.
Qed.

Lemma local_maxima_valid x :
  Forall (fun p => valid_peak x p = true)
         (map (fun m => fst (fst m)) (local_maxima_1d x)).
Proof.
  apply Forall_map. eapply Forall_impl; [| apply local_maxima_loop_bounds].
  intros [[mid l] r]; unfold maximum_within, valid_peak; simpl.
  intros (? & ? & ? & ?).
  apply andb_true_iff; split; [apply Z.leb_le | apply Z.leb_le]; lia.
Qed.

Lemma left_base_loop_bounds fuel x i_min peak i left_min left_base :
  i <= peak -> i_min <= left_base <= peak ->
  i_min <= snd (left_base_loop fuel x i_min peak i left_min left_base) <= peak.
Proof.
  revert i left_min left_base.
  induction fuel as [| fuel IH]; intros i left_min left_base Hi Hb; simpl;
    [exact Hb |].
  destruct (i_min <=? i) eqn:Hle; simpl; [| exact Hb].
  apply Z.leb_le in Hle.
  destruct (F64.leb _ _); [| exact Hb].
  destruct (F64.ltb _ _); apply IH; lia.
Qed.

Lemma right_base_loop_bounds fuel x i_max peak i right_min right_base :
  peak <= i -> peak <= right_base <= i_max ->
  peak <= snd (right_base_loop fuel x i_max peak i right_min right_base) <= i_max.
Proof.
  revert i right_min right_base.
  induction fuel as [| fuel IH]; intros i right_min right_base Hi Hb; simpl;
    [exact Hb |].
  destruct (i <=? i_max) eqn:Hle; simpl; [| exact Hb].
  apply Z.leb_le in Hle.
  destruct (F64.leb _ _); [| exact Hb].
  destruct (F64.ltb _ _); apply IH; lia.
Qed.

Lemma valid_peak_iff x peak :
  valid_peak x peak = true <-> 0 <= peak <= len x - 1.
Proof.
  unfold valid_peak; rewrite andb_true_iff, !Z.leb_le; tauto.
Qed.

(** The bases [_peak_prominences] returns pass the check of [_peak_widths]. *)
Lemma prominence_data_valid x peak :
  valid_peak x peak = true -> valid_bases x peak (prominence_data x peak) = true.
Proof.
  intros Hv; apply valid_peak_iff in Hv.
  unfold prominence_data, valid_bases.
  pose proof (left_base_loop_bounds (S (Z.to_nat (peak - 0))) x 0 peak peak
                (get x peak) peak) as Hl.
  pose proof (right_base_loop_bounds (S (Z.to_nat (len x - 1 - peak))) x
                (len x - 1) peak peak (get x peak) peak) as Hr.
  destruct (left_base_loop _ _ _ _ _ _ _) as [left_min left_base].
  destruct (right_base_loop _ _ _ _ _ _ _) as [right_min right_base].
  simpl in Hl, Hr.
  rewrite !andb_true_iff, !Z.leb_le, Z.ltb_lt; lia.
Qed.

Lemma prominences_loop_valid x peaks :
  Forall (fun p => valid_peak x p = true) peaks ->
  prominences_loop x peaks = ret (map (prominence_data x) peaks).
Proof.
  induction 1 as [| p peaks Hp _ IH]; simpl; [reflexivity |].
  unfold prominence_of; rewrite Hp, IH; reflexivity.
Qed.

Lemma widths_loop_valid x rel_height peaks :
  Forall (fun p => valid_peak x p = true) peaks ->
  widths_loop x rel_height peaks (map (prominence_data x) peaks)
  = ret (map (fun p => width_data x rel_height p (prominence_data x p)) peaks).
Proof.
  induction 1 as [| p peaks Hp _ IH]; simpl; [reflexivity |].
  unfold width_of; rewrite (prominence_data_valid _ _ Hp), IH; reflexivity.
Qed.

(** ** SciPy: the loops leave through their guards
    Each loop of the SciPy model is given a number of steps; the lemmas
    below show that any number at least the distance to the loop's bound
    gives the same result, so the numbers used in the model are enough. *)

Lemma plateau_end_fuel f1 : forall f2 x i_max i i_ahead,
  (Z.to_nat (i_max - i_ahead) <= f1)%nat ->
  (Z.to_nat (i_max - i_ahead) <= f2)%nat ->
  plateau_end f1 x i_max i i_ahead = plateau_end f2 x i_max i i_ahead.
Proof.
  induction f1 as [| f1 IH]; intros f2 x i_max i i_ahead H1 H2.
  - destruct f2; cbn [plateau_end]; [reflexivity |].
    now replace (i_ahead <? i_max) with false by (symmetry; apply Z.ltb_ge; lia).
  - destruct f2; cbn [plateau_end].
    + now replace (i_ahead <? i_max) with false
        by (symmetry; apply Z.ltb_ge; lia).
    + destruct (i_ahead <? i_max) eqn:Hlt; cbn [andb]; [| reflexivity].
      apply Z.ltb_lt in Hlt.
      destruct (F64.eqb _ _); [apply IH; lia | reflexivity].
Qed.

Lemma local_maxima_loop_fuel f1 : forall f2 x i_max i,
  (Z.to_nat (i_max - i) <= f1)%nat ->
  (Z.to_nat (i_max - i) <= f2)%nat ->
  local_maxima_loop f1 x i_max i = local_maxima_loop f2 x i_max i.
Proof.
  induction f1 as [| f1 IH]; intros f2 x i_max i H1 H2.
  - destruct f2; cbn [local_maxima_loop]; [reflexivity |].
    now replace (i <? i_max) with false by (symmetry; apply Z.ltb_ge; lia).
  - destruct f2; cbn [local_maxima_loop].
    + now replace (i <? i_max) with false by (symmetry; apply Z.ltb_ge; lia).
    + destruct (i <? i_max) eqn:Hlt; [| reflexivity].
      apply Z.ltb_lt in Hlt.
      pose proof (plateau_end_bounds (Z.to_nat (i_max - i)) x i_max i (i + 1)).
      destruct (F64.ltb (get x (i - 1)) (get x i)); [| apply IH; lia].
      destruct (F64.ltb _ _); [f_equal |]; apply IH; lia.
Qed.

Lemma left_base_loop_fuel f1 : forall f2 x i_min peak i left_min left_base,
  (Z.to_nat (i - i_min + 1) <= f1)%nat ->
  (Z.to_nat (i - i_min + 1) <= f2)%nat ->
  left_base_loop f1 x i_min peak i left_min left_base
  = left_base_loop f2 x i_min peak i left_min left_base.
Proof.
  induction f1 as [| f1 IH]; intros f2 x i_min peak i left_min left_base H1 H2.
  - destruct f2; cbn [left_base_loop]; [reflexivity |].
    now replace (i_min <=? i) with false by (symmetry; apply Z.leb_gt; lia).
  - destruct f2; cbn [left_base_loop].
    + now replace (i_min <=? i) with false by (symmetry; apply Z.leb_gt; lia).
    + destruct (i_min <=? i) eqn:Hle; cbn [andb]; [| reflexivity].
      apply Z.leb_le in Hle.
      destruct (F64.leb _ _); [| reflexivity].
      destruct (F64.ltb _ _); apply IH; lia.
Qed.

Lemma right_base_loop_fuel f1 : forall f2 x i_max peak i right_min right_base,
  (Z.to_nat (i_max - i + 1) <= f1)%nat ->
  (Z.to_nat (i_max - i + 1) <= f2)%nat ->
  right_base_loop f1 x i_max peak i right_min right_base
  = right_base_loop f2 x i_max peak i right_min right_base.
Proof.
  induction f1 as [| f1 IH]; intros f2 x i_max peak i right_min right_base H1 H2.
  - destruct f2; cbn [right_base_loop]; [reflexivity |].
    now replace (i <=? i_max) with false by (symmetry; apply Z.leb_gt; lia).
  - destruct f2; cbn [right_base_loop].
    + now replace (i <=? i_max) with false by (symmetry; apply Z.leb_gt; lia).
    + destruct (i <=? i_max) eqn:Hle; cbn [andb]; [| reflexivity].
      apply Z.leb_le in Hle.
      destruct (F64.leb _ _); [| reflexivity].
      destruct (F64.ltb _ _); apply IH; lia.
Qed.

Lemma left_cross_loop_fuel f1 : forall f2 x i_min h i,
  (Z.to_nat (i - i_min) <= f1)%nat ->
  (Z.to_nat (i - i_min) <= f2)%nat ->
  left_cross_loop f1 x i_min h i = left_cross_loop f2 x i_min h i.
Proof.
  induction f1 as [| f1 IH]; intros f2 x i_min h i H1 H2.
  - destruct f2; cbn [left_cross_loop]; [reflexivity |].
    now replace (i_min <? i) with false by (symmetry; apply Z.ltb_ge; lia).
  - destruct f2; cbn [left_cross_loop].
    + now replace (i_min <? i) with false by (symmetry; apply Z.ltb_ge; lia).
    + destruct (i_min <? i) eqn:Hlt; cbn [andb]; [| reflexivity].
      apply Z.ltb_lt in Hlt.
      destruct (F64.ltb _ _); [apply IH; lia | reflexivity].
Qed.

Lemma right_cross_loop_fuel f1 : forall f2 x i_max h i,
  (Z.to_nat (i_max - i) <= f1)%nat ->
  (Z.to_nat (i_max - i) <= f2)%nat ->
  right_cross_loop f1 x i_max h i = right_cross_loop f2 x i_max h i.
Proof.
  induction f1 as [| f1 IH]; intros f2 x i_max h i H1 H2.
  - destruct f2; cbn [right_cross_loop]; [reflexivity |].
    now replace (i <? i_max) with false by (symmetry; apply Z.ltb_ge; lia).
  - destruct f2; cbn [right_cross_loop].
    + now replace (i <? i_max) with false by (symmetry; apply Z.ltb_ge; lia).
    + destruct (i <? i_max) eqn:Hlt; cbn [andb]; [| reflexivity].
      apply Z.ltb_lt in Hlt.
      destruct (F64.ltb _ _); [apply IH; lia | reflexivity].
Qed.

(** [local_maxima_1d] with any larger number of steps. *)
Lemma local_maxima_1d_fuel x fuel :
  (length x <= fuel)%nat ->
  local_maxima_loop fuel x (len x - 1) 1 = local_maxima_1d x.
Proof.
  intros H; unfold local_maxima_1d, len in *.
  apply local_maxima_loop_fuel; lia.
Qed.

(** ** SciPy: local maxima *)

Lemma plateau_end_run n : forall fuel x i_max i i_ahead,
  (forall j, i_ahead <= j < i_ahead + Z.of_nat n ->
     F64.eqb (get x j) (get x i) = true) ->
  i_ahead + Z.of_nat n <= i_max ->
  plateau_end (n + fuel) x i_max i i_ahead
  = plateau_end fuel x i_max i (i_ahead + Z.of_nat n).
Proof.
  induction n as [| n IH]; intros fuel x i_max i i_ahead Heq Hle.
  - now rewrite Z.add_0_r.
  - cbn [Nat.add plateau_end].
    replace (i_ahead <? i_max) with true by (symmetry; apply Z.ltb_lt; lia).
    rewrite Heq by lia. cbn [andb].
    rewrite IH by (try (intros j Hj; apply Heq); lia).
    f_equal; lia.
Qed.

Lemma plateau_end_stop fuel x i_max i i_ahead :
  (i_ahead <? i_max) && F64.eqb (get x i_ahead) (get x i) = false ->
  plateau_end fuel x i_max i i_ahead = i_ahead.
Proof. destruct fuel; cbn [plateau_end]; [reflexivity | now intros ->]. Qed.

(** A signal that never rises has no local maximum. *)
Lemma local_maxima_loop_no_rise fuel x i_max i :
  (forall j, i <= j < i_max -> F64.ltb (get x (j - 1)) (get x j) = false) ->
  local_maxima_loop fuel x i_max i = [].
Proof.
  revert i; induction fuel as [| fuel IH]; intros i Hflat; simpl; [reflexivity |].
  destruct (i <? i_max) eqn:Hlt; [| reflexivity].
  apply Z.ltb_lt in Hlt.
  rewrite Hflat by lia.
  apply IH; intros j Hj; apply Hflat; lia.
Qed.

(** A strictly monotone stretch, by steps of one, is strictly monotone. *)
Lemma chain_lt (lt : f64 -> f64 -> bool) x a b :
  (forall u v w, lt u v = true -> lt v w = true -> lt u w = true) ->
  (forall j, a < j <= b -> lt (get x (j - 1)) (get x j) = true) ->
  forall i j, a <= i -> i < j -> j <= b -> lt (get x i) (get x j) = true.
Proof.
  intros Htrans Hstep i j Hi Hij Hj.
  replace j with (i + 1 + Z.of_nat (Z.to_nat (j - i - 1))) in * by lia.
  induction (Z.to_nat (j - i - 1)) as [| n IH].
  - rewrite Z.add_0_r in *.
    specialize (Hstep (i + 1) ltac:(lia)).
    now replace (i + 1 - 1) with i in Hstep by lia.
  - eapply Htrans; [apply IH; lia |].
    specialize (Hstep (i + 1 + Z.of_nat (S n)) ltac:(lia)).
    now replace (i + 1 + Z.of_nat (S n) - 1) with (i + 1 + Z.of_nat n)
      in Hstep by lia.
Qed.

Lemma chain_gt (lt : f64 -> f64 -> bool) x b e :
  (forall u v w, lt u v = true -> lt v w = true -> lt u w = true) ->
  (forall j, b <= j < e -> lt (get x (j + 1)) (get x j) = true) ->
  forall i j, b <= i -> i < j -> j <= e -> lt (get x j) (get x i) = true.
Proof.
  intros Htrans Hstep i j Hi Hij Hj.
  replace j with (i + 1 + Z.of_nat (Z.to_nat (j - i - 1))) in * by lia.
  induction (Z.to_nat (j - i - 1)) as [| n IH].
  - rewrite Z.add_0_r in *. apply Hstep; lia.
  - eapply Htrans; [| apply IH; lia].
    specialize (Hstep (i + 1 + Z.of_nat n) ltac:(lia)).
    now replace (i + 1 + Z.of_nat n + 1) with (i + 1 + Z.of_nat (S n))
      in Hstep by lia.
Qed.

(** Positions the outer loop of [_local_maxima_1d] passes without recording
    a maximum: no rise, or a rise that goes on rising. *)
Lemma local_maxima_loop_pass n : forall fuel x i_max i,
  (forall j, i <= j < i + Z.of_nat n ->
     F64.ltb (get x (j - 1)) (get x j) = false
     \/ F64.ltb (get x j) (get x (j + 1)) = true) ->
  local_maxima_loop (n + fuel) x i_max i
  = local_maxima_loop fuel x i_max (i + Z.of_nat n).
Proof.
  induction n as [| n IH]; intros fuel x i_max i Hpass.
  - now rewrite Z.add_0_r.
  - cbn [Nat.add local_maxima_loop].
    destruct (i <? i_max) eqn:Hlt.
    + assert (Hnext : local_maxima_loop (n + fuel) x i_max (i + 1)
                      = local_maxima_loop fuel x i_max (i + Z.of_nat (S n))).
      { rewrite IH by (intros j Hj; apply Hpass; lia). f_equal; lia. }
      destruct (F64.ltb (get x (i - 1)) (get x i)) eqn:Hrise; [| exact Hnext].
      destruct (Hpass i ltac:(lia)) as [E | Hup]; [congruence |].
      rewrite plateau_end_stop.
      * now rewrite (ltb_asym _ _ Hup).
      * assert (Hne : F64.eqb (get x (i + 1)) (get x i) = false).
        { destruct (get x i) as [u |] eqn:Eu, (get x (i + 1)) as [v |] eqn:Ev;
            try discriminate.
          apply ltb_lt in Hup.
          destruct (F64.eqb (FNum v) (FNum u)) eqn:E; [| reflexivity].
          apply eqb_eq in E; rewrite E in Hup.
          exfalso; eapply Qlt_irrefl; eauto. }
        rewrite Hne; apply andb_false_r.
    + apply Z.ltb_ge in Hlt.
      destruct fuel; cbn [local_maxima_loop]; [reflexivity |].
      now replace (i + Z.of_nat (S n) <? i_max) with false
        by (symmetry; apply Z.ltb_ge; lia).
Qed.

Lemma get_all_nan x j : Forall (fun v => v = FNaN) x -> get x j = FNaN.
Proof.
  intros H; unfold get.
  destruct (Nat.lt_ge_cases (Z.to_nat j) (length x)) as [Hlt | Hge].
  - rewrite Forall_forall in H; apply H, nth_In, Hlt.
  - now apply nth_overflow.
Qed.

Lemma detected_all_nan x : Forall (fun v => v = FNaN) x -> detected x = [].
Proof.
  intros H; unfold detected, local_maxima_1d.
  rewrite local_maxima_loop_no_rise; [reflexivity |].
  intros j _; rewrite (get_all_nan x j H); apply ltb_nan_r.
Qed.

Lemma get_number x j :
  Forall (fun v => is_num v = true) x -> 0 <= j < len x ->
  exists q, get x j = FNum q.
Proof.
  intros H Hj; unfold get.
  rewrite Forall_forall in H.
  assert (Hin : In (nth (Z.to_nat j) x FNaN) x)
    by (apply nth_In; unfold len in Hj; lia).
  apply H in Hin; destruct (nth _ x FNaN); [eauto | discriminate].
Qed.

Lemma detected_flat c n : detected (repeat c n) = [].
Proof.
  unfold detected, local_maxima_1d.
  rewrite local_maxima_loop_no_rise; [reflexivity |].
  intros j _.
  destruct (get_repeat c n (j - 1)) as [-> | ->],
           (get_repeat c n j) as [-> | ->];
    auto using ltb_irrefl, ltb_nan_r.
Qed.

(** ** SciPy: prominence, the bases lie at or below the peak *)

Lemma left_base_loop_inv fuel x i_min peak : forall i left_min left_base,
  left_min = get x left_base ->
  F64.leb left_min (get x peak) = true ->
  let r := left_base_loop fuel x i_min peak i left_min left_base in
  fst r = get x (snd r) /\ F64.leb (fst r) (get x peak) = true.
Proof.
  induction fuel as [| fuel IH]; intros i left_min left_base Hm Hle;
    cbn [left_base_loop]; [now split |].
  destruct ((i_min <=? i) && F64.leb (get x i) (get x peak)) eqn:Hc;
    [| now split].
  apply andb_true_iff in Hc as [_ Hc].
  destruct (F64.ltb (get x i) left_min); now apply IH.
Qed.

Lemma right_base_loop_inv fuel x i_max peak : forall i right_min right_base,
  right_min = get x right_base ->
  F64.leb right_min (get x peak) = true ->
  let r := right_base_loop fuel x i_max peak i right_min right_base in
  fst r = get x (snd r) /\ F64.leb (fst r) (get x peak) = true.
Proof.
  induction fuel as [| fuel IH]; intros i right_min right_base Hm Hle;
    cbn [right_base_loop]; [now split |].
  destruct ((i <=? i_max) && F64.leb (get x i) (get x peak)) eqn:Hc;
    [| now split].
  apply andb_true_iff in Hc as [_ Hc].
  destruct (F64.ltb (get x i) right_min); now apply IH.
Qed.

(** What the base loops compute over a stretch that stays at or below the
    peak: the lowest value, at its occurrence nearest to the peak. *)
Lemma left_base_loop_spec fuel x i_min peak : forall i left_min left_base,
  (Z.to_nat (i - i_min + 1) <= fuel)%nat ->
  (forall j, i_min <= j <= i -> F64.leb (get x j) (get x peak) = true) ->
  is_num left_min = true ->
  left_min = get x left_base ->
  (forall j, i < j <= peak -> F64.leb left_min (get x j) = true) ->
  (forall j, left_base < j <= peak -> F64.ltb left_min (get x j) = true) ->
  let r := left_base_loop fuel x i_min peak i left_min left_base in
  fst r = get x (snd r)
  /\ (forall j, i_min <= j <= peak -> F64.leb (fst r) (get x j) = true)
  /\ (forall j, snd r < j <= peak -> F64.ltb (fst r) (get x j) = true).
Proof.
  induction fuel as [| fuel IH];
    intros i left_min left_base Hf Hscan Hn Hm Hle Hlt; cbn [left_base_loop].
  - cbn [fst snd]; repeat split; auto. intros j Hj; apply Hle; lia.
  - destruct (i_min <=? i) eqn:Hi; cbn [andb].
    + apply Z.leb_le in Hi. rewrite (Hscan i) by lia.
      assert (Hxi : is_num (get x i) = true)
        by (apply (leb_is_num _ _ (Hscan i ltac:(lia)))).
      destruct (F64.ltb (get x i) left_min) eqn:Hc.
      * apply IH; [lia | | exact Hxi | reflexivity | |].
        -- intros j Hj; apply Hscan; lia.
        -- intros j Hj. destruct (Z.eq_dec j i) as [-> | Hne].
           ++ now apply leb_refl.
           ++ apply ltb_leb, (ltb_leb_trans _ left_min); [exact Hc |].
              apply Hle; lia.
        -- intros j Hj. apply (ltb_leb_trans _ left_min); [exact Hc |].
           apply Hle; lia.
      * apply IH; [lia | | exact Hn | exact Hm | |].
        -- intros j Hj; apply Hscan; lia.
        -- intros j Hj. destruct (Z.eq_dec j i) as [-> | Hne].
           ++ now apply not_ltb_leb.
           ++ apply Hle; lia.
        -- exact Hlt.
    + apply Z.leb_gt in Hi.
      cbn [fst snd]; repeat split; auto. intros j Hj; apply Hle; lia.
Qed.

Lemma right_base_loop_spec fuel x i_max peak : forall i right_min right_base,
  (Z.to_nat (i_max - i + 1) <= fuel)%nat ->
  (forall j, i <= j <= i_max -> F64.leb (get x j) (get x peak) = true) ->
  is_num right_min = true ->
  right_min = get x right_base ->
  (forall j, peak <= j < i -> F64.leb right_min (get x j) = true) ->
  (forall j, peak <= j < right_base -> F64.ltb right_min (get x j) = true) ->
  let r := right_base_loop fuel x i_max peak i right_min right_base in
  fst r = get x (snd r)
  /\ (forall j, peak <= j <= i_max -> F64.leb (fst r) (get x j) = true)
  /\ (forall j, peak <= j < snd r -> F64.ltb (fst r) (get x j) = true).
Proof.
  induction fuel as [| fuel IH];
    intros i right_min right_base Hf Hscan Hn Hm Hle Hlt;
    cbn [right_base_loop].
  - cbn [fst snd]; repeat split; auto. intros j Hj; apply Hle; lia.
  - destruct (i <=? i_max) eqn:Hi; cbn [andb].
    + apply Z.leb_le in Hi. rewrite (Hscan i) by lia.
      assert (Hxi : is_num (get x i) = true)
        by (apply (leb_is_num _ _ (Hscan i ltac:(lia)))).
      destruct (F64.ltb (get x i) right_min) eqn:Hc.
      * apply IH; [lia | | exact Hxi | reflexivity | |].
        -- intros j Hj; apply Hscan; lia.
        -- intros j Hj. destruct (Z.eq_dec j i) as [-> | Hne].
           ++ now apply leb_refl.
           ++ apply ltb_leb, (ltb_leb_trans _ right_min); [exact Hc |].
              apply Hle; lia.
        -- intros j Hj. apply (ltb_leb_trans _ right_min); [exact Hc |].
           apply Hle; lia.
      * apply IH; [lia | | exact Hn | exact Hm | |].
        -- intros j Hj; apply Hscan; lia.
        -- intros j Hj. destruct (Z.eq_dec j i) as [-> | Hne].
           ++ now apply not_ltb_leb.
           ++ apply Hle; lia.
        -- exact Hlt.
    + apply Z.leb_gt in Hi.
      cbn [fst snd]; repeat split; auto. intros j Hj; apply Hle; lia.
Qed.

(** The prominence of a peak at a number [P]: [P - M] for a reference level
    [M <= P] that both bases reach. *)
Lemma prominence_data_spec x p P :
  valid_peak x p = true ->
  get x p = FNum P ->
  exists M i_min i_max,
    prominence_data x p = (FNum (round (P - M)), i_min, i_max)
    /\ (M <= P)%Q
    /\ F64.leb (get x i_min) (FNum M) = true
    /\ F64.leb (get x i_max) (FNum M) = true
    /\ 0 <= i_min <= p /\ p <= i_max < len x
    /\ (get x i_min = FNum M \/ get x i_max = FNum M).
Proof.
  intros Hv HP.
  pose proof (prominence_data_valid x p Hv) as Hb.
  unfold prominence_data, valid_bases in *.
  assert (Hrefl : F64.leb (get x p) (get x p) = true)
    by (rewrite HP; apply leb_le, Qle_refl).
  pose proof (left_base_loop_inv (S (Z.to_nat (p - 0))) x 0 p p (get x p) p
                eq_refl Hrefl) as Hl.
  pose proof (right_base_loop_inv (S (Z.to_nat (len x - 1 - p))) x
                (len x - 1) p p (get x p) p eq_refl Hrefl) as Hr.
  destruct (left_base_loop _ _ _ _ _ _ _) as [left_min left_base].
  destruct (right_base_loop _ _ _ _ _ _ _) as [right_min right_base].
  cbn [fst snd] in Hl, Hr. destruct Hl as [Hl1 Hl2], Hr as [Hr1 Hr2].
  destruct (leb_is_num _ _ Hl2) as [Hln _], (leb_is_num _ _ Hr2) as [Hrn _].
  destruct (max_upper left_min right_min Hln Hrn) as (Hma & Hmb & Hmax).
  assert (HmP : F64.leb (F64.max left_min right_min) (get x p) = true)
    by (destruct Hmax as [-> | ->]; assumption).
  destruct (F64.max left_min right_min) as [M |] eqn:EM;
    [| destruct Hmax as [E | E]; rewrite <- E in *; discriminate].
  exists M, left_base, right_base.
  rewrite HP in *.
  rewrite !andb_true_iff, !Z.leb_le, Z.ltb_lt in Hb.
  repeat split; try lia.
  - now apply leb_le.
  - now rewrite <- Hl1.
  - now rewrite <- Hr1.
  - destruct Hmax as [E | E];
      [left; rewrite <- Hl1 | right; rewrite <- Hr1]; now symmetry.
Qed.

Lemma peak_prominences_emits x peaks :
  Forall (fun p => valid_peak x p = true) peaks ->
  exists warns,
    emits (peak_prominences x peaks)
          (Returned (map (prominence_data x) peaks)) [] warns.
Proof.
  intros Hv; unfold peak_prominences.
  rewrite (prominences_loop_valid _ _ Hv).
  eexists.
  apply (emits_then_ret (if existsb _ _ then _ else _) _ tt), emits_when.
Qed.

(** What [select_by_prominence] keeps is a sub-list, position by position. *)
Lemma select_by_prominence_lengths pmin peaks data :
  let found := select_by_prominence pmin peaks data in
  length (prominences (snd found)) = length (fst found)
  /\ length (left_bases (snd found)) = length (fst found)
  /\ length (right_bases (snd found)) = length (fst found).
Proof. simpl; now rewrite !length_map. Qed.

Lemma select_by_prominence_in pmin peaks data p :
  In p (fst (select_by_prominence pmin peaks data)) -> In p peaks.
Proof.
  simpl; intros Hin.
  apply in_map_iff in Hin as ([q d] & <- & Hin).
  apply filter_In in Hin as [Hin _].
  now apply in_combine_l in Hin.
Qed.

Lemma select_by_prominence_threshold pmin peaks data :
  Forall (fun v => F64.leb pmin v = true)
         (prominences (snd (select_by_prominence pmin peaks data))).
Proof.
  simpl; apply Forall_map, Forall_forall.
  intros c Hin; apply filter_In in Hin as [_ Hk]; exact Hk.
Qed.

Lemma find_peaks_emits x pmin :
  exists warns, emits (find_peaks x pmin) (Returned (candidates x pmin)) [] warns.
Proof.
  destruct (peak_prominences_emits x (detected x) (local_maxima_valid x))
    as [warns Hp].
  exists warns. unfold find_peaks.
  change (@nil string) with (@nil string ++ []).
  rewrite <- (app_nil_r warns).
  eapply emits_bind; [apply Hp | apply emits_ret].
Qed.

(** ** SciPy: widths, the intersection points lie on the signal *)

Lemma left_cross_loop_spec fuel x i_min h : forall i,
  i_min <= i -> (Z.to_nat (i - i_min) <= fuel)%nat ->
  let r := left_cross_loop fuel x i_min h i in
  i_min <= r <= i
  /\ (forall j, r < j <= i -> F64.ltb h (get x j) = true)
  /\ (r = i_min \/ F64.ltb h (get x r) = false).
Proof.
  induction fuel as [| fuel IH]; intros i Hi Hf; cbn [left_cross_loop].
  - repeat split; try lia; left; lia.
  - destruct (i_min <? i) eqn:Hlt; cbn [andb].
    + apply Z.ltb_lt in Hlt.
      destruct (F64.ltb h (get x i)) eqn:Hc.
      * destruct (IH (i - 1) ltac:(lia) ltac:(lia)) as (Hr & Hall & Hstop).
        repeat split; try lia; [| exact Hstop].
        intros j Hj. destruct (Z.eq_dec j i) as [-> | Hne]; [exact Hc |].
        apply Hall; lia.
      * repeat split; try lia; now right.
    + apply Z.ltb_ge in Hlt. repeat split; try lia; left; lia.
Qed.

Lemma right_cross_loop_spec fuel x i_max h : forall i,
  i <= i_max -> (Z.to_nat (i_max - i) <= fuel)%nat ->
  let r := right_cross_loop fuel x i_max h i in
  i <= r <= i_max
  /\ (forall j, i <= j < r -> F64.ltb h (get x j) = true)
  /\ (r = i_max \/ F64.ltb h (get x r) = false).
Proof.
  induction fuel as [| fuel IH]; intros i Hi Hf; cbn [right_cross_loop].
  - repeat split; try lia; left; lia.
  - destruct (i <? i_max) eqn:Hlt; cbn [andb].
    + apply Z.ltb_lt in Hlt.
      destruct (F64.ltb h (get x i)) eqn:Hc.
      * destruct (IH (i + 1) ltac:(lia) ltac:(lia)) as (Hr & Hall & Hstop).
        repeat split; try lia; [| exact Hstop].
        intros j Hj. destruct (Z.eq_dec j i) as [-> | Hne]; [exact Hc |].
        apply Hall; lia.
      * repeat split; try lia; now right.
    + apply Z.ltb_ge in Hlt. repeat split; try lia; left; lia.
Qed.

Lemma get_float x j : Forall float_value x -> float_value (get x j).
Proof.
  intros H. unfold get.
  destruct (Nat.lt_ge_cases (Z.to_nat j) (length x)) as [Hj | Hj].
  - rewrite Forall_forall in H. apply H, nth_In, Hj.
  - rewrite nth_overflow by exact Hj. exact I.
Qed.

(** Interpolation between a sample [a] below [h] and its neighbour [c]
    above: the fraction of the step, as float64 computes it, lies between
    0 and 1. *)
Lemma interpolation_fraction (a c h : Q) :
  representable a -> representable c ->
  (a < h)%Q -> (h < c)%Q ->
  exists f,
    F64.div (F64.sub (FNum h) (FNum a)) (F64.sub (FNum c) (FNum a)) = FNum f
    /\ (0 <= f)%Q /\ (f <= 1)%Q.
Proof.
  intros Ha Hc Hah Hhc.
  assert (Hd2 : (0 < round (c - a))%Q) by (apply round_sub_pos; auto; lra).
  assert (Hd1 : (0 <= round (h - a))%Q) by (apply round_sign; lra).
  assert (Hle : (round (h - a) <= round (c - a))%Q) by (apply round_le; lra).
  unfold F64.sub, F64.div, lift2.
  destruct (Qeq_bool (round (c - a)) 0) eqn:E;
    [apply Qeq_bool_iff in E; lra |].
  eexists; split; [reflexivity |].
  assert (H0 : (0 <= round (h - a) / round (c - a))%Q)
    by (apply Qle_shift_div_l; [exact Hd2 | lra]).
  assert (H1 : (round (h - a) / round (c - a) <= 1)%Q)
    by (apply Qle_shift_div_r; [exact Hd2 | lra]).
  apply round_le in H0, H1.
  rewrite round_0 in H0. rewrite round_1 in H1. split; assumption.
Qed.

Lemma round_step_up q f :
  (0 <= f)%Q -> (f <= 1)%Q ->
  (round q <= round (round q + f))%Q
  /\ (round (round q + f) <= round (round q + 1))%Q.
Proof.
  intros H0 H1. split.
  - rewrite <- (round_idem q) at 1. apply round_le. lra.
  - apply round_le. lra.
Qed.

Lemma round_step_down q f :
  (0 <= f)%Q -> (f <= 1)%Q ->
  (round (round q - 1) <= round (round q - f))%Q
  /\ (round (round q - f) <= round q)%Q.
Proof.
  intros H0 H1. split.
  - apply round_le. lra.
  - rewrite <- (round_idem q) at 2. apply round_le. lra.
Qed.

Section Crossings.

Variable x : list f64.
Hypothesis Hnum : Forall (fun v => is_num v = true) x.
Hypothesis Hfloat : Forall float_value x.

Variables (p : Z) (P hq : Q).
Hypothesis Hp : 0 <= p < len x.
Hypothesis HP : get x p = FNum P.
Hypothesis Hh : (hq <= P)%Q.

(** The left intersection point lies between the last sample at or below
    the height, left of the peak, and its right neighbour; every sample from
    there to the peak is above the height. *)
Lemma left_ip_spec i_min :
  0 <= i_min <= p ->
  F64.leb (get x i_min) (FNum hq) = true ->
  exists i lq,
    i_min <= i <= p
    /\ (forall j, i < j <= p -> F64.ltb (FNum hq) (get x j) = true)
    /\ F64.leb (get x i) (FNum hq) = true
    /\ (F64.ltb (get x i) (FNum hq) = true -> i < p)
    /\ left_ip_of x i_min p (FNum hq)
       = (if F64.ltb (get x i) (FNum hq)
          then F64.add (of_Z i)
                       (F64.div (F64.sub (FNum hq) (get x i))
                                (F64.sub (get x (i + 1)) (get x i)))
          else of_Z i)
    /\ left_ip_of x i_min p (FNum hq) = FNum lq
    /\ (round (inject_Z i) <= lq)%Q
    /\ (lq <= round (round (inject_Z i) + 1))%Q.
Proof.
  intros Hi Hbase. unfold left_ip_of.
  destruct (left_cross_loop_spec (Z.to_nat (p - i_min)) x i_min (FNum hq) p
              ltac:(lia) ltac:(lia)) as (Hr & Habove & Hstop).
  set (r := left_cross_loop _ _ _ _ _) in *.
  assert (Hnot : F64.ltb (FNum hq) (get x r) = false).
  { destruct Hstop as [E | E]; [| exact E].
    rewrite E; now apply leb_not_ltb. }
  destruct (get_number x r Hnum ltac:(lia)) as [a Ha].
  pose proof (get_float x r Hfloat) as Hfa.
  rewrite Ha in *. cbn [float_value] in Hfa.
  assert (Hle : F64.leb (FNum a) (FNum hq) = true)
    by (apply not_ltb_leb; auto).
  assert (Hrp : F64.ltb (FNum a) (FNum hq) = true -> r < p).
  { intros Hlow. apply ltb_lt in Hlow.
    destruct (Z.eq_dec r p) as [E | E]; [| lia].
    rewrite E, HP in Ha; injection Ha as ->. lra. }
  destruct (F64.ltb (FNum a) (FNum hq)) eqn:Hlow.
  - specialize (Hrp eq_refl). pose proof Hlow as Hlowb. apply ltb_lt in Hlow.
    destruct (get_number x (r + 1) Hnum ltac:(lia)) as [c Hc].
    pose proof (get_float x (r + 1) Hfloat) as Hfc.
    pose proof (Habove (r + 1) ltac:(lia)) as Hup.
    rewrite Hc in *. cbn [float_value] in Hfc. apply ltb_lt in Hup.
    destruct (interpolation_fraction a c hq Hfa Hfc Hlow Hup)
      as (f & Hf & Hf0 & Hf1).
    rewrite Hf.
    destruct (round_step_up (inject_Z r) f Hf0 Hf1) as [Hlo Hhi].
    exists r, (round (round (inject_Z r) + f)).
    rewrite Ha, Hc, Hlowb, Hf.
    split; [lia |]. split; [exact Habove |]. split; [exact Hle |].
    split; [intros _; exact Hrp |]. split; [reflexivity |].
    split; [reflexivity |]. split; assumption.
  - exists r, (round (inject_Z r)).
    rewrite Ha, Hlow.
    split; [lia |]. split; [exact Habove |]. split; [exact Hle |].
    split; [discriminate |]. split; [reflexivity |].
    split; [reflexivity |]. split; [apply Qle_refl |].
    rewrite <- (round_idem (inject_Z r)) at 1. apply round_le. lra.
Qed.

(** The right intersection point, symmetrically. *)
Lemma right_ip_spec i_max :
  p <= i_max < len x ->
  F64.leb (get x i_max) (FNum hq) = true ->
  exists i rq,
    p <= i <= i_max
    /\ (forall j, p <= j < i -> F64.ltb (FNum hq) (get x j) = true)
    /\ F64.leb (get x i) (FNum hq) = true
    /\ (F64.ltb (get x i) (FNum hq) = true -> p < i)
    /\ right_ip_of x i_max p (FNum hq)
       = (if F64.ltb (get x i) (FNum hq)
          then F64.sub (of_Z i)
                       (F64.div (F64.sub (FNum hq) (get x i))
                                (F64.sub (get x (i - 1)) (get x i)))
          else of_Z i)
    /\ right_ip_of x i_max p (FNum hq) = FNum rq
    /\ (round (round (inject_Z i) - 1) <= rq)%Q
    /\ (rq <= round (inject_Z i))%Q.
Proof.
  intros Hi Hbase. unfold right_ip_of.
  destruct (right_cross_loop_spec (Z.to_nat (i_max - p)) x i_max (FNum hq) p
              ltac:(lia) ltac:(lia)) as (Hr & Habove & Hstop).
  set (r := right_cross_loop _ _ _ _ _) in *.
  assert (Hnot : F64.ltb (FNum hq) (get x r) = false).
  { destruct Hstop as [E | E]; [| exact E].
    rewrite E; now apply leb_not_ltb. }
  destruct (get_number x r Hnum ltac:(lia)) as [a Ha].
  pose proof (get_float x r Hfloat) as Hfa.
  rewrite Ha in *. cbn [float_value] in Hfa.
  assert (Hle : F64.leb (FNum a) (FNum hq) = true)
    by (apply not_ltb_leb; auto).
  assert (Hrp : F64.ltb (FNum a) (FNum hq) = true -> p < r).
  { intros Hlow. apply ltb_lt in Hlow.
    destruct (Z.eq_dec r p) as [E | E]; [| lia].
    rewrite E, HP in Ha; injection Ha as ->. lra. }
  destruct (F64.ltb (FNum a) (FNum hq)) eqn:Hlow.
  - specialize (Hrp eq_refl). pose proof Hlow as Hlowb. apply ltb_lt in Hlow.
    destruct (get_number x (r - 1) Hnum ltac:(lia)) as [c Hc].
    pose proof (get_float x (r - 1) Hfloat) as Hfc.
    pose proof (Habove (r - 1) ltac:(lia)) as Hup.
    rewrite Hc in *. cbn [float_value] in Hfc. apply ltb_lt in Hup.
    destruct (interpolation_fraction a c hq Hfa Hfc Hlow Hup)
      as (f & Hf & Hf0 & Hf1).
    rewrite Hf.
    destruct (round_step_down (inject_Z r) f Hf0 Hf1) as [Hlo Hhi].
    exists r, (round (round (inject_Z r) - f)).
    rewrite Ha, Hc, Hlowb, Hf.
    split; [lia |]. split; [exact Habove |]. split; [exact Hle |].
    split; [intros _; exact Hrp |]. split; [reflexivity |].
    split; [reflexivity |]. split; assumption.
  - exists r, (round (inject_Z r)).
    rewrite Ha, Hlow.
    split; [lia |]. split; [exact Habove |]. split; [exact Hle |].
    split; [discriminate |]. split; [reflexivity |].
    split; [reflexivity |]. split; [| apply Qle_refl].
    rewrite <- (round_idem (inject_Z r)) at 2. apply round_le. lra.
Qed.

End Crossings.

(** The width of one peak: the height lies between the higher base and the
    peak, and the two intersection points are found where the signal crosses
    it, on either side of the peak. *)
Lemma width_data_spec x p :
  Forall (fun v => is_num v = true) x -> Forall float_value x ->
  valid_peak x p = true ->
  exists (P prom hq lq rq : Q) (i_min i_max i j : Z),
    get x p = FNum P
    /\ prominence_data x p = (FNum prom, i_min, i_max)
    /\ (0 <= prom)%Q
    /\ FNum hq = F64.sub (get x p) (F64.mul (FNum prom) F64.half)
    /\ (hq <= P)%Q
    /\ width_data x F64.half p (prominence_data x p)
       = (F64.sub (FNum rq) (FNum lq), FNum hq, FNum lq, FNum rq)
    /\ (0 <= i_min /\ i_min <= i <= p /\ p <= j <= i_max /\ i_max < len x)
    /\ F64.leb (get x i) (FNum hq) = true
    /\ F64.leb (get x j) (FNum hq) = true
    /\ (forall k, i < k < j -> F64.ltb (FNum hq) (get x k) = true)
    /\ (F64.ltb (get x i) (FNum hq) = true -> i < p)
    /\ (F64.ltb (get x j) (FNum hq) = true -> p < j)
    /\ FNum lq
       = (if F64.ltb (get x i) (FNum hq)
          then F64.add (of_Z i)
                       (F64.div (F64.sub (FNum hq) (get x i))
                                (F64.sub (get x (i + 1)) (get x i)))
          else of_Z i)
    /\ FNum rq
       = (if F64.ltb (get x j) (FNum hq)
          then F64.sub (of_Z j)
                       (F64.div (F64.sub (FNum hq) (get x j))
                                (F64.sub (get x (j - 1)) (get x j)))
          else of_Z j)
    /\ (round (inject_Z i) <= lq)%Q
    /\ (lq <= round (round (inject_Z i) + 1))%Q
    /\ (round (round (inject_Z j) - 1) <= rq)%Q
    /\ (rq <= round (inject_Z j))%Q.
Proof.
  intros Hnum Hfloat Hv.
  pose proof Hv as Hrange; apply valid_peak_iff in Hrange.
  destruct (get_number x p Hnum ltac:(lia)) as [P HP].
  destruct (prominence_data_spec x p P Hv HP)
    as (M & i_min & i_max & Hdata & HM & Hlb & Hrb & Hil & Hir & Hbase).
  assert (HfP : representable P)
    by (pose proof (get_float x p Hfloat) as H; now rewrite HP in H).
  assert (HfM : representable M).
  { destruct Hbase as [E | E];
      [pose proof (get_float x i_min Hfloat) as H
      | pose proof (get_float x i_max Hfloat) as H];
      now rewrite E in H. }
  set (prom := round (P - M)) in *.
  set (half := round (prom * (1 # 2))).
  set (hq := round (P - half)).
  assert (Hprom : (0 <= prom)%Q) by (apply round_sign; lra).
  assert (Hhalf0 : (0 <= half)%Q) by (apply round_sign; lra).
  assert (Hhalf : (half <= P - M)%Q).
  { apply round_half_le; [lra |].
    destruct (representable_tiny P HfP) as [n1 H1].
    destruct (representable_tiny M HfM) as [n2 H2].
    exists (n1 - n2). rewrite H1, H2. unfold Z.sub.
    rewrite inject_Z_plus, inject_Z_opp. ring. }
  pose proof (round_exact P HfP) as EP.
  pose proof (round_exact M HfM) as EM.
  assert (HhP : (hq <= P)%Q).
  { assert (H : (P - half <= P)%Q) by lra.
    apply round_le in H. fold hq in H. lra. }
  assert (HMh : (M <= hq)%Q).
  { assert (H : (M <= P - half)%Q) by lra.
    apply round_le in H. fold hq in H. lra. }
  assert (Hlb' : F64.leb (get x i_min) (FNum hq) = true).
  { eapply leb_trans; [exact Hlb | now apply leb_le]. }
  assert (Hrb' : F64.leb (get x i_max) (FNum hq) = true).
  { eapply leb_trans; [exact Hrb | now apply leb_le]. }
  destruct (left_ip_spec x Hnum Hfloat p P hq ltac:(lia) HP HhP i_min Hil Hlb')
    as (i & lq & Hi & Hlabove & Hlle & Hlstrict & Hlform & Hleft & Hl1 & Hl2).
  destruct (right_ip_spec x Hnum Hfloat p P hq ltac:(lia) HP HhP i_max Hir
                          Hrb')
    as (j & rq & Hj & Hrabove & Hrle & Hrstrict & Hrform & Hright & Hr1 & Hr2).
  exists P, prom, hq, lq, rq, i_min, i_max, i, j.
  split; [exact HP |].
  split; [exact Hdata |].
  split; [exact Hprom |].
  split; [rewrite HP; reflexivity |].
  split; [exact HhP |].
  split.
  { rewrite Hdata. unfold width_data. rewrite HP.
    change (F64.sub (FNum P) (F64.mul (FNum prom) F64.half)) with (FNum hq).
    rewrite Hleft, Hright. reflexivity. }
  split; [lia |].
  split; [exact Hlle |].
  split; [exact Hrle |].
  split.
  { intros k Hk.
    destruct (Z_le_gt_dec k p); [apply Hlabove | apply Hrabove]; lia. }
  split; [exact Hlstrict |].
  split; [exact Hrstrict |].
  split; [now rewrite <- Hleft, Hlform |].
  split; [now rewrite <- Hright, Hrform |].
  repeat split; assumption.
Qed.

Lemma peak_widths_emits x peaks :
  Forall (fun p => valid_peak x p = true) peaks ->
  exists warns,
    emits (peak_widths x peaks F64.half) (Returned (widths_of x peaks)) [] warns.
Proof.
  intros Hv.
  destruct (peak_prominences_emits x peaks Hv) as [w1 Hp].
  eexists; unfold peak_widths.
  change (@nil string) with (@nil string ++ []).
  eapply emits_bind; [exact Hp |].
  change (F64.ltb F64.half F64.zero) with false; cbv iota.
  rewrite (widths_loop_valid _ _ _ Hv).
  apply (emits_then_ret (if existsb _ _ then _ else _) _ tt), emits_when.
Qed.

(** ** [peak_fwhm], step by step *)

Lemma lineout_emits frame pixbit invert r0 r1 c0 c1 :
  storable frame pixbit invert ->
  exists warns,
    emits (lineout frame pixbit invert [r0; r1; c0; c1])
          (Returned (column_means (analysed frame pixbit invert r0 r1 c0 c1)))
          [] warns.
Proof.
  intros Hs.
  destruct (mean_axis0_emits (analysed frame pixbit invert r0 r1 c0 c1))
    as [warns Hm].
  exists warns; intros w.
  change (lineout frame pixbit invert [r0; r1; c0; c1] w)
    with ((a <- (if invert
                 then rsub_scalar (2 ^ Z.of_N pixbit - 1) (crop frame r0 r1 c0 c1)
                 else ret (crop frame r0 r1 c0 c1)) ;;
           mean_axis0 a) w).
  unfold analysed in Hm; destruct invert.
  - rewrite rsub_scalar_fits by (apply Hs; reflexivity). apply Hm.
  - apply Hm.
Qed.

Lemma candidates_valid x pmin :
  Forall (fun p => valid_peak x p = true) (fst (candidates x pmin)).
Proof.
  apply Forall_forall; intros p Hin.
  apply select_by_prominence_in in Hin.
  pose proof (local_maxima_valid x) as Hv.
  rewrite Forall_forall in Hv; now apply Hv.
Qed.

Lemma candidates_lengths x pmin :
  length (prominences (snd (candidates x pmin))) = length (fst (candidates x pmin)).
Proof. apply select_by_prominence_lengths. Qed.

Lemma candidates_threshold x pmin :
  Forall (fun v => F64.leb pmin v = true) (prominences (snd (candidates x pmin))).
Proof. apply select_by_prominence_threshold. Qed.

Lemma candidates_numbers x pmin :
  Forall (fun v => is_num v = true) (prominences (snd (candidates x pmin))).
Proof.
  eapply Forall_impl; [| apply candidates_threshold].
  intros v Hv; now apply leb_is_num in Hv.
Qed.

(** The prominences [find_peaks] reports are those of the peaks it returns. *)
Lemma candidates_prominences x pmin :
  prominences (snd (candidates x pmin))
  = map (fun q => fst (fst (prominence_data x q))) (fst (candidates x pmin)).
Proof.
  unfold candidates, select_by_prominence; cbn [fst snd prominences].
  rewrite map_map. apply map_ext_in; intros c Hin.
  apply filter_In in Hin as [Hin _].
  now rewrite (combine_map_snd _ _ _ Hin).
Qed.

Lemma candidates_flat c n pmin : fst (candidates (repeat c n) pmin) = [].
Proof. unfold candidates; now rewrite detected_flat. Qed.

Lemma candidates_none x pmin :
  fst (candidates x pmin) = [] ->
  snd (candidates x pmin) = mkProperties [] [] [].
Proof.
  unfold candidates, select_by_prominence; cbn [fst snd]; intros E.
  apply map_eq_nil in E; now rewrite E.
Qed.

Lemma detected_numbers a pmin p :
  In p (fst (candidates (column_means a) pmin)) ->
  Forall (fun v => is_num v = true) (column_means a).
Proof.
  intros Hin. destruct (rows a) eqn:Hrows.
  - apply select_by_prominence_in in Hin.
    rewrite (detected_all_nan _ (column_means_no_rows a Hrows)) in Hin.
    destruct Hin.
  - apply column_means_numbers; congruence.
Qed.

Lemma select_peak_emits peaks props :
  length (prominences props) = length peaks ->
  emits (select_peak peaks props) (Returned (selected peaks props))
        (if (1 <? length peaks)%nat then multiple_peaks_warning else []) [].
Proof.
  intros Hlen; unfold select_peak, selected.
  destruct (1 <? length peaks)%nat eqn:Hmany; [| apply emits_ret].
  apply Nat.ltb_lt in Hmany.
  assert (Hne : prominences props <> [])
    by (intros E; rewrite E in Hlen; simpl in Hlen; lia).
  rewrite (argmax_nonempty _ Hne).
  pose proof (argmax_index_bounds _ Hne) as Hk; rewrite Hlen in Hk.
  change (emits
    (p <- py_index peaks (argmax_index (prominences props)) ;;
     print_all multiple_peaks_warning ;;; ret [p])
    (Returned [nth (Z.to_nat (argmax_index (prominences props))) peaks 0])
    multiple_peaks_warning []).
  rewrite (py_index_in_range peaks _ 0 Hk).
  exact (emits_bind (print_all multiple_peaks_warning) (fun _ => ret _) tt _
                    multiple_peaks_warning [] [] []
                    (emits_print_all _) (emits_ret _)).
Qed.

Lemma selected_valid x peaks props :
  length (prominences props) = length peaks ->
  Forall (fun p => valid_peak x p = true) peaks ->
  Forall (fun p => valid_peak x p = true) (selected peaks props).
Proof.
  intros Hlen Hv; unfold selected.
  destruct (1 <? length peaks)%nat eqn:Hmany; [| exact Hv].
  apply Nat.ltb_lt in Hmany.
  constructor; [| constructor].
  rewrite Forall_forall in Hv; apply Hv, nth_In.
  assert (Hne : prominences props <> [])
    by (intros E; rewrite E in Hlen; simpl in Hlen; lia).
  pose proof (argmax_index_bounds _ Hne); lia.
Qed.

Lemma selected_length peaks props : (length (selected peaks props) <= 1)%nat.
Proof.
  unfold selected; destruct (1 <? length peaks)%nat eqn:Hmany; simpl; [lia |].
  apply Nat.ltb_ge in Hmany; exact Hmany.
Qed.

Lemma selected_in peaks props p :
  length (prominences props) = length peaks ->
  selected peaks props = [p] -> In p peaks.
Proof.
  intros Hlen; unfold selected.
  destruct (1 <? length peaks)%nat eqn:Hmany.
  - apply Nat.ltb_lt in Hmany. intros E; injection E as <-.
    apply nth_In.
    assert (Hne : prominences props <> [])
      by (intros E; rewrite E in Hlen; simpl in Hlen; lia).
    pose proof (argmax_index_bounds _ Hne); lia.
  - intros ->; now left.
Qed.

Lemma peak_fwhm_emits frame prominence_min pixbit invert r0 r1 c0 c1 :
  storable frame pixbit invert ->
  exists warns,
    emits (peak_fwhm frame prominence_min pixbit invert [r0; r1; c0; c1])
          (Returned (fwhm_of frame prominence_min pixbit invert r0 r1 c0 c1))
          (fwhm_output frame prominence_min pixbit invert r0 r1 c0 c1)
          warns.
Proof.
  intros Hs.
  destruct (lineout_emits frame pixbit invert r0 r1 c0 c1 Hs) as [w1 H1].
  set (x := column_means (analysed frame pixbit invert r0 r1 c0 c1)) in *.
  destruct (find_peaks_emits x prominence_min) as [w2 H2].
  pose proof (select_by_prominence_lengths prominence_min (detected x)
                (map (prominence_data x) (detected x))) as (Hlen & _).
  fold (candidates x prominence_min) in Hlen.
  pose proof (select_peak_emits _ _ Hlen) as H3.
  pose proof (selected_valid x _ _ Hlen (candidates_valid x prominence_min))
    as Hv.
  destruct (peak_widths_emits x _ Hv) as [w4 H4].
  exists (w1 ++ w2 ++ [] ++ w4 ++ []).
  unfold peak_fwhm, fwhm_of, fwhm_output; fold x.
  change (@nil string) with (@nil string ++ []) in H1.
  eapply (emits_bind _ _ _ _ [] _ w1); [exact H1 |].
  eapply (emits_bind _ _ _ _ [] _ w2); [exact H2 |].
  cbv zeta.
  rewrite <- (app_nil_r (if (1 <? _)%nat then _ else _)).
  eapply emits_bind; [exact H3 |].
  eapply (emits_bind _ _ _ _ [] [] w4 []); [exact H4 | apply emits_ret].
Qed.

(** ** A single excursion from a flat background *)

Section SingleBump.

Variables (x : list f64) (lo hi : f64) (a pl pr e : Z).
Hypothesis Hshape : single_bump x lo hi a pl pr e.

Lemma single_bump_rise : F64.ltb lo hi = true.
Proof.
  destruct Hshape as (Ha & Hapl & Hplr & Hpre & He & Hleft & Hup & Htop & _).
  rewrite <- (Hleft a), <- (Htop pl) by lia.
  apply (chain_lt F64.ltb x a pl ltb_trans Hup); lia.
Qed.

Lemma single_bump_above j :
  a < j < e -> F64.ltb lo (get x j) = true.
Proof.
  destruct Hshape
    as (Ha & Hapl & Hplr & Hpre & He & Hleft & Hup & Htop & Hdown & Hright).
  intros Hj.
  destruct (Z_le_gt_dec j pl) as [H1 | H1].
  - rewrite <- (Hleft a) by lia.
    apply (chain_lt F64.ltb x a pl ltb_trans Hup); lia.
  - destruct (Z_le_gt_dec j pr) as [H2 | H2].
    + rewrite (Htop j) by lia. apply single_bump_rise.
    + rewrite <- (Hright e) by lia.
      apply (chain_gt F64.ltb x pr e ltb_trans Hdown); lia.
Qed.

Lemma single_bump_below j :
  0 <= j <= len x - 1 -> F64.leb (get x j) hi = true.
Proof.
  destruct Hshape
    as (Ha & Hapl & Hplr & Hpre & He & Hleft & Hup & Htop & Hdown & Hright).
  pose proof single_bump_rise as Hr.
  assert (Hnum : is_num hi = true) by (now apply ltb_is_num in Hr).
  intros Hj.
  destruct (Z_le_gt_dec j a) as [H1 | H1];
    [rewrite Hleft by lia; now apply ltb_leb |].
  destruct (Z_lt_le_dec j pl) as [H2 | H2].
  { rewrite <- (Htop pl) by lia.
    apply ltb_leb, (chain_lt F64.ltb x a pl ltb_trans Hup); lia. }
  destruct (Z_le_gt_dec j pr) as [H3 | H3];
    [rewrite Htop by lia; now apply leb_refl |].
  destruct (Z_lt_le_dec j e) as [H4 | H4].
  { rewrite <- (Htop pr) by lia.
    apply ltb_leb, (chain_gt F64.ltb x pr e ltb_trans Hdown); lia. }
  rewrite Hright by lia; now apply ltb_leb.
Qed.

Lemma detected_single_bump : detected x = [(pl + pr) / 2].
Proof.
  destruct Hshape
    as (Ha & Hapl & Hplr & Hpre & He & Hleft & Hup & Htop & Hdown & Hright).
  pose proof single_bump_rise as Hr.
  assert (Hnum : is_num hi = true) by (now apply ltb_is_num in Hr).
  unfold detected, local_maxima_1d.
  replace (length x) with (Z.to_nat (pl - 1) + S (Z.to_nat (len x - pl)))%nat
    by (unfold len in *; lia).
  rewrite local_maxima_loop_pass.
  2:{ intros j Hj.
      destruct (Z_le_gt_dec j a) as [H1 | H1].
      - left. rewrite !Hleft by lia. apply ltb_irrefl.
      - right. specialize (Hup (j + 1) ltac:(lia)).
        now replace (j + 1 - 1) with j in Hup by lia. }
  replace (1 + Z.of_nat (Z.to_nat (pl - 1))) with pl by lia.
  cbn [local_maxima_loop].
  replace (pl <? len x - 1) with true by (symmetry; apply Z.ltb_lt; lia).
  rewrite (Hup pl) by lia.
  replace (Z.to_nat (len x - 1 - pl))
    with (Z.to_nat (pr - pl) + Z.to_nat (len x - 1 - pr))%nat by lia.
  rewrite plateau_end_run.
  2:{ intros j Hj. rewrite !Htop by lia. now apply eqb_refl. }
  2:{ lia. }
  replace (pl + 1 + Z.of_nat (Z.to_nat (pr - pl))) with (pr + 1) by lia.
  pose proof (Hdown pr ltac:(lia)) as Hfall.
  rewrite (Htop pr) in Hfall by lia.
  rewrite plateau_end_stop
    by (rewrite (Htop pl), (ltb_not_eqb _ _ Hfall) by lia; apply andb_false_r).
  rewrite (Htop pl), Hfall by lia.
  rewrite local_maxima_loop_no_rise;
    [cbn [map fst]; now replace (pr + 1 - 1) with pr by lia |].
  intros j Hj.
  destruct (Z_le_gt_dec j e) as [H1 | H1].
  - apply ltb_asym. specialize (Hdown (j - 1) ltac:(lia)).
    now replace (j - 1 + 1) with j in Hdown by lia.
  - rewrite !Hright by lia. apply ltb_irrefl.
Qed.

Lemma single_bump_peak_range : pl <= (pl + pr) / 2 <= pr.
Proof.
  destruct Hshape as (Ha & Hapl & Hplr & _).
  split; [apply Z.div_le_lower_bound | apply Z.div_le_upper_bound]; lia.
Qed.

Lemma prominence_data_single_bump :
  prominence_data x ((pl + pr) / 2) = (F64.sub hi lo, a, e).
Proof.
  pose proof single_bump_peak_range as Hp.
  pose proof single_bump_rise as Hr.
  destruct Hshape
    as (Ha & Hapl & Hplr & Hpre & He & Hleft & Hup & Htop & Hdown & Hright).
  set (p := (pl + pr) / 2) in *.
  assert (Hnum : is_num hi = true) by (now apply ltb_is_num in Hr).
  assert (Hxp : get x p = hi) by (apply Htop; lia).
  unfold prominence_data.
  (* the left base *)
  pose proof (left_base_loop_spec (S (Z.to_nat (p - 0))) x 0 p p (get x p) p
                ltac:(lia)) as Hl.
  pose proof (left_base_loop_bounds (S (Z.to_nat (p - 0))) x 0 p p (get x p) p
                ltac:(lia) ltac:(lia)) as Hlb.
  destruct (left_base_loop _ _ _ _ _ _ _) as [left_min left_base].
  cbn [fst snd] in Hl, Hlb.
  destruct Hl as (Hl1 & Hl2 & Hl3);
    [intros j Hj; rewrite Hxp; apply single_bump_below; lia
    | now rewrite Hxp | reflexivity
    | intros j Hj; lia | intros j Hj; lia |].
  assert (Eb : left_base = a).
  { destruct (Z_lt_le_dec a left_base) as [H1 | H1].
    - exfalso. pose proof (single_bump_above left_base ltac:(lia)) as Habove.
      pose proof (Hl2 a ltac:(lia)) as Hmin.
      rewrite Hl1, (Hleft a) in Hmin by lia.
      apply leb_not_ltb in Hmin. congruence.
    - destruct (Z.eq_dec left_base a) as [E | Hne]; [exact E | exfalso].
      pose proof (Hl3 a ltac:(lia)) as Hstrict.
      rewrite Hl1, !Hleft in Hstrict by lia.
      rewrite ltb_irrefl in Hstrict; discriminate. }
  subst left_base. rewrite (Hleft a) in Hl1 by lia. subst left_min.
  (* the right base *)
  pose proof (right_base_loop_spec (S (Z.to_nat (len x - 1 - p))) x
                (len x - 1) p p (get x p) p ltac:(lia)) as Hr'.
  pose proof (right_base_loop_bounds (S (Z.to_nat (len x - 1 - p))) x
                (len x - 1) p p (get x p) p ltac:(lia) ltac:(lia)) as Hrb.
  destruct (right_base_loop _ _ _ _ _ _ _) as [right_min right_base].
  cbn [fst snd] in Hr', Hrb.
  destruct Hr' as (Hr1 & Hr2 & Hr3);
    [intros j Hj; rewrite Hxp; apply single_bump_below; lia
    | now rewrite Hxp | reflexivity
    | intros j Hj; lia | intros j Hj; lia |].
  assert (Eb : right_base = e).
  { destruct (Z_lt_le_dec right_base e) as [H1 | H1].
    - exfalso. pose proof (single_bump_above right_base ltac:(lia)) as Habove.
      pose proof (Hr2 e ltac:(lia)) as Hmin.
      rewrite Hr1, (Hright e) in Hmin by lia.
      apply leb_not_ltb in Hmin. congruence.
    - destruct (Z.eq_dec right_base e) as [E | Hne]; [exact E | exfalso].
      pose proof (Hr3 e ltac:(lia)) as Hstrict.
      rewrite Hr1, !Hright in Hstrict by lia.
      rewrite ltb_irrefl in Hstrict; discriminate. }
  subst right_base. rewrite (Hright e) in Hr1 by lia. subst right_min.
  rewrite Hxp. unfold F64.max; rewrite ltb_irrefl. reflexivity.
Qed.

(** One candidate, of prominence [hi - lo], if that passes the threshold. *)
Lemma candidates_single_bump pmin :
  F64.leb pmin (F64.sub hi lo) = true ->
  candidates x pmin = ([(pl + pr) / 2], mkProperties [F64.sub hi lo] [a] [e]).
Proof.
  intros Hpass. unfold candidates.
  rewrite detected_single_bump. cbn [map].
  rewrite prominence_data_single_bump.
  unfold select_by_prominence, keep; cbn [combine filter fst snd].
  rewrite Hpass. reflexivity.
Qed.

End SingleBump.

(** ** Inversion turns a dip into a bump, where the arithmetic is exact *)

Lemma get_sample M x j :
  Forall (sample M) x -> 0 <= j < len x -> sample M (get x j).
Proof.
  intros Hall Hj. rewrite Forall_forall in Hall. apply Hall.
  unfold get, len in *. apply nth_In. lia.
Qed.

Lemma sample_sub M v :
  0 <= M <= 2 ^ 53 -> sample M v ->
  exists s, 0 <= s <= M /\ v = of_Z s /\ F64.sub (of_Z M) v = of_Z (M - s).
Proof.
  intros HM (s & Hs & ->). exists s. repeat split; try lia.
  apply sub_of_Z; lia.
Qed.

Lemma sub_antitone M u v :
  0 <= M <= 2 ^ 53 -> sample M u -> sample M v ->
  F64.ltb u v = true ->
  F64.ltb (F64.sub (of_Z M) v) (F64.sub (of_Z M) u) = true.
Proof.
  intros HM Hu Hv Hlt.
  destruct (sample_sub M u HM Hu) as (a & Ha & -> & ->).
  destruct (sample_sub M v HM Hv) as (b & Hb & -> & ->).
  apply ltb_of_Z in Hlt; [| lia | lia].
  apply ltb_of_Z; lia.
Qed.

Lemma sub_sub_cancel M u v :
  0 <= M <= 2 ^ 53 -> sample M u -> sample M v ->
  F64.sub (F64.sub (of_Z M) v) (F64.sub (of_Z M) u) = F64.sub u v.
Proof.
  intros HM Hu Hv.
  destruct (sample_sub M u HM Hu) as (a & Ha & -> & ->).
  destruct (sample_sub M v HM Hv) as (b & Hb & -> & ->).
  rewrite !sub_of_Z by lia. f_equal. lia.
Qed.

Lemma single_dip_inverted M x bg low a pl pr e :
  0 <= M <= 2 ^ 53 -> Forall (sample M) x ->
  single_dip x bg low a pl pr e ->
  single_bump (map (F64.sub (of_Z M)) x)
              (F64.sub (of_Z M) bg) (F64.sub (of_Z M) low) a pl pr e
  /\ sample M bg /\ sample M low.
Proof.
  intros HM Hall (Ha & Hapl & Hplr & Hpre & He & Hleft & Hfall & Hbottom & Hrise
                    & Hright).
  assert (Hs : forall j, 0 <= j <= len x - 1 -> sample M (get x j))
    by (intros j Hj; apply get_sample; [exact Hall | lia]).
  split; [| split].
  - unfold single_bump; rewrite len_map.
    repeat (split; [assumption |]).
    repeat split; intros j Hj; rewrite ?get_map_sub.
    + now rewrite Hleft.
    + apply sub_antitone; auto; try (apply Hs; lia).
    + now rewrite Hbottom.
    + apply sub_antitone; auto; try (apply Hs; lia).
    + now rewrite Hright.
  - rewrite <- (Hleft a) by lia. apply Hs; lia.
  - rewrite <- (Hbottom pl) by lia. apply Hs; lia.
Qed.

Lemma samples_row M row :
  Forall (fun s => 0 <= s <= M) row -> Forall (sample M) (map of_Z row).
Proof.
  intros H. apply Forall_map. eapply Forall_impl; [| exact H].
  intros s Hs. now exists s.
Qed.

(** The lineout of a single row and of its negative. *)
Lemma single_row_inverted pixbit a row :
  Z.of_N pixbit <= 53 ->
  wf a -> has_bit_depth a pixbit -> rows a = [row] ->
  column_means a = map of_Z row
  /\ Forall (sample (2 ^ Z.of_N pixbit - 1)) (column_means a)
  /\ column_means (inverted pixbit a)
     = map (F64.sub (of_Z (2 ^ Z.of_N pixbit - 1))) (column_means a).
Proof.
  intros Hbits Hwf Hdepth Hrows.
  assert (Hpow : 0 < 2 ^ Z.of_N pixbit <= 2 ^ 53)
    by (split; [apply Z.pow_pos_nonneg; lia | apply Z.pow_le_mono_r; lia]).
  assert (Hcols : ncols a = length row).
  { unfold wf in Hwf. rewrite Hrows in Hwf.
    inversion Hwf as [| ? ? Hlen _]. now symmetry. }
  assert (Hrow : Forall (fun s => 0 <= s <= 2 ^ Z.of_N pixbit - 1) row).
  { unfold has_bit_depth in Hdepth. rewrite Hrows in Hdepth.
    now inversion Hdepth. }
  assert (E : column_means a = map of_Z row)
    by now apply column_means_single_row.
  split; [exact E | split; [rewrite E; now apply samples_row |]].
  rewrite (column_means_single_row (inverted pixbit a)
             (map (fun s => 2 ^ Z.of_N pixbit - 1 - s) row)).
  - rewrite E, !map_map. apply map_ext_in. intros s Hin.
    rewrite Forall_forall in Hrow. specialize (Hrow s Hin).
    symmetry. apply sub_of_Z; lia.
  - unfold inverted; cbn [rows]. now rewrite Hrows.
  - unfold inverted; cbn [ncols]. now rewrite length_map.
Qed.

(** ** The claims about [peak_fwhm] *)

Lemma storable_plain frame pixbit : storable frame pixbit false.
Proof. intros H; discriminate H. Defined.

Lemma frame3_wf : wf frame3.
Proof. repeat constructor. Defined.

(** C1.  When detection finds more than one candidate (each of prominence at
    least [prominence_min]), [peak_fwhm] selects one of them, the first whose
    prominence is maximal among the candidates, prints the multiple-peaks
    warning and computes the width of that peak only; when it finds exactly
    one, that candidate is used and nothing is printed. *)
Theorem peak_fwhm_selects_most_prominent :
  forall frame prominence_min pixbit invert r0 r1 c0 c1 w,
    storable frame pixbit invert ->
    exists r w',
      peak_fwhm frame prominence_min pixbit invert [r0; r1; c0; c1] w
      = (Returned r, w')
      /\ let x := frame_lineout r in
         let peaks := fst (candidates x prominence_min) in
         let proms := prominences (peaks_props r) in
         peaks_props r = snd (candidates x prominence_min)
         /\ length proms = length peaks
         /\ Forall (fun v => F64.leb prominence_min v = true) proms
         /\ ((1 < length peaks)%nat ->
             exists k,
               0 <= k < len proms
               /\ peakmax r = [nth (Z.to_nat k) peaks 0]
               /\ (forall j, 0 <= j < len proms ->
                     F64.leb (get proms j) (get proms k) = true)
               /\ (forall j, 0 <= j < k ->
                     F64.ltb (get proms j) (get proms k) = true)
               /\ stdout w' = stdout w ++ multiple_peaks_warning
               /\ peakwidth r = widths_of x [nth (Z.to_nat k) peaks 0])
         /\ (length peaks = 1%nat ->
             peakmax r = peaks
             /\ stdout w' = stdout w
             /\ peakwidth r = widths_of x peaks).
Proof.
  intros frame pmin pixbit invert r0 r1 c0 c1 w Hs.
  destruct (peak_fwhm_emits frame pmin pixbit invert r0 r1 c0 c1 Hs)
    as [warns Hrun].
  eexists; eexists; split; [apply Hrun |].
  unfold fwhm_of, fwhm_output.
  set (x := column_means (analysed frame pixbit invert r0 r1 c0 c1)).
  cbn [frame_lineout peaks_props peakmax peakwidth stdout extend].
  split; [reflexivity |].
  split; [apply candidates_lengths |].
  split; [apply candidates_threshold |].
  split.
  - intros Hmany.
    assert (Hne : prominences (snd (candidates x pmin)) <> []).
    { intros E. pose proof (candidates_lengths x pmin) as Hl.
      rewrite E in Hl; change (@length f64 []) with 0%nat in Hl.
      rewrite <- Hl in Hmany; lia. }
    destruct (argmax_index_spec _ Hne (candidates_numbers x pmin))
      as (Hk & Hmax & Hfirst).
    exists (argmax_index (prominences (snd (candidates x pmin)))).
    apply Nat.ltb_lt in Hmany.
    unfold selected; rewrite Hmany.
    repeat split; auto; lia.
  - intros Hone.
    unfold selected; rewrite Hone.
    change (1 <? 1)%nat with false; cbv iota.
    rewrite app_nil_r; auto.
Qed.

(** C1 at [two_peaks]: two candidates, the one at column 3 is selected. *)
Lemma peak_fwhm_selects_most_prominent_witness :
  storable two_peaks 8 false
  /\ exists r w',
       peak_fwhm two_peaks (of_Z 1) 8 false [0; 1215; 0; 1935] world0
       = (Returned r, w')
       /\ peakmax r = [3]
       /\ stdout w' = multiple_peaks_warning.
Proof.
  split; [apply storable_plain |].
  destruct (peak_fwhm_selects_most_prominent two_peaks (of_Z 1) 8 false
              0 1215 0 1935 world0 (storable_plain _ _))
    as (r & w' & Hrun & _).
  exists r, w'; split; [exact Hrun |].
  vm_compute in Hrun. injection Hrun as <- <-. split; reflexivity.
Defined.

Example two_peaks_run :
  fst (peak_fwhm two_peaks (of_Z 1) 8 false default_roi world0)
  = Returned
      (mkResult (mkWidths [FNum 1] [FNum 1] [FNum (5 # 2)] [FNum (7 # 2)])
                [3]
                (mkProperties [FNum 1; FNum 2] [0; 2] [2; 4])
                [FNum 0; FNum 1; FNum 0; FNum 2; FNum 0]).
Proof. vm_compute. reflexivity. Qed.

(** C2.  For the selected peak, the width result is computed at relative
    height 0.5, in float64: the height is the peak height minus half the
    prominence reported for that peak; the left and the right position are
    found where the lineout comes down to that height on either side of the
    peak, each interpolated between the first sample at or below the height
    and its neighbour towards the peak, with every sample between the two
    above the height; the width is the right position minus the left; and
    the result carries the width, the height and the two positions. *)
Theorem peak_fwhm_width_at_half_prominence :
  forall frame prominence_min pixbit invert r0 r1 c0 c1 w,
    storable frame pixbit invert ->
    exists r w',
      peak_fwhm frame prominence_min pixbit invert [r0; r1; c0; c1] w
      = (Returned r, w')
      /\ forall p, peakmax r = [p] ->
           let x := frame_lineout r in
           let peaks := fst (candidates x prominence_min) in
           exists (prom h l rt : f64) (i_min i_max i j : Z),
             In p peaks
             /\ prominences (peaks_props r)
                = map (fun q => fst (fst (prominence_data x q))) peaks
             /\ prominence_data x p = (prom, i_min, i_max)
             /\ F64.leb F64.zero prom = true
             /\ h = F64.sub (get x p) (F64.mul prom F64.half)
             /\ F64.leb h (get x p) = true
             /\ peakwidth r = mkWidths [F64.sub rt l] [h] [l] [rt]
             /\ (i_min <= i <= p /\ p <= j <= i_max)
             /\ F64.leb (get x i) h = true
             /\ F64.leb (get x j) h = true
             /\ (forall k, i < k < j -> F64.ltb h (get x k) = true)
             /\ l = (if F64.ltb (get x i) h
                     then F64.add (of_Z i)
                            (F64.div (F64.sub h (get x i))
                                     (F64.sub (get x (i + 1)) (get x i)))
                     else of_Z i)
             /\ rt = (if F64.ltb (get x j) h
                      then F64.sub (of_Z j)
                             (F64.div (F64.sub h (get x j))
                                      (F64.sub (get x (j - 1)) (get x j)))
                      else of_Z j)
             /\ F64.leb (of_Z i) l = true
             /\ F64.leb l (F64.add (of_Z i) (of_Z 1)) = true
             /\ F64.leb (F64.sub (of_Z j) (of_Z 1)) rt = true
             /\ F64.leb rt (of_Z j) = true.
Proof.
  intros frame pmin pixbit invert r0 r1 c0 c1 w Hs.
  destruct (peak_fwhm_emits frame pmin pixbit invert r0 r1 c0 c1 Hs)
    as [warns Hrun].
  eexists; eexists; split; [apply Hrun |].
  unfold fwhm_of.
  set (a := analysed frame pixbit invert r0 r1 c0 c1).
  set (x := column_means a).
  cbn [frame_lineout peaks_props peakmax peakwidth].
  intros p Hsel.
  pose proof (selected_in _ _ p (candidates_lengths x pmin) Hsel) as Hin.
  pose proof (detected_numbers a pmin p Hin) as Hnum; fold x in Hnum.
  assert (Hv : valid_peak x p = true).
  { pose proof (candidates_valid x pmin) as Hall.
    rewrite Forall_forall in Hall; now apply Hall. }
  destruct (width_data_spec x p Hnum (column_means_floats a) Hv)
    as (P & prom & hq & lq & rq & i_min & i_max & i & j & HP & Hdata & Hprom
        & Hh & HhP & Hwidth & Hidx & Hlle & Hrle & Habove & _ & _ & Hl & Hr
        & Hl1 & Hl2 & Hr1 & Hr2).
  exists (FNum prom), (FNum hq), (FNum lq), (FNum rq), i_min, i_max, i, j.
  split; [exact Hin |].
  split; [apply candidates_prominences |].
  split; [exact Hdata |].
  split; [now apply leb_le |].
  split; [exact Hh |].
  split; [rewrite HP; now apply leb_le |].
  split.
  { rewrite Hsel. unfold widths_of, pack_widths; cbn [map].
    rewrite Hwidth. reflexivity. }
  split; [lia |].
  split; [exact Hlle |].
  split; [exact Hrle |].
  split; [exact Habove |].
  split; [exact Hl |].
  split; [exact Hr |].
  unfold of_Z, F64.add, F64.sub, lift2.
  change (inject_Z 1) with 1%Q. rewrite round_1.
  repeat split; apply leb_le; assumption.
Qed.

(** C2 at the middle row of [frame3], the lineout 4, 9, 6: the peak at
    column 1 has prominence 3, the height is 7.5, and the lineout comes
    down to it at 0.7 and at 1.5, each rounded to float64, as is their
    distance. *)
Lemma peak_fwhm_width_at_half_prominence_witness :
  storable frame3 8 false
  /\ exists r w',
       peak_fwhm frame3 (of_Z 1) 8 false [1; 2; 0; 3] world0
       = (Returned r, w')
       /\ peakmax r = [1]
       /\ peakwidth r
          = mkWidths [FNum (3602879701896397 # 4503599627370496)]
                     [FNum (15 # 2)]
                     [FNum (3152519739159347 # 4503599627370496)]
                     [FNum (3 # 2)].
Proof.
  split; [apply storable_plain |].
  destruct (peak_fwhm_width_at_half_prominence frame3 (of_Z 1) 8 false
              1 2 0 3 world0 (storable_plain _ _))
    as (r & w' & Hrun & _).
  exists r, w'; split; [exact Hrun |].
  vm_compute in Hrun. injection Hrun as <- <-. split; reflexivity.
Defined.

(** C3.  [peak_fwhm] returns normally on every frame; when detection yields
    no candidate (as on a flat lineout, whatever [prominence_min]) the
    returned peak list and the four width arrays are empty and nothing is
    printed, whereas a run with one candidate returns lists of length one. *)
Theorem peak_fwhm_no_peak :
  forall frame prominence_min pixbit invert r0 r1 c0 c1 w,
    storable frame pixbit invert ->
    exists r w',
      peak_fwhm frame prominence_min pixbit invert [r0; r1; c0; c1] w
      = (Returned r, w')
      /\ let peaks := fst (candidates (frame_lineout r) prominence_min) in
         (peaks = [] ->
          peakmax r = []
          /\ peakwidth r = mkWidths [] [] [] []
          /\ peaks_props r = mkProperties [] [] []
          /\ stdout w' = stdout w)
         /\ (length peaks = 1%nat ->
             length (peakmax r) = 1%nat
             /\ length (widths_ (peakwidth r)) = 1%nat)
         /\ (forall c n, frame_lineout r = repeat c n -> peaks = []).
Proof.
  intros frame pmin pixbit invert r0 r1 c0 c1 w Hs.
  destruct (peak_fwhm_emits frame pmin pixbit invert r0 r1 c0 c1 Hs)
    as [warns Hrun].
  eexists; eexists; split; [apply Hrun |].
  unfold fwhm_of, fwhm_output.
  set (x := column_means (analysed frame pixbit invert r0 r1 c0 c1)).
  cbn [frame_lineout peaks_props peakmax peakwidth stdout extend].
  split; [| split].
  - intros E. rewrite (candidates_none _ _ E), E.
    unfold selected; cbn. rewrite app_nil_r. repeat split; reflexivity.
  - intros Hone.
    assert (Hsel : selected (fst (candidates x pmin)) (snd (candidates x pmin))
                   = fst (candidates x pmin))
      by (unfold selected; rewrite Hone; reflexivity).
    rewrite Hsel. unfold widths_of, pack_widths; cbn [widths_].
    rewrite !length_map. auto.
  - intros c n E; rewrite E; apply candidates_flat.
Qed.

(** C3 at [flat_frame]: no candidate, empty lists. *)
Lemma peak_fwhm_no_peak_witness :
  storable flat_frame 8 true
  /\ exists r w',
       peak_fwhm flat_frame (of_Z 25) 8 true [0; 1215; 0; 1935] world0
       = (Returned r, w')
       /\ peakmax r = []
       /\ peakwidth r = mkWidths [] [] [] [].
Proof.
  assert (Hs : storable flat_frame 8 true)
    by (intros _; vm_compute; discriminate).
  split; [exact Hs |].
  destruct (peak_fwhm_no_peak flat_frame (of_Z 25) 8 true
              0 1215 0 1935 world0 Hs)
    as (r & w' & Hrun & _).
  exists r, w'; split; [exact Hrun |].
  vm_compute in Hrun. injection Hrun as <- <-. split; reflexivity.
Defined.

Example empty_rows_run :
  peak_fwhm two_peaks (of_Z 1) 8 false [2; 1; 0; 5] world0
  = (Returned
       (mkResult (mkWidths [] [] [] []) [] (mkProperties [] [] [])
                 [FNaN; FNaN; FNaN; FNaN; FNaN]),
     with_warnings world0 [MeanOfEmptySlice; InvalidValueInDivide]).
Proof. vm_compute. reflexivity. Qed.

(** C4.  For a cropped region with at least one row, the lineout has one
    entry per column of the region, and each entry is a number: in a region
    of several columns the samples of that column (the inverted samples when
    [invert] is set) are added in float64, row after row from the first, and
    the sum is divided by the number of rows.  Where the samples add up to
    no more than 2**53 the sum is exact, and the entry is the arithmetic
    mean of the column rounded to the nearest float64. *)
Theorem peak_fwhm_lineout_is_column_mean :
  forall frame prominence_min pixbit invert r0 r1 c0 c1 w,
    storable frame pixbit invert ->
    let region := analysed frame pixbit invert r0 r1 c0 c1 in
    rows region <> [] ->
    exists r w',
      peak_fwhm frame prominence_min pixbit invert [r0; r1; c0; c1] w
      = (Returned r, w')
      /\ length (frame_lineout r) = ncols region
      /\ forall j, (j < ncols region)%nat ->
           let n := length (rows region) in
           let s i := nth j (nth i (rows region) []) 0 in
           ((1 < ncols region)%nat ->
            nth j (frame_lineout r) FNaN
            = F64.div (fold_left (fun acc i => F64.add acc (of_Z (s i)))
                                 (seq 0 n) F64.zero)
                      (of_Z (Z.of_nat n)))
           /\ is_num (nth j (frame_lineout r) FNaN) = true
           /\ ((forall i, (i < n)%nat -> 0 <= s i) ->
               zsum (map s (seq 0 n)) <= 2 ^ 53 ->
               Z.of_nat n <= 2 ^ 53 ->
               nth j (frame_lineout r) FNaN
               = FNum (round (inject_Z (zsum (map s (seq 0 n)))
                              / inject_Z (Z.of_nat n)))).
Proof.
  intros frame pmin pixbit invert r0 r1 c0 c1 w Hs region Hrows.
  destruct (peak_fwhm_emits frame pmin pixbit invert r0 r1 c0 c1 Hs)
    as [warns Hrun].
  eexists; eexists; split; [apply Hrun |].
  split; [apply length_column_means |].
  change (frame_lineout (fwhm_of frame pmin pixbit invert r0 r1 c0 c1))
    with (column_means region).
  intros j Hj n s.
  assert (Hcol : column region j = map s (seq 0 n))
    by (unfold column, s, n;
        now rewrite (map_nth_seq (fun row => nth j row 0) (rows region) [])).
  assert (Hn : 0 < Z.of_nat n)
    by (unfold n; destruct (rows region); [congruence | simpl; lia]).
  rewrite (nth_column_means _ _ Hj). fold n.
  split; [| split].
  - intros _. unfold sum_f64. rewrite Hcol. f_equal.
    exact (fold_left_map (fun acc v => F64.add acc (of_Z v)) s (seq 0 n)
                         F64.zero).
  - apply div_by_count; [apply sum_f64_num | exact Hn].
  - intros Hpos Hsum Hsmall. rewrite Hcol.
    assert (Hall : Forall (fun v => 0 <= v) (map s (seq 0 n))).
    { apply Forall_map, Forall_forall. intros i Hi.
      apply in_seq in Hi. apply Hpos; lia. }
    rewrite sum_f64_exact by assumption.
    pose proof (zsum_nonneg _ Hall) as H0.
    rewrite div_of_Z by exact Hn.
    now rewrite (round_Z (zsum _)), (round_Z (Z.of_nat n)) by lia.
Qed.

(** C4 at [frame3]: the columns add up to 12, 19 and 18 over three rows, and
    the middle entry is 19/3 rounded to float64. *)
Lemma peak_fwhm_lineout_is_column_mean_witness :
  storable frame3 8 false
  /\ rows (analysed frame3 8 false 0 1215 0 1935) <> []
  /\ exists r w',
       peak_fwhm frame3 (of_Z 1) 8 false [0; 1215; 0; 1935] world0
       = (Returned r, w')
       /\ frame_lineout r
          = [FNum 4; FNum (7130699410003285 # 1125899906842624); FNum 6]
       /\ nth 1 (frame_lineout r) FNaN = FNum (round (19 # 3)).
Proof.
  assert (Hrows : rows (analysed frame3 8 false 0 1215 0 1935) <> [])
    by (vm_compute; discriminate).
  split; [apply storable_plain | split; [exact Hrows |]].
  destruct (peak_fwhm_lineout_is_column_mean frame3 (of_Z 1) 8 false
              0 1215 0 1935 world0 (storable_plain _ _) Hrows)
    as (r & w' & Hrun & Hlen & Hmean).
  exists r, w'; split; [exact Hrun |].
  assert (Hj : (1 < ncols (analysed frame3 8 false 0 1215 0 1935))%nat)
    by (vm_compute; lia).
  destruct (Hmean 1%nat Hj) as (_ & _ & Hexact).
  split.
  - vm_compute in Hrun. injection Hrun as <- <-. reflexivity.
  - rewrite Hexact.
    + apply f_equal, round_comp. vm_compute. reflexivity.
    + intros i Hi.
      assert (Hi3 : (i < 3)%nat) by exact Hi.
      destruct i as [| [| [| i]]]; [vm_compute; discriminate .. | lia].
    + vm_compute. discriminate.
    + vm_compute. discriminate.
Defined.

(** C5, as the code has it.  With [invert] set, every sample [s] of the
    crop is replaced by [(2**pixbit - 1) - s] before the lineout is taken,
    for a frame of bit depth [pixbit]; without [invert], [pixbit] has no
    effect on the run.  When the lineout of the inverted samples is flat at
    [lo] but for a single bump up to [hi], with [hi - lo] in float64 at least
    [prominence_min], the run detects a single peak, at the middle of the
    bump's top, of prominence [hi - lo].  When the crop is a single row of
    at most 53 bits per sample and its lineout is flat at [bg] but for a
    single dip down to [low], of depth [bg - low] at least [prominence_min],
    the inverted run detects a single peak, at the middle of the dip's
    bottom, of prominence [bg - low]. *)
Theorem peak_fwhm_invert :
  (forall frame prominence_min pixbit r0 r1 c0 c1 w,
      Z.of_N pixbit <= bits (arr_dtype frame) ->
      has_bit_depth frame pixbit ->
      exists r w',
        peak_fwhm frame prominence_min pixbit true [r0; r1; c0; c1] w
        = (Returned r, w')
        /\ frame_lineout r
           = column_means (inverted pixbit (crop frame r0 r1 c0 c1)))
  /\ (forall frame prominence_min pixbit pixbit' roi,
        peak_fwhm frame prominence_min pixbit false roi
        = peak_fwhm frame prominence_min pixbit' false roi)
  /\ (forall frame prominence_min pixbit r0 r1 c0 c1 w lo hi a pl pr e,
        Z.of_N pixbit <= bits (arr_dtype frame) ->
        has_bit_depth frame pixbit ->
        single_bump (column_means (inverted pixbit (crop frame r0 r1 c0 c1)))
                    lo hi a pl pr e ->
        F64.leb prominence_min (F64.sub hi lo) = true ->
        exists r w',
          peak_fwhm frame prominence_min pixbit true [r0; r1; c0; c1] w
          = (Returned r, w')
          /\ fst (candidates (frame_lineout r) prominence_min)
             = [(pl + pr) / 2]
          /\ prominences (peaks_props r) = [F64.sub hi lo]
          /\ left_bases (peaks_props r) = [a]
          /\ right_bases (peaks_props r) = [e]
          /\ peakmax r = [(pl + pr) / 2]
          /\ stdout w' = stdout w)
  /\ (forall frame prominence_min pixbit r0 r1 c0 c1 w bg low a pl pr e,
        wf frame ->
        Z.of_N pixbit <= bits (arr_dtype frame) ->
        Z.of_N pixbit <= 53 ->
        has_bit_depth frame pixbit ->
        length (rows (crop frame r0 r1 c0 c1)) = 1%nat ->
        single_dip (column_means (crop frame r0 r1 c0 c1)) bg low a pl pr e ->
        F64.leb prominence_min (F64.sub bg low) = true ->
        exists r w',
          peak_fwhm frame prominence_min pixbit true [r0; r1; c0; c1] w
          = (Returned r, w')
          /\ fst (candidates (frame_lineout r) prominence_min)
             = [(pl + pr) / 2]
          /\ prominences (peaks_props r) = [F64.sub bg low]
          /\ left_bases (peaks_props r) = [a]
          /\ right_bases (peaks_props r) = [e]
          /\ peakmax r = [(pl + pr) / 2]
          /\ stdout w' = stdout w).
Proof.
  assert (Hlineout : forall frame pixbit r0 r1 c0 c1,
             Z.of_N pixbit <= bits (arr_dtype frame) ->
             has_bit_depth frame pixbit ->
             column_means (analysed frame pixbit true r0 r1 c0 c1)
             = column_means (inverted pixbit (crop frame r0 r1 c0 c1))).
  { intros frame pixbit r0 r1 c0 c1 Hfit Hdepth. unfold analysed.
    rewrite rsub_values_exact;
      [reflexivity | exact Hfit | now apply crop_bit_depth]. }
  assert (Hbump : forall frame pmin pixbit r0 r1 c0 c1 w lo hi a pl pr e,
             Z.of_N pixbit <= bits (arr_dtype frame) ->
             has_bit_depth frame pixbit ->
             single_bump
               (column_means (inverted pixbit (crop frame r0 r1 c0 c1)))
               lo hi a pl pr e ->
             F64.leb pmin (F64.sub hi lo) = true ->
             exists r w',
               peak_fwhm frame pmin pixbit true [r0; r1; c0; c1] w
               = (Returned r, w')
               /\ fst (candidates (frame_lineout r) pmin) = [(pl + pr) / 2]
               /\ prominences (peaks_props r) = [F64.sub hi lo]
               /\ left_bases (peaks_props r) = [a]
               /\ right_bases (peaks_props r) = [e]
               /\ peakmax r = [(pl + pr) / 2]
               /\ stdout w' = stdout w).
  { intros frame pmin pixbit r0 r1 c0 c1 w lo hi a pl pr e
           Hfit Hdepth Hshape Hpass.
    destruct (peak_fwhm_emits frame pmin pixbit true r0 r1 c0 c1
                (fun _ => Hfit)) as [warns Hrun].
    eexists; eexists; split; [apply Hrun |].
    unfold fwhm_of, fwhm_output.
    rewrite Hlineout by assumption.
    cbn [frame_lineout peaks_props peakmax stdout extend].
    rewrite (candidates_single_bump _ _ _ _ _ _ _ Hshape pmin Hpass).
    cbn [fst snd prominences left_bases right_bases].
    unfold selected; cbn [length Nat.ltb Nat.leb].
    rewrite app_nil_r. repeat split; reflexivity. }
  split; [| split; [| split]].
  - intros frame pmin pixbit r0 r1 c0 c1 w Hfit Hdepth.
    destruct (peak_fwhm_emits frame pmin pixbit true r0 r1 c0 c1
                (fun _ => Hfit)) as [warns Hrun].
    eexists; eexists; split; [apply Hrun |].
    unfold fwhm_of; cbn [frame_lineout]. now apply Hlineout.
  - reflexivity.
  - exact Hbump.
  - intros frame pmin pixbit r0 r1 c0 c1 w bg low a pl pr e
           Hwf Hfit Hbits Hdepth Hone Hshape Hpass.
    set (c := crop frame r0 r1 c0 c1) in *.
    destruct (rows c) as [| row [| row' rest]] eqn:Hrows; try discriminate.
    assert (HM : 0 <= 2 ^ Z.of_N pixbit - 1 <= 2 ^ 53).
    { assert (0 < 2 ^ Z.of_N pixbit) by (apply Z.pow_pos_nonneg; lia).
      assert (2 ^ Z.of_N pixbit <= 2 ^ 53) by (apply Z.pow_le_mono_r; lia).
      lia. }
    destruct (single_row_inverted pixbit c row Hbits
                (crop_wf _ _ _ _ _ Hwf) (crop_bit_depth _ _ _ _ _ _ Hdepth)
                Hrows) as (_ & Hsamples & Hinv).
    destruct (single_dip_inverted _ _ _ _ _ _ _ _ HM Hsamples Hshape)
      as (Hshape' & Hbg & Hlow).
    rewrite <- Hinv in Hshape'.
    rewrite <- (sub_sub_cancel _ bg low HM Hbg Hlow) in Hpass |- *.
    now apply Hbump.
Qed.

(** C5 at two 8-bit frames: two rows whose lineout is 9 but for a dip to 5
    at column 3, and one row, 9 but for a dip to 5 at columns 2 and 3. *)
Lemma peak_fwhm_invert_witness :
  (Z.of_N 8 <= bits (arr_dtype dip_example)
   /\ has_bit_depth dip_example 8
   /\ single_bump
        (column_means (inverted 8 (crop dip_example 0 1215 0 1935)))
        (of_Z 246) (of_Z 250) 1 3 3 5
   /\ F64.leb (of_Z 1) (F64.sub (of_Z 250) (of_Z 246)) = true
   /\ exists r w',
        peak_fwhm dip_example (of_Z 1) 8 true [0; 1215; 0; 1935] world0
        = (Returned r, w')
        /\ frame_lineout r
           = column_means (inverted 8 (crop dip_example 0 1215 0 1935))
        /\ prominences (peaks_props r) = [of_Z 4]
        /\ peakmax r = [3])
  /\ (wf dip_row
      /\ Z.of_N 8 <= 53
      /\ length (rows (crop dip_row 0 1215 0 1935)) = 1%nat
      /\ single_dip (column_means (crop dip_row 0 1215 0 1935))
                    (of_Z 9) (of_Z 5) 1 2 3 4
      /\ exists r w',
           peak_fwhm dip_row (of_Z 1) 8 true [0; 1215; 0; 1935] world0
           = (Returned r, w')
           /\ prominences (peaks_props r) = [of_Z 4]
           /\ peakmax r = [2]).
Proof.
  assert (Hfit : Z.of_N 8 <= bits (arr_dtype dip_example))
    by (vm_compute; discriminate).
  assert (Hdepth : has_bit_depth dip_example 8).
  { unfold has_bit_depth, dip_example; cbn [rows].
    repeat constructor; vm_compute; discriminate. }
  assert (Hdepth' : has_bit_depth dip_row 8).
  { unfold has_bit_depth, dip_row; cbn [rows].
    repeat constructor; vm_compute; discriminate. }
  assert (Hshape : single_bump
                     (column_means
                        (inverted 8 (crop dip_example 0 1215 0 1935)))
                     (of_Z 246) (of_Z 250) 1 3 3 5).
  { replace (column_means (inverted 8 (crop dip_example 0 1215 0 1935)))
      with (map of_Z [246; 246; 248; 250; 248; 246; 246])
      by (vm_compute; reflexivity).
    unfold single_bump.
    repeat (split; [vm_compute; first [reflexivity | discriminate] |]).
    repeat split; intros j Hj.
    - assert (E : j = 0 \/ j = 1) by lia.
      destruct E as [-> | ->]; reflexivity.
    - assert (E : j = 2 \/ j = 3) by lia.
      destruct E as [-> | ->]; reflexivity.
    - assert (E : j = 3) by lia. subst j; reflexivity.
    - assert (E : j = 3 \/ j = 4) by lia.
      destruct E as [-> | ->]; reflexivity.
    - assert (E : j = 5 \/ j = 6)
        by (change (len (map of_Z [246; 246; 248; 250; 248; 246; 246]))
              with 7 in Hj; lia).
      destruct E as [-> | ->]; reflexivity. }
  assert (Hdip : single_dip (column_means (crop dip_row 0 1215 0 1935))
                            (of_Z 9) (of_Z 5) 1 2 3 4).
  { replace (column_means (crop dip_row 0 1215 0 1935))
      with (map of_Z [9; 9; 5; 5; 9; 9]) by (vm_compute; reflexivity).
    unfold single_dip.
    repeat (split; [vm_compute; first [reflexivity | discriminate] |]).
    repeat split; intros j Hj.
    - assert (E : j = 0 \/ j = 1) by lia.
      destruct E as [-> | ->]; reflexivity.
    - assert (E : j = 2) by lia. subst j; reflexivity.
    - assert (E : j = 2 \/ j = 3) by lia.
      destruct E as [-> | ->]; reflexivity.
    - assert (E : j = 3) by lia. subst j; reflexivity.
    - assert (E : j = 4 \/ j = 5)
        by (change (len (map of_Z [9; 9; 5; 5; 9; 9])) with 6 in Hj; lia).
      destruct E as [-> | ->]; reflexivity. }
  assert (Hpass : F64.leb (of_Z 1) (F64.sub (of_Z 250) (of_Z 246)) = true)
    by reflexivity.
  assert (Hwf : wf dip_row) by (repeat constructor).
  assert (Hbits : Z.of_N 8 <= 53) by (vm_compute; discriminate).
  assert (Hone : length (rows (crop dip_row 0 1215 0 1935)) = 1%nat)
    by reflexivity.
  destruct peak_fwhm_invert as (Hinv & _ & Hbump & Hrow).
  split.
  - repeat (split; [assumption |]).
    destruct (Hbump dip_example (of_Z 1) 8%N 0 1215 0 1935 world0
                (of_Z 246) (of_Z 250) 1 3 3 5 Hfit Hdepth Hshape Hpass)
      as (r & w' & Hrun & _ & Hprom & _ & _ & Hmax & _).
    destruct (Hinv dip_example (of_Z 1) 8%N 0 1215 0 1935 world0 Hfit Hdepth)
      as (r2 & w2 & Hrun2 & Hline).
    assert (E : r2 = r) by congruence. subst r2.
    exists r, w'; split; [exact Hrun |].
    split; [exact Hline |]. split; [exact Hprom | exact Hmax].
  - repeat (split; [assumption |]).
    destruct (Hrow dip_row (of_Z 1) 8%N 0 1215 0 1935 world0
                (of_Z 9) (of_Z 5) 1 2 3 4 Hwf
                ltac:(vm_compute; discriminate) Hbits Hdepth' Hone Hdip
                eq_refl)
      as (r & w' & Hrun & _ & Hprom & _ & _ & Hmax & _).
    exists r, w'; split; [exact Hrun |].
    split; [exact Hprom | exact Hmax].
Defined.

(** C5 as stated fails in float64.  Over three rows the columns of
    [dip_thirds] add up to 742, 667 and 742: the lineout is flat at 742/3
    but for a dip to 667/3, of depth 25.0 as float64 computes it.  The
    inverted columns add up to 23, 98 and 23, and 98/3 - 23/3 is
    24.999999999999996 in float64: with [prominence_min] 25 no peak is
    found. *)
Lemma peak_fwhm_invert_counterexample :
  ~ (forall frame prominence_min pixbit r0 r1 c0 c1 w bg low a pl pr e,
        wf frame ->
        Z.of_N pixbit <= bits (arr_dtype frame) ->
        has_bit_depth frame pixbit ->
        single_dip (column_means (crop frame r0 r1 c0 c1)) bg low a pl pr e ->
        F64.leb prominence_min (F64.sub bg low) = true ->
        exists r w',
          peak_fwhm frame prominence_min pixbit true [r0; r1; c0; c1] w
          = (Returned r, w')
          /\ prominences (peaks_props r) = [F64.sub bg low]
          /\ peakmax r = [(pl + pr) / 2]).
Proof.
  intros H.
  assert (Hwf : wf dip_thirds) by (repeat constructor).
  assert (Hfit : Z.of_N 8 <= bits (arr_dtype dip_thirds))
    by (vm_compute; discriminate).
  assert (Hdepth : has_bit_depth dip_thirds 8).
  { unfold has_bit_depth, dip_thirds; cbn [rows].
    repeat constructor; vm_compute; discriminate. }
  assert (Hdip : single_dip (column_means (crop dip_thirds 0 1215 0 1935))
                            (FNum (round (742 # 3))) (FNum (round (667 # 3)))
                            0 1 1 2).
  { replace (column_means (crop dip_thirds 0 1215 0 1935))
      with [FNum (round (742 # 3)); FNum (round (667 # 3));
            FNum (round (742 # 3))] by (vm_compute; reflexivity).
    unfold single_dip.
    repeat (split; [vm_compute; first [reflexivity | discriminate] |]).
    repeat split; intros j Hj.
    - assert (E : j = 0) by lia. subst j; reflexivity.
    - assert (E : j = 1) by lia. subst j; vm_compute; reflexivity.
    - assert (E : j = 1) by lia. subst j; reflexivity.
    - assert (E : j = 1) by lia. subst j; vm_compute; reflexivity.
    - assert (E : j = 2) by (unfold len in Hj; cbn [length] in Hj; lia).
      subst j; reflexivity. }
  assert (Hpass : F64.leb (of_Z 25)
                          (F64.sub (FNum (round (742 # 3)))
                                   (FNum (round (667 # 3)))) = true)
    by (vm_compute; reflexivity).
  destruct (H dip_thirds (of_Z 25) 8%N 0 1215 0 1935 world0 _ _ 0 1 1 2
              Hwf Hfit Hdepth Hdip Hpass)
    as (r & w' & Hrun & Hprom & _).
  vm_compute in Hrun. injection Hrun as <- _.
  discriminate Hprom.
Qed.

(** The three steps of that run: the depth of the dip is 25, the height of
    the inverted bump is less, and no peak passes the threshold. *)
Example dip_thirds_run :
  F64.sub (FNum (round (742 # 3))) (FNum (round (667 # 3))) = FNum 25
  /\ F64.sub (FNum (round (98 # 3))) (FNum (round (23 # 3)))
     = FNum (7036874417766399 # 281474976710656)
  /\ fst (peak_fwhm dip_thirds (of_Z 25) 8 true default_roi world0)
     = Returned
         (mkResult (mkWidths [] [] [] []) [] (mkProperties [] [] [])
                   [FNum (round (23 # 3)); FNum (round (98 # 3));
                    FNum (round (23 # 3))]).
Proof. vm_compute. repeat split; reflexivity. Qed.

(** A sample above [2**pixbit - 1] is not replaced by
    [(2**pixbit - 1) - s]: the subtraction wraps around in the frame's
    dtype. *)
Example inverted_wraps_run :
  fst (peak_fwhm (mkArray uint16 1 [[1000]]) (of_Z 1) 8 true default_roi
                 world0)
  = Returned
      (mkResult (mkWidths [] [] [] []) [] (mkProperties [] [] [])
                [FNum 64791]).
Proof. vm_compute. reflexivity. Qed.

Example inverted_run :
  fst (peak_fwhm (mkArray uint8 6 [[9; 9; 5; 5; 9; 9]]) (of_Z 1) 8 true
                 default_roi world0)
  = Returned
      (mkResult (mkWidths [FNum 2] [FNum 248] [FNum (3 # 2)] [FNum (7 # 2)])
                [2]
                (mkProperties [FNum 4] [1] [4])
                [FNum 246; FNum 246; FNum 250; FNum 250; FNum 246; FNum 246]).
Proof. vm_compute. reflexivity. Qed.

Example overflow_run :
  fst (peak_fwhm two_peaks (of_Z 1) 16 true default_roi world0)
  = Raised OverflowError.
Proof. vm_compute. reflexivity. Qed.

(** C6.  The peak-index list and the four width arrays that [peak_fwhm]
    returns have at most one entry, while the returned properties describe
    every candidate detection found: one prominence and one pair of bases per
    candidate, also when there are several. *)
Theorem peak_fwhm_result_lengths :
  forall frame prominence_min pixbit invert r0 r1 c0 c1 w,
    storable frame pixbit invert ->
    exists r w',
      peak_fwhm frame prominence_min pixbit invert [r0; r1; c0; c1] w
      = (Returned r, w')
      /\ (length (peakmax r) <= 1)%nat
      /\ length (widths_ (peakwidth r)) = length (peakmax r)
      /\ length (width_heights (peakwidth r)) = length (peakmax r)
      /\ length (left_ips (peakwidth r)) = length (peakmax r)
      /\ length (right_ips (peakwidth r)) = length (peakmax r)
      /\ let found := candidates (frame_lineout r) prominence_min in
         peaks_props r = snd found
         /\ length (prominences (peaks_props r)) = length (fst found)
         /\ length (left_bases (peaks_props r)) = length (fst found)
         /\ length (right_bases (peaks_props r)) = length (fst found)
         /\ ((1 < length (fst found))%nat ->
             length (peakmax r) = 1%nat
             /\ (1 < length (prominences (peaks_props r)))%nat).
Proof.
  intros frame pmin pixbit invert r0 r1 c0 c1 w Hs.
  destruct (peak_fwhm_emits frame pmin pixbit invert r0 r1 c0 c1 Hs)
    as [warns Hrun].
  eexists; eexists; split; [apply Hrun |].
  unfold fwhm_of.
  set (x := column_means (analysed frame pixbit invert r0 r1 c0 c1)).
  cbn [frame_lineout peaks_props peakmax peakwidth].
  unfold widths_of, pack_widths;
    cbn [widths_ width_heights left_ips right_ips].
  rewrite !length_map.
  pose proof (select_by_prominence_lengths pmin (detected x)
                (map (prominence_data x) (detected x))) as (Hp & Hl & Hr).
  fold (candidates x pmin) in Hp, Hl, Hr.
  split; [apply selected_length |].
  repeat (split; [reflexivity |]).
  repeat (split; [assumption |]).
  intros Hmany; unfold selected.
  rewrite Hp.
  apply Nat.ltb_lt in Hmany; rewrite Hmany.
  apply Nat.ltb_lt in Hmany; split; [reflexivity | exact Hmany].
Qed.

(** C6 at [two_peaks]: one peak returned, two prominences reported. *)
Lemma peak_fwhm_result_lengths_witness :
  storable two_peaks 8 false
  /\ exists r w',
       peak_fwhm two_peaks (of_Z 1) 8 false [0; 1215; 0; 1935] world0
       = (Returned r, w')
       /\ length (peakmax r) = 1%nat
       /\ length (prominences (peaks_props r)) = 2%nat.
Proof.
  split; [apply storable_plain |].
  destruct (peak_fwhm_result_lengths two_peaks (of_Z 1) 8 false
              0 1215 0 1935 world0 (storable_plain _ _))
    as (r & w' & Hrun & _).
  exists r, w'; split; [exact Hrun |].
  vm_compute in Hrun. injection Hrun as <- <-. split; reflexivity.
Defined.

(** C9, as the code has it.  [peak_fwhm] raises no error, whatever the
    bounds of the region of interest.  Non-negative bounds beyond the frame
    are clamped to its extent (the default [0, 1215, 0, 1935] on a smaller
    frame selects the whole frame) and the lineout is taken over the clamped
    region; with non-negative bounds and [row_max <= row_min] the crop has no
    rows, with [col_max <= col_min] it has no columns. *)
Theorem peak_fwhm_roi_clamped :
  forall frame prominence_min pixbit invert r0 r1 c0 c1 w,
    wf frame ->
    storable frame pixbit invert ->
    let R := Z.of_nat (length (rows frame)) in
    let C := Z.of_nat (ncols frame) in
    let region := crop frame r0 r1 c0 c1 in
    (exists r w',
        peak_fwhm frame prominence_min pixbit invert [r0; r1; c0; c1] w
        = (Returned r, w')
        /\ frame_lineout r
           = column_means (if invert
                           then rsub_values (2 ^ Z.of_N pixbit - 1) region
                           else region))
    /\ wf region
    /\ (0 <= r0 -> 0 <= r1 -> 0 <= c0 -> 0 <= c1 ->
        length (rows region) = Z.to_nat (Z.min r1 R - Z.min r0 R)
        /\ ncols region = Z.to_nat (Z.min c1 C - Z.min c0 C)
        /\ (forall i j,
              (i < length (rows region))%nat -> (j < ncols region)%nat ->
              nth j (nth i (rows region) []) 0
              = nth (Z.to_nat (Z.min c0 C) + j)
                    (nth (Z.to_nat (Z.min r0 R) + i) (rows frame) []) 0)
        /\ (r0 = 0 -> c0 = 0 -> R <= r1 -> C <= c1 -> region = frame)
        /\ (r1 <= r0 -> rows region = [])
        /\ (c1 <= c0 ->
            ncols region = 0%nat
            /\ Forall (fun row => row = []) (rows region))).
Proof.
  intros frame pmin pixbit invert r0 r1 c0 c1 w Hwf Hs R C region.
  split; [| split].
  - destruct (peak_fwhm_emits frame pmin pixbit invert r0 r1 c0 c1 Hs)
      as [warns Hrun].
    eexists; eexists; split; [apply Hrun | reflexivity].
  - now apply crop_wf.
  - intros Hr0 Hr1 Hc0 Hc1.
    split; [| split; [| split; [| split; [| split]]]].
    + unfold region; rewrite crop_rows_length; unfold slice_len.
      now rewrite !adjust_index_nonneg by assumption.
    + unfold region, crop, slice_len; cbn [ncols].
      now rewrite !adjust_index_nonneg by assumption.
    + intros i j Hi Hj. unfold region; rewrite crop_entry by assumption.
      now rewrite !adjust_index_nonneg by assumption.
    + intros -> -> HR HC. now apply crop_default.
    + intros Hle. unfold region, crop; cbn [rows].
      now rewrite (slice_empty (rows frame)) by assumption.
    + intros Hle. unfold region, crop; cbn [rows ncols]. split.
      * unfold slice_len; rewrite !adjust_index_nonneg by assumption. lia.
      * apply Forall_map, Forall_forall; intros row _.
        now apply slice_empty.
Qed.

(** C9 at [frame3] and the default region of interest. *)
Lemma peak_fwhm_roi_clamped_witness :
  wf frame3
  /\ storable frame3 8 false
  /\ crop frame3 0 1215 0 1935 = frame3
  /\ exists r w',
       peak_fwhm frame3 (of_Z 1) 8 false [0; 1215; 0; 1935] world0
       = (Returned r, w').
Proof.
  split; [exact frame3_wf | split; [apply storable_plain |]].
  destruct (peak_fwhm_roi_clamped frame3 (of_Z 1) 8 false 0 1215 0 1935
              world0 frame3_wf (storable_plain _ _))
    as ((r & w' & Hrun & _) & _ & Hclamp).
  split.
  - assert (H0 : 0 <= 0) by (vm_compute; discriminate).
    assert (H1 : 0 <= 1215) by (vm_compute; discriminate).
    assert (H2 : 0 <= 1935) by (vm_compute; discriminate).
    destruct (Hclamp H0 H1 H0 H2) as (_ & _ & _ & Hall & _).
    apply Hall; try reflexivity; vm_compute; discriminate.
  - exists r, w'; exact Hrun.
Defined.

Example short_roi_run :
  fst (peak_fwhm two_peaks (of_Z 1) 8 false [0; 2; 0] world0)
  = Raised IndexError.
Proof. vm_compute. reflexivity. Qed.

(** C9 as stated fails for a negative bound, which counts from the end of
    the axis: on a 3 x 3 frame the region [1, -1, 0, 3] has
    [row_max <= row_min], and the crop is the middle row. *)
Lemma crop_negative_bound_counterexample :
  ~ (forall frame r0 r1 c0 c1,
        wf frame -> r1 <= r0 \/ c1 <= c0 ->
        rows (crop frame r0 r1 c0 c1) = []
        \/ ncols (crop frame r0 r1 c0 c1) = 0%nat).
Proof.
  intros H.
  assert (Hle : -1 <= 1) by (vm_compute; discriminate).
  destruct (H frame3 1 (-1) 0 3 frame3_wf (or_introl Hle)) as [E | E];
    vm_compute in E; discriminate E.
Qed.

Example negative_bound_run :
  fst (peak_fwhm frame3 (of_Z 1) 8 false [1; -1; 0; 3] world0)
  = Returned
      (mkResult (mkWidths [FNum (3602879701896397 # 4503599627370496)]
                          [FNum (15 # 2)]
                          [FNum (3152519739159347 # 4503599627370496)]
                          [FNum (3 # 2)])
                [1]
                (mkProperties [FNum 3] [0] [2])
                [FNum 4; FNum 9; FNum 6]).
Proof. vm_compute. reflexivity. Qed.

(** ** Command line: [parse_args] and [get_camera] *)

Lemma emits_print_usage : emits print_usage (Returned tt) usage_lines [].
Proof. apply emits_print_all. Qed.

Lemma help_loop_found args :
  existsb is_help args = true ->
  emits (help_loop args) (Raised (SystemExit 0)) usage_lines [].
Proof.
  induction args as [| arg rest IH]; simpl; [discriminate |].
  destruct (is_help arg); simpl; [intros _ | exact IH].
  rewrite <- (app_nil_r usage_lines).
  change (@nil warning) with (@nil warning ++ []).
  eapply emits_bind; [apply emits_print_usage | apply emits_raise].
Qed.

Lemma help_loop_absent args :
  existsb is_help args = false -> help_loop args = ret tt.
Proof.
  induction args as [| arg rest IH]; simpl; [reflexivity |].
  destruct (is_help arg); simpl; [discriminate | exact IH].
Qed.

Lemma emits_abort {A} reason code :
  emits (@abort A reason code true) (Raised (SystemExit code))
        ((reason ++ newline)%string :: usage_lines) [].
Proof.
  unfold abort.
  change ((reason ++ newline)%string :: usage_lines)
    with ([(reason ++ newline)%string] ++ usage_lines).
  change (@nil warning) with (@nil warning ++ []).
  eapply emits_bind; [apply emits_print |].
  rewrite <- (app_nil_r usage_lines).
  change (@nil warning) with (@nil warning ++ []).
  eapply emits_bind; [apply emits_print_usage | apply emits_raise].
Qed.

Lemma parse_args_unfold w :
  parse_args w
  = (let args := skipn 1 (sys_argv w) in
     help_loop args ;;;
     (if (1 <? length args)%nat
      then abort "Invalid number of arguments. Abort." 2 true
      else ret tt) ;;;
     match args with
     | [] => ret None
     | a :: _ => ret (Some a)
     end) w.
Proof. reflexivity. Qed.

(** C8.  Argument parsing, by cases on the arguments after the program name:
    some argument is '-h' or '/h': usage is printed and the process exits
    with code 0; otherwise, more than one argument: the abort message and
    usage are printed and the process exits with code 2; exactly one
    argument: it is returned as the camera id; none: [None] is returned, and
    [get_camera] on [None] returns the first camera found. *)
Theorem parse_args_cases :
  forall w,
    let args := skipn 1 (sys_argv w) in
    (existsb is_help args = true ->
     parse_args w = (Raised (SystemExit 0), extend w usage_lines []))
    /\ (existsb is_help args = false -> (1 < length args)%nat ->
        parse_args w
        = (Raised (SystemExit 2),
           extend w (("Invalid number of arguments. Abort." ++ newline)%string
                       :: usage_lines) []))
    /\ (forall a, args = [a] -> is_help a = false ->
        parse_args w = (Returned (Some a), w))
    /\ (args = [] ->
        parse_args w = (Returned None, w)
        /\ forall vimba c cs, all_cameras vimba = c :: cs ->
             get_camera vimba None w = (Returned c, w)).
Proof.
  intros w args; repeat split.
  - intros Hh. rewrite parse_args_unfold; fold args; cbv zeta.
    apply (emits_bind_raised _ _ _ _ _ (help_loop_found _ Hh)).
  - intros Hh Hn. rewrite parse_args_unfold; fold args; cbv zeta.
    rewrite (help_loop_absent _ Hh).
    apply Nat.ltb_lt in Hn; rewrite Hn.
    apply (emits_bind_raised (abort _ 2 true) _ _ _ _ (emits_abort _ 2)).
  - intros a Ha Hh. rewrite parse_args_unfold; fold args; rewrite Ha.
    unfold help_loop; rewrite Hh. reflexivity.
  - rewrite parse_args_unfold; fold args; rewrite H. reflexivity.
  - intros vimba c cs Hc. unfold get_camera; simpl; rewrite Hc. reflexivity.
Qed.

(** C8 at four command lines. *)
Lemma parse_args_cases_witness :
  parse_args (argv_world ["manta-frame.py"; "DEV_1"; "-h"]%string)
  = (Raised (SystemExit 0),
     extend (argv_world ["manta-frame.py"; "DEV_1"; "-h"]%string)
            usage_lines [])
  /\ fst (parse_args (argv_world ["manta-frame.py"; "DEV_1"; "DEV_2"]%string))
     = Raised (SystemExit 2)
  /\ parse_args (argv_world ["manta-frame.py"; "DEV_1"]%string)
     = (Returned (Some "DEV_1"%string),
        argv_world ["manta-frame.py"; "DEV_1"]%string)
  /\ parse_args (argv_world ["manta-frame.py"%string])
     = (Returned None, argv_world ["manta-frame.py"%string])
  /\ get_camera (mkVimba [mkCamera "DEV_1" "Manta" "eth0";
                          mkCamera "DEV_2" "Manta" "eth1"]) None
                (argv_world ["manta-frame.py"%string])
     = (Returned (mkCamera "DEV_1" "Manta" "eth0"),
        argv_world ["manta-frame.py"%string]).
Proof.
  split; [| split; [| split; [| split]]].
  - exact (proj1 (parse_args_cases
                    (argv_world ["manta-frame.py"; "DEV_1"; "-h"]%string))
                 eq_refl).
  - rewrite (proj1 (proj2 (parse_args_cases
                     (argv_world ["manta-frame.py"; "DEV_1"; "DEV_2"]%string)))
                   eq_refl (le_n 2)).
    reflexivity.
  - exact (proj1 (proj2 (proj2 (parse_args_cases
                    (argv_world ["manta-frame.py"; "DEV_1"]%string))))
                 "DEV_1"%string eq_refl eq_refl).
  - exact (proj1 (proj2 (proj2 (proj2 (parse_args_cases
                    (argv_world ["manta-frame.py"%string]))))
                 eq_refl)).
  - exact (proj2 (proj2 (proj2 (proj2 (parse_args_cases
                    (argv_world ["manta-frame.py"%string]))))
                 eq_refl)
                 (mkVimba [mkCamera "DEV_1" "Manta" "eth0";
                           mkCamera "DEV_2" "Manta" "eth1"])
                 _ _ eq_refl).
Defined.

(** ** [save_frame]: the timestamp in the file name *)

Lemma contains_app c (a b : string) :
  contains c (a ++ b) = contains c a || contains c b.
Proof.
  induction a as [| c' a IH]; simpl; [reflexivity |].
  now rewrite IH, orb_assoc.
Qed.

(** A formatted timestamp has dashes, so it is never the sentinel. *)
Lemma strftime_not_now dt : strftime dt TS_FMT_STR <> "now"%string.
Proof.
  intros E.
  assert (H : contains "-" (strftime dt TS_FMT_STR) = true).
  { unfold TS_FMT_STR; simpl strftime.
    rewrite contains_app; simpl; apply orb_true_r. }
  rewrite E in H; discriminate.
Qed.

Lemma save_frame_run frame savepath frametsstr pixformatstr w ts notes :
  arr3_channels (as_numpy_ndarray frame) <> 0%nat ->
  save_timestamp frametsstr (printed w ["save frame"%string])
  = (Returned ts, printed w ("save frame"%string :: notes)) ->
  save_frame frame savepath frametsstr pixformatstr w
  = saved w ("save frame"%string :: notes)
          (save_name savepath pixformatstr ts)
          (mkArray (arr3_dtype (as_numpy_ndarray frame))
                   (arr3_width (as_numpy_ndarray frame))
                   (map (map (fun px => nth 0 px 0))
                        (arr3_rows (as_numpy_ndarray frame)))).
Proof.
  intros Hch Hts.
  unfold save_frame, bind at 1, print at 1.
  change (with_stdout w (stdout w ++ ["save frame"%string]))
    with (printed w ["save frame"%string]).
  unfold bind at 1; rewrite Hts.
  unfold bind at 1, channel0.
  apply Nat.eqb_neq in Hch; rewrite Hch.
  unfold ret, bind, np_save, saved, print, printed, with_files, with_stdout.
  cbn [writable stdout pywarnings clock sys_argv files].
  destruct (writable w _); [| reflexivity].
  cbn [writable stdout pywarnings clock sys_argv files].
  now rewrite <- app_assoc.
Qed.

Lemma save_frame_raises frame savepath frametsstr pixformatstr w e out :
  save_timestamp frametsstr (printed w ["save frame"%string])
  = (Raised e, printed w out) ->
  save_frame frame savepath frametsstr pixformatstr w
  = (Raised e, printed w out).
Proof.
  intros Hts.
  unfold save_frame, bind at 1, print at 1.
  change (with_stdout w (stdout w ++ ["save frame"%string]))
    with (printed w ["save frame"%string]).
  unfold bind at 1; now rewrite Hts.
Qed.

(** Runs the prints of a computation. *)
Ltac run_py :=
  unfold save_timestamp, eq_now_test, py_str, is_str, bind, ret, raise,
    datetime_now, print, with_stdout, printed;
  cbn [stdout pywarnings clock sys_argv files writable];
  rewrite <- ?app_assoc; reflexivity.

(** C10, as the code has it.  [save_frame] treats a timestamp argument that
    compares equal to 'now' (the string 'now', its default, or an object
    equal to it) as a sentinel: the time of saving, formatted as
    [TS_FMT_STR] and never 'now' itself, goes into the name and a warning is
    printed; a [str] other than 'now' is used as it is; any other argument
    that is not a [str] is converted with [str()] and used as it is, after an
    empty line and a warning, rather than rejected; an error raised by the
    comparison or by [str()] leaves [save_frame].  The file is then written
    and its name printed, or [np.save] fails with an [OSError] that is not
    caught. *)
Theorem save_frame_timestamp :
  forall frame savepath frametsstr pixformatstr w,
    arr3_channels (as_numpy_ndarray frame) <> 0%nat ->
    exists frame_ndarray,
      let names ts notes :=
        save_frame frame savepath frametsstr pixformatstr w
        = saved w ("save frame"%string :: notes)
                (save_name savepath pixformatstr ts) frame_ndarray in
      let raises out :=
        save_frame frame savepath frametsstr pixformatstr w
        = (Raised ObjectError, printed w ("save frame"%string :: out)) in
      (equals_now frametsstr = Some true ->
       names (strftime (clock w) TS_FMT_STR) [warning_no_timestamp]
       /\ strftime (clock w) TS_FMT_STR <> "now"%string)
      /\ (forall s, frametsstr = PyStr s -> s <> "now"%string -> names s [])
      /\ (forall s,
            equals_now frametsstr = Some false ->
            is_str frametsstr = false ->
            str_of frametsstr = Some s ->
            names s [""%string; warning_not_str])
      /\ (equals_now frametsstr = None -> raises [])
      /\ (equals_now frametsstr = Some false ->
          is_str frametsstr = false ->
          str_of frametsstr = None ->
          raises [""%string]).
Proof.
  intros frame savepath frametsstr pixformatstr w Hch.
  eexists. cbv zeta.
  split; [| split; [| split; [| split]]].
  - intros Heq. split; [| apply strftime_not_now].
    apply save_frame_run; [exact Hch |].
    destruct frametsstr as [s | z | | [b |] str]; try discriminate;
      cbn in Heq; injection Heq as Heq; unfold save_timestamp;
      cbn [eq_now_test]; rewrite Heq; run_py.
  - intros s -> Hs.
    apply save_frame_run; [exact Hch |].
    apply String.eqb_neq in Hs.
    unfold save_timestamp; cbn [eq_now_test]. unfold bind at 1, ret at 1.
    rewrite Hs. run_py.
  - intros s Heq Hstr Hs.
    apply save_frame_run; [exact Hch |].
    destruct frametsstr as [s' | z | | [b |] [str |]]; try discriminate;
      cbn in Heq, Hs; injection Hs as <-; try injection Heq as ->;
      run_py.
  - intros Heq.
    destruct frametsstr as [s' | z | | [b |] str]; try discriminate.
    apply save_frame_raises. run_py.
  - intros Heq Hstr Hs.
    destruct frametsstr as [s' | z | | [b |] [str |]]; try discriminate.
    cbn in Heq; injection Heq as ->.
    apply save_frame_raises. run_py.
Qed.

(** C10 at the default timestamp. *)
Lemma save_frame_timestamp_witness :
  arr3_channels (as_numpy_ndarray camera_frame) <> 0%nat
  /\ exists frame_ndarray,
       save_frame camera_frame "D:/" (PyStr "now") "Mono8" world0
       = (Returned tt,
          mkWorld
            ["save frame"%string; warning_no_timestamp;
             "D:/manta-frame_Mono8_2021-08-13T09-05-07.npy"%string]
            [] (clock world0) (sys_argv world0)
            [("D:/manta-frame_Mono8_2021-08-13T09-05-07.npy"%string,
              frame_ndarray)]
            (writable world0)).
Proof.
  assert (Hch : arr3_channels (as_numpy_ndarray camera_frame) <> 0%nat)
    by (vm_compute; discriminate).
  split; [exact Hch |].
  destruct (save_frame_timestamp camera_frame "D:/" (PyStr "now") "Mono8"
              world0 Hch) as (frame_ndarray & Hnow & _).
  exists frame_ndarray. exact (proj1 (Hnow eq_refl)).
Defined.

Example save_frame_sentinel_run :
  save_frame camera_frame "D:/" (PyStr "now") "Mono8" world0
  = (Returned tt,
     mkWorld
       ["save frame"%string; warning_no_timestamp;
        "D:/manta-frame_Mono8_2021-08-13T09-05-07.npy"%string]
       [] (clock world0) (sys_argv world0)
       [("D:/manta-frame_Mono8_2021-08-13T09-05-07.npy"%string,
         mkArray uint8 2 [[1; 2]; [3; 4]])]
       (writable world0)).
Proof. vm_compute. reflexivity. Qed.

(** C10 as stated fails for an object that is not a [str], is not equal to
    'now', and whose [str()] is 'now' (a [pathlib.PurePath('now')], say): it
    is converted and the file is saved as 'manta-frame_NA_now.npy'. *)
Lemma save_frame_literal_now_counterexample :
  ~ (forall frame savepath frametsstr pixformatstr w w' frame_ndarray,
        save_frame frame savepath frametsstr pixformatstr w = (Returned tt, w') ->
        files w'
        <> (save_name savepath pixformatstr "now", frame_ndarray) :: files w).
Proof.
  intros H.
  apply (H camera_frame "D:/"%string (PyObject (Some false) (Some "now"%string))
           "NA"%string world0
           (snd (save_frame camera_frame "D:/"
                            (PyObject (Some false) (Some "now"%string))
                            "NA" world0))
           (mkArray uint8 2 [[1; 2]; [3; 4]]));
    vm_compute; reflexivity.
Qed.

Example save_frame_literal_now_run :
  save_frame camera_frame "D:/" (PyObject (Some false) (Some "now"%string))
             "NA" world0
  = (Returned tt,
     mkWorld
       ["save frame"%string; ""%string; warning_not_str;
        "D:/manta-frame_NA_now.npy"%string]
       [] (clock world0) (sys_argv world0)
       [("D:/manta-frame_NA_now.npy"%string,
         mkArray uint8 2 [[1; 2]; [3; 4]])]
       (writable world0)).
Proof. vm_compute. reflexivity. Qed.

(** An object that is not a [str] but equal to 'now' (an instance of a
    subclass of [str], say) is not converted: the time of saving is used. *)
Example save_frame_equal_now_run :
  save_frame camera_frame "D:/" (PyObject (Some true) (Some "now"%string))
             "NA" world0
  = (Returned tt,
     mkWorld
       ["save frame"%string; warning_no_timestamp;
        "D:/manta-frame_NA_2021-08-13T09-05-07.npy"%string]
       [] (clock world0) (sys_argv world0)
       [("D:/manta-frame_NA_2021-08-13T09-05-07.npy"%string,
         mkArray uint8 2 [[1; 2]; [3; 4]])]
       (writable world0)).
Proof. vm_compute. reflexivity. Qed.

(** Where the file cannot be written, [np.save]'s error leaves [save_frame]
    and the name is not printed. *)
Example save_frame_unwritable_run :
  save_frame camera_frame "D:/" (PyStr "now") "Mono8"
             (mkWorld [] [] (mkDatetime 2021 8 13 9 5 7) [] []
                      (fun _ => false))
  = (Raised OSError,
     mkWorld ["save frame"%string; warning_no_timestamp]
             [] (mkDatetime 2021 8 13 9 5 7) [] [] (fun _ => false)).
Proof. vm_compute. reflexivity. Qed.

(** * Further properties *)

(** ** The run of [peak_fwhm], with the warnings it issues *)

Lemma mean_axis0_run (a : ndarray) :
  emits (mean_axis0 a) (Returned (column_means a)) [] (mean_warnings a).
Proof.
  unfold mean_axis0, mean_warnings.
  change (@nil string) with (@nil string ++ []).
  eapply emits_bind; [apply emits_when |].
  eapply emits_then_ret; apply emits_when.
Qed.

Lemma peak_prominences_run x peaks :
  Forall (fun p => valid_peak x p = true) peaks ->
  emits (peak_prominences x peaks)
        (Returned (map (prominence_data x) peaks)) []
        (prominence_warnings x peaks).
Proof.
  intros Hv; unfold peak_prominences, prominence_warnings.
  rewrite (prominences_loop_valid _ _ Hv).
  apply (emits_then_ret (if existsb _ _ then _ else _) _ tt), emits_when.
Qed.

Lemma find_peaks_run x pmin :
  emits (find_peaks x pmin) (Returned (candidates x pmin)) []
        (prominence_warnings x (detected x)).
Proof.
  pose proof (peak_prominences_run x (detected x) (local_maxima_valid x)) as Hp.
  unfold find_peaks.
  change (@nil string) with (@nil string ++ []).
  rewrite <- (app_nil_r (prominence_warnings _ _)).
  eapply emits_bind; [apply Hp | apply emits_ret].
Qed.

Lemma peak_widths_run x peaks :
  Forall (fun p => valid_peak x p = true) peaks ->
  emits (peak_widths x peaks F64.half) (Returned (widths_of x peaks)) []
        (prominence_warnings x peaks ++ width_warnings x peaks).
Proof.
  intros Hv.
  pose proof (peak_prominences_run x peaks Hv) as Hp.
  unfold peak_widths, width_warnings.
  change (@nil string) with (@nil string ++ []).
  eapply emits_bind; [exact Hp |].
  change (F64.ltb F64.half F64.zero) with false; cbv iota.
  rewrite (widths_loop_valid _ _ _ Hv).
  apply (emits_then_ret (if existsb _ _ then _ else _) _ tt), emits_when.
Qed.

Lemma lineout_run frame pixbit invert r0 r1 c0 c1 :
  storable frame pixbit invert ->
  emits (lineout frame pixbit invert [r0; r1; c0; c1])
        (Returned (column_means (analysed frame pixbit invert r0 r1 c0 c1)))
        [] (mean_warnings (analysed frame pixbit invert r0 r1 c0 c1)).
Proof.
  intros Hs.
  pose proof (mean_axis0_run (analysed frame pixbit invert r0 r1 c0 c1)) as Hm.
  intros w.
  change (lineout frame pixbit invert [r0; r1; c0; c1] w)
    with ((a <- (if invert
                 then rsub_scalar (2 ^ Z.of_N pixbit - 1) (crop frame r0 r1 c0 c1)
                 else ret (crop frame r0 r1 c0 c1)) ;;
           mean_axis0 a) w).
  unfold analysed in Hm; destruct invert.
  - rewrite rsub_scalar_fits by (apply Hs; reflexivity). apply Hm.
  - apply Hm.
Qed.

Lemma peak_fwhm_run frame prominence_min pixbit invert r0 r1 c0 c1 :
  storable frame pixbit invert ->
  emits (peak_fwhm frame prominence_min pixbit invert [r0; r1; c0; c1])
        (Returned (fwhm_of frame prominence_min pixbit invert r0 r1 c0 c1))
        (fwhm_output frame prominence_min pixbit invert r0 r1 c0 c1)
        (fwhm_warnings frame prominence_min pixbit invert r0 r1 c0 c1).
Proof.
  intros Hs.
  pose proof (lineout_run frame pixbit invert r0 r1 c0 c1 Hs) as H1.
  unfold fwhm_warnings.
  set (a := analysed frame pixbit invert r0 r1 c0 c1) in *.
  set (x := column_means a) in *.
  pose proof (find_peaks_run x prominence_min) as H2.
  pose proof (select_by_prominence_lengths prominence_min (detected x)
                (map (prominence_data x) (detected x))) as (Hlen & _).
  fold (candidates x prominence_min) in Hlen.
  pose proof (select_peak_emits _ _ Hlen) as H3.
  pose proof (selected_valid x _ _ Hlen (candidates_valid x prominence_min))
    as Hv.
  pose proof (peak_widths_run x _ Hv) as H4.
  unfold peak_fwhm, fwhm_of, fwhm_output; fold a; fold x.
  cbv zeta.
  change (@nil string) with (@nil string ++ []) in H1.
  eapply (emits_bind _ _ _ _ [] _ _); [exact H1 |].
  eapply (emits_bind _ _ _ _ [] _ _); [exact H2 |].
  cbv zeta.
  rewrite <- (app_nil_r (if (1 <? _)%nat then _ else _)).
  change (prominence_warnings x (selected (fst (candidates x prominence_min))
                                          (snd (candidates x prominence_min)))
          ++ width_warnings x (selected (fst (candidates x prominence_min))
                                        (snd (candidates x prominence_min))))
    with ([] ++ (prominence_warnings x (selected (fst (candidates x prominence_min))
                                          (snd (candidates x prominence_min)))
          ++ width_warnings x (selected (fst (candidates x prominence_min))
                                        (snd (candidates x prominence_min))))).
  eapply emits_bind; [exact H3 |].
  rewrite <- (app_nil_r (_ ++ width_warnings _ _)).
  eapply (emits_bind _ _ _ _ [] [] _ []); [exact H4 | apply emits_ret].
Qed.

(** ** The region of interest *)

Lemma slice_len_le n start stop : (slice_len n start stop <= n)%nat.
Proof.
  unfold slice_len.
  pose proof (adjust_index_range (Z.of_nat n) start ltac:(lia)).
  pose proof (adjust_index_range (Z.of_nat n) stop ltac:(lia)).
  lia.
Qed.

(** X1.  [peak_fwhm] reads exactly the first four entries of [roi]: a
    shorter list raises [IndexError] before anything is computed or printed,
    and entries after the fourth are ignored. *)
Theorem peak_fwhm_roi_length :
  (forall frame prominence_min pixbit invert roi w,
      (length roi < 4)%nat ->
      peak_fwhm frame prominence_min pixbit invert roi w = (Raised IndexError, w))
  /\ (forall frame prominence_min pixbit invert r0 r1 c0 c1 rest w,
        peak_fwhm frame prominence_min pixbit invert
                  (r0 :: r1 :: c0 :: c1 :: rest) w
        = peak_fwhm frame prominence_min pixbit invert [r0; r1; c0; c1] w).
Proof.
  split.
  - intros frame pmin pixbit invert roi w Hlen.
    destruct roi as [| r0 [| r1 [| c0 [| c1 rest]]]];
      [reflexivity | reflexivity | reflexivity | reflexivity |].
    simpl in Hlen; lia.
  - intros frame pmin pixbit invert r0 r1 c0 c1 rest w.
    unfold peak_fwhm, lineout.
    rewrite (py_index_in_range (r0 :: r1 :: c0 :: c1 :: rest) 0 0)
      by (cbn [length]; lia).
    rewrite (py_index_in_range (r0 :: r1 :: c0 :: c1 :: rest) 1 0)
      by (cbn [length]; lia).
    rewrite (py_index_in_range (r0 :: r1 :: c0 :: c1 :: rest) 2 0)
      by (cbn [length]; lia).
    rewrite (py_index_in_range (r0 :: r1 :: c0 :: c1 :: rest) 3 0)
      by (cbn [length]; lia).
    reflexivity.
Qed.

(** X1 at a list of three bounds. *)
Lemma peak_fwhm_roi_length_witness :
  (length [0; 2; 0] < 4)%nat
  /\ peak_fwhm two_peaks (of_Z 1) 8 false [0; 2; 0] world0
     = (Raised IndexError, world0).
Proof.
  split; [vm_compute; lia |].
  apply (proj1 peak_fwhm_roi_length). vm_compute; lia.
Defined.

(** X2.  Passing a region of interest is the same as cropping the frame
    first and analysing all of the crop: the peak index and the
    intersection points that [peak_fwhm] returns are counted from
    [col_min], not from the frame's first column. *)
Theorem peak_fwhm_precropped :
  forall frame prominence_min pixbit invert r0 r1 c0 c1 R C w,
    wf frame ->
    Z.of_nat (length (rows frame)) <= R ->
    Z.of_nat (ncols frame) <= C ->
    peak_fwhm (crop frame r0 r1 c0 c1) prominence_min pixbit invert
              [0; R; 0; C] w
    = peak_fwhm frame prominence_min pixbit invert [r0; r1; c0; c1] w.
Proof.
  intros frame pmin pixbit invert r0 r1 c0 c1 R C w Hwf HR HC.
  assert (Hcrop : crop (crop frame r0 r1 c0 c1) 0 R 0 C = crop frame r0 r1 c0 c1).
  { apply crop_default.
    - now apply crop_wf.
    - rewrite crop_rows_length.
      pose proof (slice_len_le (length (rows frame)) r0 r1). lia.
    - cbn [crop ncols].
      pose proof (slice_len_le (ncols frame) c0 c1). lia. }
  unfold peak_fwhm.
  change (lineout (crop frame r0 r1 c0 c1) pixbit invert [0; R; 0; C])
    with (a <- (if invert
                then rsub_scalar (2 ^ Z.of_N pixbit - 1)
                       (crop (crop frame r0 r1 c0 c1) 0 R 0 C)
                else ret (crop (crop frame r0 r1 c0 c1) 0 R 0 C)) ;;
          mean_axis0 a).
  rewrite Hcrop. reflexivity.
Qed.

(** X2 at the middle column of a 3 x 3 frame. *)
Lemma peak_fwhm_precropped_witness :
  wf frame3
  /\ Z.of_nat (length (rows frame3)) <= 1215
  /\ Z.of_nat (ncols frame3) <= 1935
  /\ peak_fwhm (crop frame3 0 3 1 2) (of_Z 1) 8 false [0; 1215; 0; 1935] world0
     = peak_fwhm frame3 (of_Z 1) 8 false [0; 3; 1; 2] world0.
Proof.
  assert (H1 : Z.of_nat (length (rows frame3)) <= 1215)
    by (vm_compute; discriminate).
  assert (H2 : Z.of_nat (ncols frame3) <= 1935) by (vm_compute; discriminate).
  split; [exact frame3_wf | split; [exact H1 | split; [exact H2 |]]].
  exact (peak_fwhm_precropped frame3 (of_Z 1) 8 false 0 3 1 2 1215 1935 world0
           frame3_wf H1 H2).
Defined.

Lemma skipn_nth {A} (l : list A) : forall n d,
  (n < length l)%nat -> skipn n l = nth n l d :: skipn (S n) l.
Proof.
  induction l as [| a l IH]; intros n d Hn; [simpl in Hn; lia |].
  destruct n as [| n]; [reflexivity |].
  simpl in Hn. change (skipn n l = nth n l d :: skipn (S n) l).
  apply IH; lia.
Qed.

Lemma slice_single {A} (l : list A) r d :
  0 <= r < Z.of_nat (length l) -> slice l r (r + 1) = [nth (Z.to_nat r) l d].
Proof.
  intros Hr. unfold slice.
  rewrite !adjust_index_nonneg by lia.
  rewrite (Z.min_l r), (Z.min_l (r + 1)) by lia.
  replace (Z.to_nat (r + 1 - r)) with 1%nat by lia.
  rewrite (skipn_nth l (Z.to_nat r) d) by lia.
  reflexivity.
Qed.

(** X3.  With [roi = [r, r + 1, col_min, col_max]] for a row [r] of the
    frame, the use the docstring names for a single horizontal line, the
    lineout is that row itself between the two column bounds, sample by
    sample. *)
Theorem peak_fwhm_single_row :
  forall frame prominence_min pixbit r c0 c1 w,
    wf frame ->
    0 <= r < Z.of_nat (length (rows frame)) ->
    exists res w',
      peak_fwhm frame prominence_min pixbit false [r; r + 1; c0; c1] w
      = (Returned res, w')
      /\ frame_lineout res
         = map of_Z (slice (nth (Z.to_nat r) (rows frame) []) c0 c1).
Proof.
  intros frame pmin pixbit r c0 c1 w Hwf Hr.
  eexists; eexists; split;
    [apply (peak_fwhm_run frame pmin pixbit false r (r + 1) c0 c1
              (storable_plain frame pixbit)) |].
  unfold fwhm_of; cbn [frame_lineout]. unfold analysed.
  apply column_means_single_row.
  - cbn [crop rows]. rewrite (slice_single (rows frame) r []) by exact Hr.
    reflexivity.
  - cbn [crop ncols]. rewrite length_slice. f_equal.
    unfold wf in Hwf. rewrite Forall_forall in Hwf.
    symmetry. apply Hwf, nth_In. lia.
Qed.

(** X3 at the middle row of a 3 x 3 frame. *)
Lemma peak_fwhm_single_row_witness :
  wf frame3
  /\ 0 <= 1 < Z.of_nat (length (rows frame3))
  /\ exists res w',
       peak_fwhm frame3 (of_Z 1) 8 false [1; 1 + 1; 0; 3] world0
       = (Returned res, w')
       /\ frame_lineout res = [of_Z 4; of_Z 9; of_Z 6].
Proof.
  assert (Hr : 0 <= 1 < Z.of_nat (length (rows frame3)))
    by (vm_compute; split; [discriminate | reflexivity]).
  split; [exact frame3_wf | split; [exact Hr |]].
  destruct (peak_fwhm_single_row frame3 (of_Z 1) 8 1 0 3 world0 frame3_wf Hr)
    as (res & w' & Hrun & Hline).
  exists res, w'. split; [exact Hrun |]. rewrite Hline. reflexivity.
Defined.

(** ** Inverting twice *)

Lemma slice_map {A B} (f : A -> B) (l : list A) start stop :
  slice (map f l) start stop = map f (slice l start stop).
Proof.
  unfold slice. rewrite length_map, skipn_map, firstn_map. reflexivity.
Qed.

Lemma crop_rsub_values k a r0 r1 c0 c1 :
  crop (rsub_values k a) r0 r1 c0 c1 = rsub_values k (crop a r0 r1 c0 c1).
Proof.
  unfold crop, rsub_values; cbn [arr_dtype ncols rows]. f_equal.
  rewrite slice_map, !map_map.
  apply map_ext; intros row. apply slice_map.
Qed.

Lemma crop_in_dtype a r0 r1 c0 c1 :
  in_dtype a -> in_dtype (crop a r0 r1 c0 c1).
Proof.
  unfold in_dtype, crop; cbn [rows arr_dtype]; intros H.
  rewrite Forall_forall in H.
  apply Forall_map, Forall_forall; intros row Hrow.
  apply in_slice in Hrow. specialize (H row Hrow).
  rewrite Forall_forall in *; intros s Hs; apply H.
  now apply in_slice in Hs.
Qed.

Lemma rsub_values_involutive k a :
  in_dtype a -> rsub_values k (rsub_values k a) = a.
Proof.
  intros Hin. destruct a as [d n rs].
  unfold rsub_values, in_dtype in *; cbn [arr_dtype ncols rows] in *.
  f_equal. rewrite map_map.
  rewrite <- (map_id rs) at 2.
  rewrite Forall_forall in Hin.
  apply map_ext_in; intros row Hrow.
  specialize (Hin row Hrow). rewrite Forall_forall in Hin.
  rewrite map_map. rewrite <- (map_id row) at 2.
  apply map_ext_in; intros s Hs. specialize (Hin s Hs).
  unfold wrap. rewrite Zminus_mod_idemp_r.
  replace (k - (k - s)) with s by lia.
  apply Z.mod_small; lia.
Qed.

(** X4.  Inversion undoes itself: analysing the negative
    [(2**pixbit - 1) - frame] of a frame with [invert] set is the same run
    as analysing the frame without it, whenever [2**pixbit - 1] fits the
    frame's dtype; this holds also for samples above [2**pixbit - 1], which
    wrap around twice. *)
Theorem peak_fwhm_negative :
  forall frame prominence_min pixbit r0 r1 c0 c1 w,
    Z.of_N pixbit <= bits (arr_dtype frame) ->
    in_dtype frame ->
    peak_fwhm (rsub_values (2 ^ Z.of_N pixbit - 1) frame)
              prominence_min pixbit true [r0; r1; c0; c1] w
    = peak_fwhm frame prominence_min pixbit false [r0; r1; c0; c1] w.
Proof.
  intros frame pmin pixbit r0 r1 c0 c1 w Hfit Hin.
  set (M := 2 ^ Z.of_N pixbit - 1).
  unfold peak_fwhm.
  change (lineout (rsub_values M frame) pixbit true [r0; r1; c0; c1])
    with (a <- rsub_scalar M (crop (rsub_values M frame) r0 r1 c0 c1) ;;
          mean_axis0 a).
  change (lineout frame pixbit false [r0; r1; c0; c1])
    with (a <- ret (crop frame r0 r1 c0 c1) ;; mean_axis0 a).
  rewrite crop_rsub_values. unfold M.
  rewrite rsub_scalar_fits by exact Hfit.
  fold M.
  rewrite rsub_values_involutive by now apply crop_in_dtype.
  reflexivity.
Qed.

(** X4 at a frame with the sample 200, above [2**4 - 1]. *)
Lemma peak_fwhm_negative_witness :
  Z.of_N 4 <= bits (arr_dtype (mkArray uint8 4 [[1; 200; 3; 1]]))
  /\ in_dtype (mkArray uint8 4 [[1; 200; 3; 1]])
  /\ peak_fwhm (rsub_values (2 ^ Z.of_N 4 - 1) (mkArray uint8 4 [[1; 200; 3; 1]]))
               (of_Z 1) 4 true [0; 1; 0; 4] world0
     = peak_fwhm (mkArray uint8 4 [[1; 200; 3; 1]])
                 (of_Z 1) 4 false [0; 1; 0; 4] world0.
Proof.
  assert (Hfit : Z.of_N 4 <= bits (arr_dtype (mkArray uint8 4 [[1; 200; 3; 1]])))
    by (vm_compute; discriminate).
  assert (Hin : in_dtype (mkArray uint8 4 [[1; 200; 3; 1]])).
  { repeat constructor; vm_compute; first [reflexivity | discriminate]. }
  split; [exact Hfit | split; [exact Hin |]].
  exact (peak_fwhm_negative _ (of_Z 1) 4 0 1 0 4 world0 Hfit Hin).
Defined.

(** ** Lineouts without a peak *)

Lemma local_maxima_loop_never_falls fuel x i_max : forall i,
  0 <= i -> i_max < len x -> never_falls x ->
  local_maxima_loop fuel x i_max i = [].
Proof.
  induction fuel as [| fuel IH]; intros i Hi Hmax Hmono; simpl; [reflexivity |].
  destruct (i <? i_max) eqn:Hlt; [| reflexivity].
  apply Z.ltb_lt in Hlt.
  destruct (F64.ltb (get x (i - 1)) (get x i)); [| apply IH; auto; lia].
  pose proof (plateau_end_bounds (Z.to_nat (i_max - i)) x i_max i (i + 1)) as Hb.
  rewrite (Hmono i (plateau_end (Z.to_nat (i_max - i)) x i_max i (i + 1)))
    by lia.
  apply IH; auto; lia.
Qed.

Lemma detected_never_falls x : never_falls x -> detected x = [].
Proof.
  intros H. unfold detected, local_maxima_1d.
  rewrite local_maxima_loop_never_falls; [reflexivity | lia | lia | exact H].
Qed.

Lemma detected_never_rises x : never_rises x -> detected x = [].
Proof.
  intros H. unfold detected, local_maxima_1d.
  rewrite local_maxima_loop_no_rise; [reflexivity |].
  intros j Hj. apply H; lia.
Qed.

Lemma fwhm_of_no_detection frame prominence_min pixbit invert r0 r1 c0 c1 :
  detected (column_means (analysed frame pixbit invert r0 r1 c0 c1)) = [] ->
  fwhm_of frame prominence_min pixbit invert r0 r1 c0 c1
  = mkResult (mkWidths [] [] [] []) [] (mkProperties [] [] [])
             (column_means (analysed frame pixbit invert r0 r1 c0 c1))
  /\ fwhm_output frame prominence_min pixbit invert r0 r1 c0 c1 = []
  /\ fwhm_warnings frame prominence_min pixbit invert r0 r1 c0 c1
     = mean_warnings (analysed frame pixbit invert r0 r1 c0 c1).
Proof.
  intros Hd. unfold fwhm_of, fwhm_output, fwhm_warnings, candidates.
  cbv zeta. rewrite Hd. cbn. rewrite app_nil_r. auto.
Qed.

(** X5.  A lineout that never falls, or never rises, from the first column
    of the region to the last has no peak: a maximum cut by an edge of the
    region of interest is not detected, and [peak_fwhm] returns empty
    results without printing. *)
Theorem peak_fwhm_monotone_lineout :
  forall frame prominence_min pixbit invert r0 r1 c0 c1 w,
    storable frame pixbit invert ->
    exists res w',
      peak_fwhm frame prominence_min pixbit invert [r0; r1; c0; c1] w
      = (Returned res, w')
      /\ (never_falls (frame_lineout res) \/ never_rises (frame_lineout res) ->
          peakmax res = []
          /\ peakwidth res = mkWidths [] [] [] []
          /\ peaks_props res = mkProperties [] [] []
          /\ stdout w' = stdout w).
Proof.
  intros frame pmin pixbit invert r0 r1 c0 c1 w Hs.
  eexists; eexists; split;
    [apply (peak_fwhm_run frame pmin pixbit invert r0 r1 c0 c1 Hs) |].
  intros Hmono.
  assert (Hd : detected (column_means (analysed frame pixbit invert r0 r1 c0 c1))
               = []).
  { unfold fwhm_of in Hmono; cbn [frame_lineout] in Hmono.
    destruct Hmono as [H | H];
      [now apply detected_never_falls | now apply detected_never_rises]. }
  destruct (fwhm_of_no_detection frame pmin pixbit invert r0 r1 c0 c1 Hd)
    as (Hres & Hout & _).
  rewrite Hres, Hout. cbn [peakmax peakwidth peaks_props stdout extend].
  rewrite app_nil_r. auto.
Qed.

(** X5 at a row that rises up to the last column. *)
Lemma peak_fwhm_monotone_lineout_witness :
  storable (mkArray uint8 4 [[1; 2; 2; 5]]) 8 false
  /\ exists res w',
       peak_fwhm (mkArray uint8 4 [[1; 2; 2; 5]]) (of_Z 1) 8 false
                 [0; 1; 0; 4] world0
       = (Returned res, w')
       /\ never_falls (frame_lineout res)
       /\ peakmax res = [].
Proof.
  split; [apply storable_plain |].
  destruct (peak_fwhm_monotone_lineout (mkArray uint8 4 [[1; 2; 2; 5]])
              (of_Z 1) 8 false 0 1 0 4 world0 (storable_plain _ _))
    as (res & w' & Hrun & Hmono).
  exists res, w'. split; [exact Hrun |].
  assert (Hnf : never_falls (frame_lineout res)).
  { vm_compute in Hrun. injection Hrun as <- <-.
    intros i j Hi Hij Hj. cbn [frame_lineout] in *.
    change (len _) with 4 in Hj.
    assert (Hc : (i = 0 \/ i = 1 \/ i = 2 \/ i = 3)
                 /\ (j = 0 \/ j = 1 \/ j = 2 \/ j = 3)) by lia.
    destruct Hc as [[-> | [-> | [-> | ->]]] [-> | [-> | [-> | ->]]]];
      first [reflexivity | lia]. }
  split; [exact Hnf |].
  exact (proj1 (Hmono (or_introl Hnf))).
Defined.

Lemma all_equal_repeat {A} (c : A) (l : list A) :
  Forall (fun v => v = c) l -> l = repeat c (length l).
Proof.
  induction 1 as [| v l Hv _ IH]; [reflexivity |].
  cbn [length repeat]. now rewrite Hv, <- IH.
Qed.

Lemma analysed_rows_empty frame pixbit invert r0 r1 c0 c1 :
  rows (crop frame r0 r1 c0 c1) = [] ->
  rows (analysed frame pixbit invert r0 r1 c0 c1) = []
  /\ ncols (analysed frame pixbit invert r0 r1 c0 c1)
     = ncols (crop frame r0 r1 c0 c1).
Proof.
  intros H. unfold analysed. destruct invert; [| auto].
  unfold rsub_values; cbn [rows ncols]. now rewrite H.
Qed.

(** X6.  When the region of interest selects no row of the frame,
    [peak_fwhm] still returns: NumPy warns of the mean of an empty slice
    and, where the region has a column, of an invalid value in the division;
    the lineout is one NaN per column of the region, no peak is found and
    nothing is printed. *)
Theorem peak_fwhm_empty_region :
  forall frame prominence_min pixbit invert r0 r1 c0 c1 w,
    storable frame pixbit invert ->
    rows (crop frame r0 r1 c0 c1) = [] ->
    exists res w',
      peak_fwhm frame prominence_min pixbit invert [r0; r1; c0; c1] w
      = (Returned res, w')
      /\ frame_lineout res = repeat FNaN (ncols (crop frame r0 r1 c0 c1))
      /\ peakmax res = []
      /\ peakwidth res = mkWidths [] [] [] []
      /\ peaks_props res = mkProperties [] [] []
      /\ stdout w' = stdout w
      /\ pywarnings w'
         = pywarnings w
           ++ MeanOfEmptySlice
              :: (if (ncols (crop frame r0 r1 c0 c1) =? 0)%nat
                  then [] else [InvalidValueInDivide]).
Proof.
  intros frame pmin pixbit invert r0 r1 c0 c1 w Hs Hrows.
  destruct (analysed_rows_empty frame pixbit invert r0 r1 c0 c1 Hrows)
    as [Hr Hc].
  set (a := analysed frame pixbit invert r0 r1 c0 c1) in *.
  assert (Hnan : Forall (fun v => v = FNaN) (column_means a))
    by now apply column_means_no_rows.
  assert (Hd : detected (column_means a) = []) by now apply detected_all_nan.
  destruct (fwhm_of_no_detection frame pmin pixbit invert r0 r1 c0 c1 Hd)
    as (Hres & Hout & Hwarn).
  fold a in Hres, Hwarn.
  eexists; eexists; split;
    [apply (peak_fwhm_run frame pmin pixbit invert r0 r1 c0 c1 Hs) |].
  rewrite Hres, Hout, Hwarn.
  cbn [frame_lineout peakmax peakwidth peaks_props stdout pywarnings extend].
  rewrite app_nil_r.
  repeat split.
  - rewrite (all_equal_repeat FNaN _ Hnan), length_column_means, Hc.
    reflexivity.
  - unfold mean_warnings. rewrite Hr, Hc. cbn [length Nat.eqb andb app].
    now destruct (ncols (crop frame r0 r1 c0 c1) =? 0)%nat.
Qed.

(** X6 at a region that starts below the last row of the frame. *)
Lemma peak_fwhm_empty_region_witness :
  storable two_peaks 8 false
  /\ rows (crop two_peaks 5 9 0 5) = []
  /\ exists res w',
       peak_fwhm two_peaks (of_Z 1) 8 false [5; 9; 0; 5] world0
       = (Returned res, w')
       /\ frame_lineout res = [FNaN; FNaN; FNaN; FNaN; FNaN]
       /\ peakmax res = []
       /\ pywarnings w' = [MeanOfEmptySlice; InvalidValueInDivide].
Proof.
  split; [apply storable_plain | split; [reflexivity |]].
  destruct (peak_fwhm_empty_region two_peaks (of_Z 1) 8 false 5 9 0 5 world0
              (storable_plain _ _) eq_refl)
    as (res & w' & Hrun & Hline & Hpeak & _ & _ & _ & Hwarn).
  exists res, w'. split; [exact Hrun |].
  split; [rewrite Hline; reflexivity |].
  split; [exact Hpeak | exact Hwarn].
Defined.

(** ** Detected maxima stand above both neighbours *)

Lemma ltb_eqb_r a b c :
  F64.ltb a b = true -> F64.eqb c b = true -> F64.ltb a c = true.
Proof.
  destruct a as [p |], b as [q |], c as [r |]; try discriminate.
  rewrite !ltb_lt, eqb_eq. intros H1 H2. lra.
Qed.

Lemma eqb_leb a b c :
  F64.eqb a c = true -> F64.eqb b c = true -> F64.leb a b = true.
Proof.
  destruct a as [p |], b as [q |], c as [r |]; try discriminate.
  rewrite !eqb_eq, leb_le. intros H1 H2. lra.
Qed.

Lemma plateau_end_equal fuel x i_max i : forall a j,
  a <= j < plateau_end fuel x i_max i a ->
  F64.eqb (get x j) (get x i) = true.
Proof.
  induction fuel as [| fuel IH]; intros a j Hj; simpl in Hj; [lia |].
  destruct ((a <? i_max) && F64.eqb (get x a) (get x i)) eqn:E; [| lia].
  apply andb_true_iff in E. destruct E as [_ E].
  destruct (Z.eq_dec j a) as [-> | Hne]; [exact E |].
  apply (IH (a + 1)). lia.
Qed.

(** What [_local_maxima_1d] reports: a plateau that rises from its left
    neighbour and falls to its right one. *)
Lemma local_maxima_loop_plateau fuel x i_max : forall i,
  Forall (fun m => let '(_, l, r) := m in
            F64.ltb (get x (l - 1)) (get x l) = true
            /\ (forall j, l <= j <= r -> F64.eqb (get x j) (get x l) = true)
            /\ F64.ltb (get x (r + 1)) (get x l) = true)
         (local_maxima_loop fuel x i_max i).
Proof.
  induction fuel as [| fuel IH]; intros i; simpl; [constructor |].
  destruct (i <? i_max); [| constructor].
  destruct (F64.ltb (get x (i - 1)) (get x i)) eqn:Hrise; [| apply IH].
  set (i_ahead := plateau_end (Z.to_nat (i_max - i)) x i_max i (i + 1)).
  destruct (F64.ltb (get x i_ahead) (get x i)) eqn:Hfall; [| apply IH].
  constructor; [| apply IH].
  split; [exact Hrise | split].
  - intros j Hj. destruct (Z.eq_dec j i) as [-> | Hne].
    + apply eqb_refl. now destruct (ltb_is_num _ _ Hrise).
    + apply (plateau_end_equal (Z.to_nat (i_max - i)) x i_max i (i + 1)).
      fold i_ahead. lia.
  - replace (i_ahead - 1 + 1) with i_ahead by lia. exact Hfall.
Qed.

Lemma detected_strict x p :
  In p (detected x) ->
  exists l r,
    1 <= l /\ l <= p /\ p <= r /\ r <= len x - 2
    /\ F64.ltb (get x (l - 1)) (get x p) = true
    /\ F64.ltb (get x (r + 1)) (get x p) = true
    /\ (forall j, l <= j <= r -> F64.leb (get x j) (get x p) = true).
Proof.
  unfold detected, local_maxima_1d. intros Hin.
  apply in_map_iff in Hin. destruct Hin as ([[mid l] r] & Hmid & Hin).
  cbn [fst] in Hmid; subst mid.
  pose proof (local_maxima_loop_bounds (length x) x (len x - 1) 1) as Hb.
  pose proof (local_maxima_loop_plateau (length x) x (len x - 1) 1) as Hs.
  rewrite Forall_forall in Hb, Hs.
  specialize (Hb _ Hin). specialize (Hs _ Hin).
  cbn [maximum_within] in Hb. cbv beta iota in Hs.
  destruct Hb as (Hl & Hlp & Hpr & Hr), Hs as (Hrise & Heq & Hfall).
  assert (Hp : F64.eqb (get x p) (get x l) = true) by (apply Heq; lia).
  exists l, r. repeat split; try lia.
  - eapply ltb_eqb_r; eassumption.
  - eapply ltb_eqb_r; eassumption.
  - intros j Hj. eapply eqb_leb; [apply Heq; lia | exact Hp].
Qed.

Lemma left_base_loop_le fuel x i_min peak : forall i left_min left_base,
  is_num left_min = true ->
  F64.leb (fst (left_base_loop fuel x i_min peak i left_min left_base)) left_min
  = true.
Proof.
  induction fuel as [| fuel IH]; intros i lm lb Hn; simpl;
    [now apply leb_refl |].
  destruct ((i_min <=? i) && F64.leb (get x i) (get x peak));
    [| now apply leb_refl].
  destruct (F64.ltb (get x i) lm) eqn:Hlt; [| now apply IH].
  eapply leb_trans; [apply IH; now destruct (ltb_is_num _ _ Hlt) |].
  now apply ltb_leb.
Qed.

Lemma right_base_loop_le fuel x i_max peak : forall i right_min right_base,
  is_num right_min = true ->
  F64.leb (fst (right_base_loop fuel x i_max peak i right_min right_base))
          right_min = true.
Proof.
  induction fuel as [| fuel IH]; intros i rm rb Hn; simpl;
    [now apply leb_refl |].
  destruct ((i <=? i_max) && F64.leb (get x i) (get x peak));
    [| now apply leb_refl].
  destruct (F64.ltb (get x i) rm) eqn:Hlt; [| now apply IH].
  eapply leb_trans; [apply IH; now destruct (ltb_is_num _ _ Hlt) |].
  now apply ltb_leb.
Qed.

(** The walk to the left passes every sample that is reached over samples
    not above the peak, and the minimum it keeps is at most that sample. *)
Lemma left_base_loop_reaches fuel x i_min peak : forall i left_min left_base j,
  i_min <= j <= i ->
  (forall k, j <= k <= i -> F64.leb (get x k) (get x peak) = true) ->
  (Z.to_nat (i - j + 1) <= fuel)%nat ->
  is_num left_min = true ->
  F64.leb (fst (left_base_loop fuel x i_min peak i left_min left_base))
          (get x j) = true.
Proof.
  induction fuel as [| fuel IH]; intros i lm lb j Hj Hle Hfuel Hn; [lia |].
  simpl.
  assert (Hi : F64.leb (get x i) (get x peak) = true) by (apply Hle; lia).
  replace (i_min <=? i) with true by (symmetry; apply Z.leb_le; lia).
  rewrite Hi; cbn [andb].
  destruct (leb_is_num _ _ Hi) as [Hni _].
  destruct (Z.eq_dec i j) as [-> | Hne].
  - destruct (F64.ltb (get x j) lm) eqn:Hlt.
    + now apply left_base_loop_le.
    + eapply leb_trans; [now apply left_base_loop_le |].
      now apply not_ltb_leb.
  - destruct (F64.ltb (get x i) lm);
      apply IH; auto; try lia; intros k Hk; apply Hle; lia.
Qed.

Lemma right_base_loop_reaches fuel x i_max peak : forall i right_min right_base j,
  i <= j <= i_max ->
  (forall k, i <= k <= j -> F64.leb (get x k) (get x peak) = true) ->
  (Z.to_nat (j - i + 1) <= fuel)%nat ->
  is_num right_min = true ->
  F64.leb (fst (right_base_loop fuel x i_max peak i right_min right_base))
          (get x j) = true.
Proof.
  induction fuel as [| fuel IH]; intros i rm rb j Hj Hle Hfuel Hn; [lia |].
  simpl.
  assert (Hi : F64.leb (get x i) (get x peak) = true) by (apply Hle; lia).
  replace (i <=? i_max) with true by (symmetry; apply Z.leb_le; lia).
  rewrite Hi; cbn [andb].
  destruct (leb_is_num _ _ Hi) as [Hni _].
  destruct (Z.eq_dec i j) as [-> | Hne].
  - destruct (F64.ltb (get x j) rm) eqn:Hlt.
    + now apply right_base_loop_le.
    + eapply leb_trans; [now apply right_base_loop_le |].
      now apply not_ltb_leb.
  - destruct (F64.ltb (get x i) rm);
      apply IH; auto; try lia; intros k Hk; apply Hle; lia.
Qed.

Lemma prominence_positive x p :
  Forall float_value x ->
  In p (detected x) ->
  exists q, fst (fst (prominence_data x p)) = FNum q /\ (0 < q)%Q.
Proof.
  intros Hfloat Hin.
  destruct (detected_strict x p Hin)
    as (l & r & Hl & Hlp & Hpr & Hr & Hrise & Hfall & Hflat).
  destruct (ltb_is_num _ _ Hrise) as [_ Hnp].
  pose proof (leb_refl _ Hnp) as Hrefl.
  pose proof (get_float x p Hfloat) as HfP.
  unfold prominence_data.
  assert (HL : F64.leb (fst (left_base_loop (S (Z.to_nat (p - 0))) x 0 p p
                               (get x p) p)) (get x (l - 1)) = true).
  { apply left_base_loop_reaches; auto; try lia.
    intros k Hk. destruct (Z.eq_dec k (l - 1)) as [-> | Hne];
      [now apply ltb_leb | apply Hflat; lia]. }
  assert (HR : F64.leb (fst (right_base_loop (S (Z.to_nat (len x - 1 - p))) x
                               (len x - 1) p p (get x p) p)) (get x (r + 1))
               = true).
  { apply right_base_loop_reaches; auto; try lia.
    intros k Hk. destruct (Z.eq_dec k (r + 1)) as [-> | Hne];
      [now apply ltb_leb | apply Hflat; lia]. }
  pose proof (left_base_loop_inv (S (Z.to_nat (p - 0))) x 0 p p (get x p) p
                eq_refl Hrefl) as Hli.
  pose proof (right_base_loop_inv (S (Z.to_nat (len x - 1 - p))) x
                (len x - 1) p p (get x p) p eq_refl Hrefl) as Hri.
  destruct (left_base_loop _ _ _ _ _ _ _) as [lm lb].
  destruct (right_base_loop _ _ _ _ _ _ _) as [rm rb].
  cbn [fst snd] in *.
  destruct Hli as [Hl1 _], Hri as [Hr1 _].
  assert (Hlm : F64.ltb lm (get x p) = true)
    by (eapply leb_ltb_trans; eassumption).
  assert (Hrm : F64.ltb rm (get x p) = true)
    by (eapply leb_ltb_trans; eassumption).
  assert (Hmax : F64.ltb (F64.max lm rm) (get x p) = true)
    by (unfold F64.max; destruct (F64.ltb lm rm); assumption).
  assert (Hfm : float_value (F64.max lm rm)).
  { unfold F64.max. destruct (F64.ltb lm rm);
      [rewrite Hr1 | rewrite Hl1]; now apply get_float. }
  destruct (F64.max lm rm) as [M |], (get x p) as [P |]; try discriminate.
  apply ltb_lt in Hmax. cbn [float_value] in Hfm, HfP.
  exists (round (P - M)). split; [reflexivity |].
  now apply round_sub_pos.
Qed.

(** With fewer than 2**53 samples every index is a float64, and the two
    intersection points lie on either side of the peak, inside the signal. *)
Lemma width_geometry x p :
  Forall (fun v => is_num v = true) x -> Forall float_value x ->
  len x <= 2 ^ 53 ->
  valid_peak x p = true ->
  exists lq rq h,
    width_data x F64.half p (prominence_data x p)
    = (FNum (round (rq - lq)), h, FNum lq, FNum rq)
    /\ (0 <= lq)%Q /\ (lq <= inject_Z p)%Q
    /\ (inject_Z p <= rq)%Q /\ (rq <= inject_Z (len x - 1))%Q.
Proof.
  intros Hnum Hfloat Hlen Hv.
  destruct (width_data_spec x p Hnum Hfloat Hv)
    as (P & prom & hq & lq & rq & i_min & i_max & i & j & HP & Hdata & Hprom
        & Hh & HhP & Hwidth & Hidx & Hlle & Hrle & Habove & Hls & Hrs & Hl & Hr
        & Hl1 & Hl2 & Hr1 & Hr2).
  exists lq, rq, (FNum hq). split; [exact Hwidth |].
  assert (Ei : round (inject_Z i) = inject_Z i) by (apply round_Z; lia).
  assert (Ej : round (inject_Z j) = inject_Z j) by (apply round_Z; lia).
  rewrite Ei in Hl1, Hl2. rewrite Ej in Hr1, Hr2.
  assert (Hi0 : (inject_Z 0 <= inject_Z i)%Q) by (rewrite <- Zle_Qle; lia).
  assert (Hjn : (inject_Z j <= inject_Z (len x - 1))%Q)
    by (rewrite <- Zle_Qle; lia).
  change (inject_Z 0) with 0%Q in Hi0.
  assert (Hlp : (lq <= inject_Z p)%Q).
  { destruct (F64.ltb (get x i) (FNum hq)) eqn:E.
    - specialize (Hls eq_refl).
      assert (E1 : round (inject_Z i + 1) = inject_Z (i + 1)).
      { rewrite <- (round_Z (i + 1)) by lia.
        apply round_comp. now rewrite inject_Z_plus. }
      rewrite E1 in Hl2.
      assert (H : (inject_Z (i + 1) <= inject_Z p)%Q)
        by (rewrite <- Zle_Qle; lia).
      lra.
    - unfold of_Z in Hl. rewrite Ei in Hl. injection Hl as ->.
      rewrite <- Zle_Qle. lia. }
  assert (Hpr : (inject_Z p <= rq)%Q).
  { destruct (F64.ltb (get x j) (FNum hq)) eqn:E.
    - specialize (Hrs eq_refl).
      assert (E1 : round (inject_Z j - 1) = inject_Z (j - 1)).
      { rewrite <- (round_Z (j - 1)) by lia.
        apply round_comp. unfold Z.sub.
        now rewrite inject_Z_plus, inject_Z_opp. }
      rewrite E1 in Hr1.
      assert (H : (inject_Z p <= inject_Z (j - 1))%Q)
        by (rewrite <- Zle_Qle; lia).
      lra.
    - unfold of_Z in Hr. rewrite Ej in Hr. injection Hr as ->.
      rewrite <- Zle_Qle. lia. }
  repeat split; lra.
Qed.

Lemma prominence_warnings_nil x peaks :
  Forall float_value x ->
  (forall p, In p peaks -> In p (detected x)) ->
  prominence_warnings x peaks = [].
Proof.
  intros Hfloat Hsub. unfold prominence_warnings.
  replace (existsb _ _) with false; [reflexivity |].
  symmetry. apply not_true_is_false. intros H.
  apply existsb_exists in H. destruct H as (d & Hd & Hz).
  apply in_map_iff in Hd. destruct Hd as (p & <- & Hp).
  destruct (prominence_positive x p Hfloat (Hsub p Hp)) as (q & Hq & Hpos).
  rewrite Hq in Hz. apply eqb_eq in Hz. lra.
Qed.

Lemma existsb_map {A B} (f : B -> bool) (g : A -> B) (l : list A) :
  existsb f (map g l) = existsb (fun a => f (g a)) l.
Proof. induction l as [| a l IH]; simpl; [reflexivity | now rewrite IH]. Qed.

Lemma candidates_detected x pmin p :
  In p (fst (candidates x pmin)) -> In p (detected x).
Proof. unfold candidates. apply select_by_prominence_in. Qed.

Lemma selected_detected x pmin p :
  In p (selected (fst (candidates x pmin)) (snd (candidates x pmin))) ->
  In p (detected x).
Proof.
  intros Hin. apply (candidates_detected x pmin).
  pose proof (selected_length (fst (candidates x pmin))
                              (snd (candidates x pmin))) as Hlen.
  destruct (selected _ _) as [| q [| q' rest]] eqn:Hsel;
    [destruct Hin | | simpl in Hlen; lia].
  destruct Hin as [<- | []].
  eapply selected_in; [apply candidates_lengths | exact Hsel].
Qed.

Lemma analysed_rows frame pixbit invert r0 r1 c0 c1 :
  rows (crop frame r0 r1 c0 c1) <> [] ->
  rows (analysed frame pixbit invert r0 r1 c0 c1) <> [].
Proof.
  intros H. unfold analysed. destruct invert; [| exact H].
  unfold rsub_values; cbn [rows]. intros E. apply map_eq_nil in E. auto.
Qed.

(** X7.  When the region of interest selects at least one row, NumPy issues
    no warning and SciPy none of a prominence of 0: every local maximum that
    SciPy reports stands strictly above both its neighbours, so every
    prominence in the returned properties is strictly positive, and the
    selected peak is neither the first nor the last column of the region.
    The one warning that can be issued is SciPy's of a width of 0, and it is
    issued exactly when the returned width is 0. *)
Theorem peak_fwhm_no_warning :
  forall frame prominence_min pixbit invert r0 r1 c0 c1 w,
    storable frame pixbit invert ->
    rows (crop frame r0 r1 c0 c1) <> [] ->
    exists res w',
      peak_fwhm frame prominence_min pixbit invert [r0; r1; c0; c1] w
      = (Returned res, w')
      /\ pywarnings w'
         = pywarnings w
           ++ (if existsb (fun v => F64.eqb v F64.zero)
                          (widths_ (peakwidth res))
               then [WidthOfZero] else [])
      /\ Forall (fun q => F64.ltb F64.zero q = true)
                (prominences (peaks_props res))
      /\ (forall p, In p (peakmax res) ->
            1 <= p <= len (frame_lineout res) - 2).
Proof.
  intros frame pmin pixbit invert r0 r1 c0 c1 w Hs Hrows.
  pose proof (analysed_rows frame pixbit invert r0 r1 c0 c1 Hrows) as Hr.
  eexists; eexists; split;
    [apply (peak_fwhm_run frame pmin pixbit invert r0 r1 c0 c1 Hs) |].
  unfold fwhm_of, fwhm_warnings.
  set (a := analysed frame pixbit invert r0 r1 c0 c1) in *.
  set (x := column_means a).
  assert (Hfloat : Forall float_value x) by apply column_means_floats.
  cbn [frame_lineout peaks_props peakmax peakwidth pywarnings extend].
  split; [| split].
  - rewrite (prominence_warnings_nil x (detected x)) by auto.
    rewrite (prominence_warnings_nil x (selected _ _))
      by (auto; apply selected_detected).
    unfold mean_warnings.
    destruct (rows a) as [| row rest] eqn:E; [contradiction |].
    cbn [length Nat.eqb andb app].
    unfold width_warnings, widths_of, pack_widths; cbn [widths_].
    now rewrite !existsb_map.
  - rewrite candidates_prominences. apply Forall_map, Forall_forall.
    intros p Hp. apply candidates_detected in Hp.
    destruct (prominence_positive x p Hfloat Hp) as (q & -> & Hpos).
    now apply ltb_lt.
  - intros p Hp. apply selected_detected in Hp.
    destruct (detected_strict x p Hp) as (l & r & H). lia.
Qed.

(** X7 at the frame with two peaks. *)
Lemma peak_fwhm_no_warning_witness :
  storable two_peaks 8 false
  /\ rows (crop two_peaks 0 1215 0 1935) <> []
  /\ exists res w',
       peak_fwhm two_peaks (of_Z 1) 8 false [0; 1215; 0; 1935] world0
       = (Returned res, w')
       /\ pywarnings w' = []
       /\ prominences (peaks_props res) = [FNum 1; FNum 2].
Proof.
  assert (Hrows : rows (crop two_peaks 0 1215 0 1935) <> [])
    by (vm_compute; discriminate).
  split; [apply storable_plain | split; [exact Hrows |]].
  destruct (peak_fwhm_no_warning two_peaks (of_Z 1) 8 false 0 1215 0 1935
              world0 (storable_plain _ _) Hrows)
    as (res & w' & Hrun & Hwarn & _).
  exists res, w'. split; [exact Hrun |].
  rewrite Hwarn. vm_compute in Hrun. injection Hrun as <- _.
  split; reflexivity.
Defined.

(** A width of 0: the samples of [narrow_peak] are 2**60 - 128, 2**60 and
    2**60 - 128, all float64.  Half the prominence is 64, and 2**60 - 64
    rounds to 2**60, the peak's height: both intersection points are the
    peak itself, and SciPy warns. *)
Example width_zero_run :
  peak_fwhm narrow_peak (of_Z 25) 64 false default_roi world0
  = (Returned
       (mkResult (mkWidths [FNum 0] [FNum (2 ^ 60)] [FNum 1] [FNum 1])
                 [1]
                 (mkProperties [FNum 128] [0] [2])
                 [FNum (2 ^ 60 - 128); FNum (2 ^ 60); FNum (2 ^ 60 - 128)]),
     with_warnings world0 [WidthOfZero]).
Proof. vm_compute. reflexivity. Qed.

(** ** The width lies inside the region *)

Lemma analysed_ncols frame pixbit invert r0 r1 c0 c1 :
  (ncols (analysed frame pixbit invert r0 r1 c0 c1) <= ncols frame)%nat.
Proof.
  unfold analysed. destruct invert; unfold rsub_values, crop; cbn [ncols];
    apply slice_len_le.
Qed.

(** X8.  For a frame of at most 2**53 columns, the width that [peak_fwhm]
    returns is measured inside the region of interest: the two intersection
    points lie on either side of the selected peak, between the first and
    the last column of the region, and the width, their distance in
    float64, is not negative and at most the number of columns less one. *)
Theorem peak_fwhm_width_within_region :
  forall frame prominence_min pixbit invert r0 r1 c0 c1 w,
    storable frame pixbit invert ->
    Z.of_nat (ncols frame) <= 2 ^ 53 ->
    exists res w',
      peak_fwhm frame prominence_min pixbit invert [r0; r1; c0; c1] w
      = (Returned res, w')
      /\ forall p, peakmax res = [p] ->
           exists l rt wd h,
             peakwidth res = mkWidths [FNum wd] [h] [FNum l] [FNum rt]
             /\ (0 <= l)%Q /\ (l <= inject_Z p)%Q
             /\ (inject_Z p <= rt)%Q
             /\ (rt <= inject_Z (len (frame_lineout res) - 1))%Q
             /\ wd = round (rt - l)
             /\ (0 <= wd)%Q
             /\ (wd <= inject_Z (len (frame_lineout res) - 1))%Q.
Proof.
  intros frame pmin pixbit invert r0 r1 c0 c1 w Hs Hcols.
  eexists; eexists; split;
    [apply (peak_fwhm_run frame pmin pixbit invert r0 r1 c0 c1 Hs) |].
  unfold fwhm_of.
  set (a := analysed frame pixbit invert r0 r1 c0 c1).
  set (x := column_means a).
  cbn [frame_lineout peakmax peakwidth].
  intros p Hsel.
  pose proof (selected_in _ _ p (candidates_lengths x pmin) Hsel) as Hin.
  pose proof (detected_numbers a pmin p Hin) as Hnum; fold x in Hnum.
  assert (Hv : valid_peak x p = true).
  { pose proof (candidates_valid x pmin) as Hall.
    rewrite Forall_forall in Hall; now apply Hall. }
  pose proof Hv as Hrange; apply valid_peak_iff in Hrange.
  assert (Hlen : len x <= 2 ^ 53).
  { unfold len, x. rewrite length_column_means.
    pose proof (analysed_ncols frame pixbit invert r0 r1 c0 c1). fold a in H.
    lia. }
  destruct (width_geometry x p Hnum (column_means_floats a) Hlen Hv)
    as (lq & rq & h & Hdata & H0 & Hl & Hr & H1).
  exists lq, rq, (round (rq - lq)), h.
  split.
  { rewrite Hsel. unfold widths_of, pack_widths; cbn [map].
    rewrite Hdata. reflexivity. }
  assert (Hw0 : (0 <= round (rq - lq))%Q) by (apply round_sign; lra).
  assert (Hw1 : (round (rq - lq) <= inject_Z (len x - 1))%Q).
  { rewrite <- (round_Z (len x - 1)) by lia. apply round_le. lra. }
  repeat split; assumption.
Qed.

(** X8 at the frame with two peaks. *)
Lemma peak_fwhm_width_within_region_witness :
  storable two_peaks 8 false
  /\ Z.of_nat (ncols two_peaks) <= 2 ^ 53
  /\ exists res w',
       peak_fwhm two_peaks (of_Z 1) 8 false [0; 1215; 0; 1935] world0
       = (Returned res, w')
       /\ peakmax res = [3]
       /\ exists l rt wd h,
            peakwidth res = mkWidths [FNum wd] [h] [FNum l] [FNum rt]
            /\ (0 <= wd)%Q
            /\ (wd <= inject_Z (len (frame_lineout res) - 1))%Q.
Proof.
  assert (Hcols : Z.of_nat (ncols two_peaks) <= 2 ^ 53)
    by (vm_compute; discriminate).
  split; [apply storable_plain | split; [exact Hcols |]].
  destruct (peak_fwhm_width_within_region two_peaks (of_Z 1) 8 false
              0 1215 0 1935 world0 (storable_plain _ _) Hcols)
    as (res & w' & Hrun & Hgeo).
  exists res, w'. split; [exact Hrun |].
  assert (Hp : peakmax res = [3])
    by (vm_compute in Hrun; injection Hrun as <- _; reflexivity).
  split; [exact Hp |].
  destruct (Hgeo 3 Hp) as (l & rt & wd & h & Hw & _ & _ & _ & _ & _ & Hpos & Hle).
  exists l, rt, wd, h. auto.
Defined.

(** ** The lineout stays within the range of the samples *)

Lemma zsum_range M l :
  Forall (fun s => 0 <= s <= M) l ->
  0 <= zsum l <= Z.of_nat (length l) * M.
Proof.
  induction 1 as [| s l Hs _ IH]; cbn [zsum fold_right length]; [lia |].
  fold (zsum l). nia.
Qed.

Lemma column_range a pixbit j :
  has_bit_depth a pixbit ->
  Forall (fun s => 0 <= s <= 2 ^ Z.of_N pixbit - 1) (column a j).
Proof.
  unfold has_bit_depth, column. intros H.
  assert (0 < 2 ^ Z.of_N pixbit) by (apply Z.pow_pos_nonneg; lia).
  rewrite Forall_forall in H.
  apply Forall_map, Forall_forall. intros row Hrow.
  specialize (H row Hrow). rewrite Forall_forall in H.
  destruct (Nat.lt_ge_cases j (length row)) as [Hj | Hj].
  - apply H, nth_In, Hj.
  - rewrite nth_overflow by exact Hj. lia.
Qed.

(** Where the samples of a column add up exactly, their mean lies between
    0 and the largest sample value. *)
Lemma column_means_range a pixbit :
  has_bit_depth a pixbit -> rows a <> [] ->
  Z.of_nat (length (rows a)) * (2 ^ Z.of_N pixbit - 1) <= 2 ^ 53 ->
  Forall (fun v => F64.leb F64.zero v = true
                   /\ F64.leb v (of_Z (2 ^ Z.of_N pixbit - 1)) = true)
         (column_means a).
Proof.
  intros Hd Hrows Hsmall. unfold column_means.
  apply Forall_map, Forall_forall. intros j _.
  pose proof (column_range a pixbit j Hd) as Hcol.
  pose proof (zsum_range _ _ Hcol) as Hz.
  rewrite length_column in Hz.
  assert (Hn : 0 < Z.of_nat (length (rows a)))
    by (destruct (rows a); [contradiction | cbn [length]; lia]).
  rewrite sum_f64_exact;
    [| eapply Forall_impl; [| exact Hcol]; cbv beta; lia | lia].
  rewrite div_of_Z by lia.
  rewrite (round_Z (zsum _)) by lia.
  set (n := Z.of_nat (length (rows a))) in *.
  set (S := zsum (column a j)) in *.
  set (M := 2 ^ Z.of_N pixbit - 1) in *.
  pose proof (round_pos_Z n Hn) as Hrn.
  assert (HS0 : (inject_Z 0 <= inject_Z S)%Q) by (rewrite <- Zle_Qle; lia).
  change (inject_Z 0) with 0%Q in HS0.
  unfold F64.zero, of_Z. rewrite !leb_le. split.
  - rewrite <- round_0. apply round_le.
    apply Qle_shift_div_l; [exact Hrn |]. now rewrite Qmult_0_l.
  - apply round_le. apply Qle_shift_div_r; [exact Hrn |].
    destruct (Z.eq_dec M 0) as [E | E].
    + assert (ES : S = 0) by lia. rewrite ES, E.
      change (inject_Z 0) with 0%Q. rewrite Qmult_0_l. apply Qle_refl.
    + assert (Hn53 : n <= 2 ^ 53) by nia.
      rewrite (round_Z n) by lia.
      rewrite <- inject_Z_mult, <- Zle_Qle. lia.
Qed.

Lemma analysed_bit_depth frame pixbit invert r0 r1 c0 c1 :
  storable frame pixbit invert ->
  has_bit_depth frame pixbit ->
  has_bit_depth (analysed frame pixbit invert r0 r1 c0 c1) pixbit.
Proof.
  intros Hs Hd. unfold analysed.
  pose proof (crop_bit_depth frame pixbit r0 r1 c0 c1 Hd) as Hc.
  destruct invert; [| exact Hc].
  rewrite rsub_values_exact; [| apply Hs; reflexivity | exact Hc].
  unfold has_bit_depth, inverted in *; cbn [rows].
  rewrite Forall_forall in Hc.
  apply Forall_map, Forall_forall. intros row Hrow.
  specialize (Hc row Hrow). rewrite Forall_forall in Hc.
  apply Forall_map, Forall_forall. intros s Hin.
  specialize (Hc s Hin). cbv beta. lia.
Qed.

Lemma analysed_rows_length frame pixbit invert r0 r1 c0 c1 :
  (length (rows (analysed frame pixbit invert r0 r1 c0 c1))
   <= length (rows frame))%nat.
Proof.
  unfold analysed. destruct invert; unfold rsub_values; cbn [rows];
    rewrite ?length_map, crop_rows_length; apply slice_len_le.
Qed.

Lemma prominence_at_most_peak x p :
  Forall (fun v => is_num v = true /\ F64.leb F64.zero v = true) x ->
  Forall float_value x ->
  valid_peak x p = true ->
  F64.leb (fst (fst (prominence_data x p))) (get x p) = true.
Proof.
  intros Hx Hfloat Hv.
  pose proof Hv as Hrange; apply valid_peak_iff in Hrange.
  assert (Hnum : Forall (fun v => is_num v = true) x)
    by (eapply Forall_impl; [| exact Hx]; cbv beta; tauto).
  assert (Hpos : forall j, 0 <= j < len x -> F64.leb F64.zero (get x j) = true).
  { intros j Hj. rewrite Forall_forall in Hx.
    apply Hx. unfold get. apply nth_In. unfold len in Hj. lia. }
  destruct (get_number x p Hnum ltac:(lia)) as [P HP].
  destruct (prominence_data_spec x p P Hv HP)
    as (M & i_min & i_max & Hdata & HM & Hlb & _ & Hil & _).
  pose proof (get_float x p Hfloat) as HfP. rewrite HP in HfP.
  cbn [float_value] in HfP.
  rewrite Hdata, HP; cbn [fst].
  pose proof (leb_trans _ _ _ (Hpos i_min ltac:(lia)) Hlb) as H0.
  unfold F64.zero in H0. apply leb_le in H0.
  apply leb_le.
  assert (H : (P - M <= P)%Q) by lra.
  apply round_le in H. pose proof (round_exact P HfP). lra.
Qed.

(** X9.  For a frame of bit depth [pixbit] whose full-scale column sums are
    exact in float64 (the number of rows times [2**pixbit - 1] is at most
    2**53), every entry of the lineout is NaN (a region without rows) or
    lies in [0, 2**pixbit - 1], and no prominence that [peak_fwhm] reports
    exceeds [2**pixbit - 1]: with [prominence_min] above that full scale no
    peak is ever found. *)
Theorem peak_fwhm_full_scale :
  forall frame prominence_min pixbit invert r0 r1 c0 c1 w,
    storable frame pixbit invert ->
    has_bit_depth frame pixbit ->
    Z.of_nat (length (rows frame)) * (2 ^ Z.of_N pixbit - 1) <= 2 ^ 53 ->
    let full := of_Z (2 ^ Z.of_N pixbit - 1) in
    exists res w',
      peak_fwhm frame prominence_min pixbit invert [r0; r1; c0; c1] w
      = (Returned res, w')
      /\ Forall (fun v => v = FNaN
                          \/ (F64.leb F64.zero v = true /\ F64.leb v full = true))
                (frame_lineout res)
      /\ Forall (fun q => F64.leb q full = true) (prominences (peaks_props res))
      /\ (F64.ltb full prominence_min = true ->
          peakmax res = []
          /\ peaks_props res = mkProperties [] [] []
          /\ stdout w' = stdout w).
Proof.
  intros frame pmin pixbit invert r0 r1 c0 c1 w Hs Hd Hsmall full.
  eexists; eexists; split;
    [apply (peak_fwhm_run frame pmin pixbit invert r0 r1 c0 c1 Hs) |].
  pose proof (analysed_bit_depth frame pixbit invert r0 r1 c0 c1 Hs Hd) as Ha.
  pose proof (analysed_rows_length frame pixbit invert r0 r1 c0 c1) as Hlen.
  unfold fwhm_of, fwhm_output.
  set (a := analysed frame pixbit invert r0 r1 c0 c1) in *.
  set (x := column_means a).
  cbn [frame_lineout peaks_props peakmax stdout extend].
  assert (Hsmall' : Z.of_nat (length (rows a)) * (2 ^ Z.of_N pixbit - 1)
                    <= 2 ^ 53).
  { assert (0 < 2 ^ Z.of_N pixbit) by (apply Z.pow_pos_nonneg; lia). nia. }
  assert (Hline : Forall (fun v => v = FNaN
                    \/ (F64.leb F64.zero v = true /\ F64.leb v full = true)) x).
  { destruct (list_eq_dec (list_eq_dec Z.eq_dec) (rows a) []) as [E | E].
    - eapply Forall_impl; [| apply (column_means_no_rows a E)].
      cbv beta; auto.
    - eapply Forall_impl; [| apply (column_means_range a pixbit Ha E Hsmall')].
      cbv beta; auto. }
  assert (Hprom : Forall (fun q => F64.leb q full = true)
                         (prominences (snd (candidates x pmin)))).
  { rewrite candidates_prominences. apply Forall_map, Forall_forall.
    intros p Hp.
    assert (Hrows : rows a <> []).
    { intros E. apply candidates_detected in Hp.
      rewrite (detected_all_nan x (column_means_no_rows a E)) in Hp.
      destruct Hp. }
    pose proof (column_means_range a pixbit Ha Hrows Hsmall') as Hr.
    fold x in Hr.
    assert (Hv : valid_peak x p = true).
    { pose proof (candidates_valid x pmin) as Hall.
      rewrite Forall_forall in Hall. now apply Hall. }
    pose proof Hv as Hrange; apply valid_peak_iff in Hrange.
    eapply leb_trans.
    - apply prominence_at_most_peak;
        [| apply column_means_floats | exact Hv].
      eapply Forall_impl; [| exact Hr]. cbv beta.
      intros v [H0 H1]. split; [now destruct (leb_is_num _ _ H1) | exact H0].
    - rewrite Forall_forall in Hr.
      apply (Hr (get x p)). unfold get. apply nth_In. unfold len in Hrange. lia. }
  split; [exact Hline | split; [exact Hprom |]].
  intros Habove.
  assert (Hnone : fst (candidates x pmin) = []).
  { pose proof (candidates_threshold x pmin) as Hthr.
    pose proof (candidates_lengths x pmin) as Hlen'.
    destruct (fst (candidates x pmin)) as [| p rest]; [reflexivity |].
    destruct (prominences (snd (candidates x pmin))) as [| q qs];
      [discriminate |].
    inversion Hthr as [| ? ? H1 _]; inversion Hprom as [| ? ? H2 _]; subst.
    pose proof (leb_ltb_trans _ _ _ H2 Habove) as H3.
    rewrite (leb_not_ltb _ _ H1) in H3. discriminate. }
  rewrite (candidates_none x pmin Hnone), Hnone.
  cbn. rewrite app_nil_r. auto.
Qed.

(** X9 at an 8-bit frame and a threshold of 256. *)
Lemma peak_fwhm_full_scale_witness :
  storable two_peaks 8 false
  /\ has_bit_depth two_peaks 8
  /\ Z.of_nat (length (rows two_peaks)) * (2 ^ Z.of_N 8 - 1) <= 2 ^ 53
  /\ exists res w',
       peak_fwhm two_peaks (of_Z 256) 8 false [0; 1215; 0; 1935] world0
       = (Returned res, w')
       /\ peakmax res = [].
Proof.
  assert (Hd : has_bit_depth two_peaks 8).
  { repeat constructor; vm_compute; discriminate. }
  assert (Hsmall : Z.of_nat (length (rows two_peaks)) * (2 ^ Z.of_N 8 - 1)
                   <= 2 ^ 53) by (vm_compute; discriminate).
  split; [apply storable_plain | split; [exact Hd | split; [exact Hsmall |]]].
  destruct (peak_fwhm_full_scale two_peaks (of_Z 256) 8 false 0 1215 0 1935
              world0 (storable_plain _ _) Hd Hsmall)
    as (res & w' & Hrun & _ & _ & Habove).
  exists res, w'. split; [exact Hrun |].
  apply Habove. reflexivity.
Defined.

(** Beyond 2**53 the conversion to float64 rounds: the one sample of
    [full_scale_64] is 2**64 - 1, and its lineout entry is 2**64, above the
    full scale of the frame. *)
Example full_scale_rounds_run :
  fst (peak_fwhm full_scale_64 (of_Z 25) 64 false default_roi world0)
  = Returned
      (mkResult (mkWidths [] [] [] []) [] (mkProperties [] [] [])
                [FNum (2 ^ 64)]).
Proof. vm_compute. reflexivity. Qed.

(** ** Raising the threshold *)

Lemma beats_numbers v best :
  is_num v = true -> is_num best = true -> beats v best = F64.ltb best v.
Proof. destruct v, best; try discriminate; reflexivity. Qed.

Lemma first_max_some l : forall b, exists m, first_max l (Some b) = Some m.
Proof.
  induction l as [| c l IH]; intros b; cbn [first_max]; [eauto |].
  destruct (F64.ltb _ _); apply IH.
Qed.

Lemma first_max_none l : first_max l None = None -> l = [].
Proof.
  destruct l as [| c l]; [reflexivity |]. cbn [first_max]. intros H.
  destruct (first_max_some l c) as [m Hm]. congruence.
Qed.

Lemma first_max_in l : forall best m,
  first_max l best = Some m -> In m l \/ best = Some m.
Proof.
  induction l as [| c l IH]; intros best m H; cbn [first_max] in H; [auto |].
  apply IH in H. destruct H as [H | H]; [left; now right |].
  destruct best as [b |];
    [destruct (F64.ltb _ _) |]; injection H as <-; cbn [In]; auto.
Qed.

Lemma first_max_upper l : forall best m,
  Forall (fun c => is_num (cand_prominence c) = true) l ->
  (forall b, best = Some b -> is_num (cand_prominence b) = true) ->
  first_max l best = Some m ->
  is_num (cand_prominence m) = true
  /\ (forall c, In c l ->
        F64.leb (cand_prominence c) (cand_prominence m) = true)
  /\ (forall b, best = Some b ->
        F64.leb (cand_prominence b) (cand_prominence m) = true).
Proof.
  induction l as [| c l IH]; intros best m Hl Hb H; cbn [first_max] in H.
  - subst best. split; [now apply Hb | split; [intros c [] |]].
    intros b Eb. injection Eb as ->. apply leb_refl. now apply Hb.
  - inversion Hl as [| ? ? Hc Hl']; subst.
    destruct best as [b |].
    + pose proof (Hb b eq_refl) as Hnb.
      destruct (F64.ltb (cand_prominence b) (cand_prominence c)) eqn:Hlt.
      * destruct (IH (Some c) m Hl') as (Hm & Hall & Hbest); auto.
        { intros ? E; now injection E as <-. }
        split; [exact Hm | split].
        -- intros c' [<- | Hin]; [now apply Hbest | now apply Hall].
        -- intros b' E; injection E as <-.
           eapply leb_trans; [apply ltb_leb, Hlt | now apply Hbest].
      * destruct (IH (Some b) m Hl') as (Hm & Hall & Hbest); auto.
        split; [exact Hm | split].
        -- intros c' [<- | Hin]; [| now apply Hall].
           eapply leb_trans; [| now apply Hbest].
           now apply not_ltb_leb.
        -- exact Hbest.
    + destruct (IH (Some c) m Hl') as (Hm & Hall & Hbest); auto.
      { intros ? E; now injection E as <-. }
      split; [exact Hm | split].
      * intros c' [<- | Hin]; [now apply Hbest | now apply Hall].
      * discriminate.
Qed.

Lemma keep_below t b c :
  is_num (cand_prominence b) = true -> is_num (cand_prominence c) = true ->
  keep t c = true -> keep t b = false ->
  F64.ltb (cand_prominence b) (cand_prominence c) = true.
Proof.
  unfold keep. fold (cand_prominence b) (cand_prominence c).
  intros Hb Hc Hkc Hkb.
  destruct t as [tq |]; [| discriminate].
  destruct (cand_prominence b) as [bq |], (cand_prominence c) as [cq |];
    try discriminate.
  apply leb_le in Hkc. apply ltb_lt.
  destruct (Qlt_le_dec bq tq) as [H | H]; [lra |].
  apply leb_le in H. congruence.
Qed.

Lemma keep_above t b c :
  is_num (cand_prominence b) = true -> is_num (cand_prominence c) = true ->
  keep t b = true -> keep t c = false ->
  F64.ltb (cand_prominence b) (cand_prominence c) = false.
Proof.
  unfold keep. fold (cand_prominence b) (cand_prominence c).
  intros Hb Hc Hkb Hkc.
  destruct t as [tq |]; [| discriminate].
  destruct (cand_prominence b) as [bq |], (cand_prominence c) as [cq |];
    try discriminate.
  apply leb_le in Hkb. apply not_true_is_false. intros Hlt.
  apply ltb_lt in Hlt.
  assert (H : F64.leb (FNum tq) (FNum cq) = true) by (apply leb_le; lra).
  congruence.
Qed.

(** Dropping the candidates below a threshold that the first maximum
    passes leaves the first maximum what it was. *)
Lemma first_max_filter t l : forall best m,
  Forall (fun c => is_num (cand_prominence c) = true) l ->
  (forall b, best = Some b -> is_num (cand_prominence b) = true) ->
  first_max l best = Some m ->
  keep t m = true ->
  first_max (filter (keep t) l) (passing t best) = Some m.
Proof.
  induction l as [| c l IH]; intros best m Hl Hb H Hm; cbn [first_max filter] in *.
  - subst best. cbn [passing]. now rewrite Hm.
  - inversion Hl as [| ? ? Hc Hl']; subst.
    assert (Hstep : forall best',
               (forall b, best' = Some b -> is_num (cand_prominence b) = true) ->
               first_max l best' = Some m ->
               first_max (filter (keep t) l) (passing t best') = Some m)
      by (intros; now apply IH).
    destruct (keep t c) eqn:Hkc.
    + cbn [first_max].
      destruct best as [b |]; cbn [passing].
      * pose proof (Hb b eq_refl) as Hnb.
        destruct (keep t b) eqn:Hkb.
        -- destruct (F64.ltb (cand_prominence b) (cand_prominence c)) eqn:Hlt.
           ++ rewrite <- (Hstep (Some c)); auto.
              ** cbn [passing]. now rewrite Hkc.
              ** intros ? E; now injection E as <-.
           ++ rewrite <- (Hstep (Some b)); auto.
              cbn [passing]. now rewrite Hkb.
        -- rewrite (keep_below t b c) in H by auto.
           rewrite <- (Hstep (Some c)); auto.
           ++ cbn [passing]. now rewrite Hkc.
           ++ intros ? E; now injection E as <-.
      * rewrite <- (Hstep (Some c)); auto.
        -- cbn [passing]. now rewrite Hkc.
        -- intros ? E; now injection E as <-.
    + destruct best as [b |]; cbn [passing].
      * pose proof (Hb b eq_refl) as Hnb.
        destruct (keep t b) eqn:Hkb.
        -- rewrite (keep_above t b c) in H by auto.
           rewrite <- (Hstep (Some b)); auto.
           cbn [passing]. now rewrite Hkb.
        -- destruct (F64.ltb (cand_prominence b) (cand_prominence c)).
           ++ rewrite <- (Hstep (Some c)); auto.
              ** cbn [passing]. now rewrite Hkc.
              ** intros ? E; now injection E as <-.
           ++ rewrite <- (Hstep (Some b)); auto.
              cbn [passing]. now rewrite Hkb.
      * rewrite <- (Hstep (Some c)); auto.
        -- cbn [passing]. now rewrite Hkc.
        -- intros ? E; now injection E as <-.
Qed.

Lemma argmax_from_first_max l : forall pre b besti,
  Forall (fun c => is_num (cand_prominence c) = true) l ->
  is_num (cand_prominence b) = true ->
  0 <= besti < Z.of_nat (length pre) ->
  nth (Z.to_nat besti) (map fst pre) 0 = fst b ->
  exists m,
    first_max l (Some b) = Some m
    /\ nth (Z.to_nat (argmax_from (map cand_prominence l)
                                  (Z.of_nat (length pre))
                                  (cand_prominence b) besti))
           (map fst (pre ++ l)) 0
       = fst m.
Proof.
  induction l as [| c l IH]; intros pre b besti Hl Hb Hi Hnth.
  - exists b. split; [reflexivity |].
    cbn [map argmax_from]. now rewrite app_nil_r.
  - inversion Hl as [| ? ? Hc Hl']; subst.
    cbn [map argmax_from first_max].
    rewrite beats_numbers by assumption.
    replace (pre ++ c :: l) with ((pre ++ [c]) ++ l)
      by (now rewrite <- app_assoc).
    replace (Z.of_nat (length pre) + 1) with (Z.of_nat (length (pre ++ [c])))
      by (rewrite length_app; cbn [length]; lia).
    destruct (F64.ltb (cand_prominence b) (cand_prominence c)).
    + apply IH; auto.
      * rewrite length_app; cbn [length]; lia.
      * rewrite Nat2Z.id, map_app, app_nth2 by (rewrite length_map; lia).
        rewrite length_map, Nat.sub_diag. reflexivity.
    + apply IH; auto.
      * rewrite length_app; cbn [length]; lia.
      * rewrite map_app, app_nth1 by (rewrite length_map; lia). exact Hnth.
Qed.

Lemma selected_first_max l props :
  prominences props = map cand_prominence l ->
  Forall (fun c => is_num (cand_prominence c) = true) l ->
  selected (map fst l) props
  = match first_max l None with Some m => [fst m] | None => [] end.
Proof.
  intros Hprops Hl. unfold selected. rewrite Hprops.
  destruct l as [| c [| c2 rest]]; [reflexivity | reflexivity |].
  inversion Hl as [| ? ? Hc Hl']; subst.
  destruct (argmax_from_first_max (c2 :: rest) [c] c 0 Hl' Hc)
    as (m & Hm & Hnth); [cbn [length]; lia | reflexivity |].
  change (first_max (c :: c2 :: rest) None)
    with (first_max (c2 :: rest) (Some c)).
  rewrite Hm.
  change ((1 <? length (map fst (c :: c2 :: rest)))%nat) with true.
  cbv iota. f_equal. exact Hnth.
Qed.

Lemma filter_filter_sub {A} (P Q : A -> bool) (l : list A) :
  (forall a, Q a = true -> P a = true) ->
  filter Q (filter P l) = filter Q l.
Proof.
  intros Hsub. induction l as [| a l IH]; [reflexivity |].
  cbn [filter]. destruct (P a) eqn:HP.
  - cbn [filter]. now rewrite IH.
  - rewrite IH. destruct (Q a) eqn:HQ; [| reflexivity].
    apply Hsub in HQ. congruence.
Qed.

Lemma kept_raise x pmin pmin' :
  F64.leb pmin pmin' = true ->
  kept x pmin' = filter (keep pmin') (kept x pmin).
Proof.
  intros Hle. unfold kept. symmetry. apply filter_filter_sub.
  intros c. unfold keep. intros H. eapply leb_trans; eassumption.
Qed.

Lemma kept_numbers x pmin :
  Forall (fun c => is_num (cand_prominence c) = true) (kept x pmin).
Proof.
  pose proof (candidates_numbers x pmin) as H.
  change (prominences (snd (candidates x pmin)))
    with (map cand_prominence (kept x pmin)) in H.
  now apply Forall_map in H.
Qed.

Lemma selected_kept x pmin :
  selected (fst (candidates x pmin)) (snd (candidates x pmin))
  = match first_max (kept x pmin) None with Some m => [fst m] | None => [] end.
Proof.
  change (fst (candidates x pmin)) with (map fst (kept x pmin)).
  apply selected_first_max; [reflexivity | apply kept_numbers].
Qed.

Lemma kept_prominence x pmin m :
  In m (kept x pmin) ->
  cand_prominence m = fst (fst (prominence_data x (fst m))).
Proof.
  unfold kept. intros H. apply filter_In in H. destruct H as [H _].
  apply combine_map_snd in H. unfold cand_prominence. now rewrite H.
Qed.

(** X10.  Raising [prominence_min] changes neither the lineout nor the
    choice among the peaks: as long as the threshold stays at or below the
    prominence of the selected peak, the same peak is returned with the same
    width result; once it is above, no peak is returned at all; and a run
    that found no peak finds none at a higher threshold. *)
Theorem peak_fwhm_raise_threshold :
  forall frame prominence_min prominence_min' pixbit invert r0 r1 c0 c1 w,
    storable frame pixbit invert ->
    F64.leb prominence_min prominence_min' = true ->
    exists res res' w1 w2,
      peak_fwhm frame prominence_min pixbit invert [r0; r1; c0; c1] w
      = (Returned res, w1)
      /\ peak_fwhm frame prominence_min' pixbit invert [r0; r1; c0; c1] w
         = (Returned res', w2)
      /\ frame_lineout res' = frame_lineout res
      /\ (peakmax res = [] -> peakmax res' = [])
      /\ (forall p, peakmax res = [p] ->
            let q := fst (fst (prominence_data (frame_lineout res) p)) in
            (F64.leb prominence_min' q = true ->
             peakmax res' = [p] /\ peakwidth res' = peakwidth res)
            /\ (F64.leb prominence_min' q = false ->
                peakmax res' = []
                /\ peakwidth res' = mkWidths [] [] [] []
                /\ peaks_props res' = mkProperties [] [] [])).
Proof.
  intros frame pmin pmin' pixbit invert r0 r1 c0 c1 w Hs Hle.
  eexists; eexists; eexists; eexists.
  split; [apply (peak_fwhm_run frame pmin pixbit invert r0 r1 c0 c1 Hs) |].
  split; [apply (peak_fwhm_run frame pmin' pixbit invert r0 r1 c0 c1 Hs) |].
  unfold fwhm_of.
  set (x := column_means (analysed frame pixbit invert r0 r1 c0 c1)).
  cbn [frame_lineout peakmax peakwidth peaks_props].
  split; [reflexivity |].
  rewrite !selected_kept, (kept_raise x pmin pmin' Hle).
  pose proof (kept_numbers x pmin) as Hnum.
  assert (Hnone : forall b : Z * (f64 * Z * Z),
             @None (Z * (f64 * Z * Z)) = Some b ->
             is_num (cand_prominence b) = true) by discriminate.
  split.
  - destruct (first_max (kept x pmin) None) as [m |] eqn:Hm; [discriminate |].
    intros _. apply first_max_none in Hm. now rewrite Hm.
  - intros p Hp. set (q := fst (fst (prominence_data x p))).
    destruct (first_max (kept x pmin) None) as [m |] eqn:Hm; [| discriminate].
    injection Hp as Hp.
    destruct (first_max_in _ _ _ Hm) as [Hin | Hin]; [| discriminate].
    assert (Hq : cand_prominence m = q)
      by (unfold q; rewrite <- Hp; now apply (kept_prominence x pmin)).
    split; intros Hpass.
    + assert (Hk : keep pmin' m = true)
        by (unfold keep; fold (cand_prominence m); now rewrite Hq).
      pose proof (first_max_filter pmin' _ None m Hnum Hnone Hm Hk) as Hf.
      cbn [passing] in Hf. rewrite Hf, Hp. split; reflexivity.
    + destruct (first_max_upper _ _ _ Hnum Hnone Hm) as (_ & Hall & _).
      assert (Hempty : filter (keep pmin') (kept x pmin) = []).
      { destruct (filter (keep pmin') (kept x pmin)) as [| c rest] eqn:E;
          [reflexivity | exfalso].
        assert (Hc : In c (filter (keep pmin') (kept x pmin)))
          by (rewrite E; now left).
        apply filter_In in Hc. destruct Hc as [Hc Hk].
        unfold keep in Hk. fold (cand_prominence c) in Hk.
        pose proof (leb_trans _ _ _ Hk (Hall c Hc)) as H.
        rewrite Hq in H. congruence. }
      rewrite Hempty. cbn [first_max].
      split; [reflexivity | split; [reflexivity |]].
      apply candidates_none.
      change (fst (candidates x pmin')) with (map fst (kept x pmin')).
      now rewrite (kept_raise x pmin pmin' Hle), Hempty.
Qed.

(** X10 at the frame with peaks of prominence 1 and 2, the threshold raised
    from 1 to 2. *)
Lemma peak_fwhm_raise_threshold_witness :
  storable two_peaks 8 false
  /\ F64.leb (of_Z 1) (of_Z 2) = true
  /\ exists res res' w1 w2,
       peak_fwhm two_peaks (of_Z 1) 8 false [0; 1215; 0; 1935] world0
       = (Returned res, w1)
       /\ peak_fwhm two_peaks (of_Z 2) 8 false [0; 1215; 0; 1935] world0
          = (Returned res', w2)
       /\ peakmax res = [3]
       /\ peakmax res' = [3]
       /\ peakwidth res' = peakwidth res.
Proof.
  split; [apply storable_plain | split; [reflexivity |]].
  destruct (peak_fwhm_raise_threshold two_peaks (of_Z 1) (of_Z 2) 8 false
              0 1215 0 1935 world0 (storable_plain _ _) eq_refl)
    as (res & res' & w1 & w2 & Hrun & Hrun' & _ & _ & Hsame).
  exists res, res', w1, w2.
  split; [exact Hrun | split; [exact Hrun' |]].
  assert (Hp : peakmax res = [3])
    by (vm_compute in Hrun; injection Hrun as <- _; reflexivity).
  split; [exact Hp |].
  apply (proj1 (Hsame 3 Hp)).
  vm_compute in Hrun. injection Hrun as <- _. reflexivity.
Defined.

(** ** [get_camera]: every way out *)

Lemma abort_run {A} reason code w :
  @abort A reason code false w
  = (Raised (SystemExit code), extend w [(reason ++ newline)%string] []).
Proof.
  unfold abort, bind, print, sys_exit, raise, ret, extend, with_stdout.
  cbn. now rewrite app_nil_r.
Qed.

(** X11.  [get_camera] never lets the failure of a lookup escape: a lookup
    that raises [VimbaCameraError] becomes the message 'Failed to access
    Camera ...' and exit code 1, a lookup that returns gives its camera.  An
    id that is [None] or the empty string selects the first camera, and
    where there is no camera the message 'No Cameras accessible. Abort.' is
    printed and the process exits with code 1. *)
Theorem get_camera_outcomes :
  forall vimba w,
    (forall id, id <> ""%string ->
       (forall c w', get_camera_by_id vimba id w = (Returned c, w') ->
          get_camera vimba (Some id) w = (Returned c, w'))
       /\ (forall w', get_camera_by_id vimba id w = (Raised VimbaCameraError, w') ->
             get_camera vimba (Some id) w
             = (Raised (SystemExit 1),
                extend w' [(("Failed to access Camera '" ++ id ++ "'. Abort.")
                            ++ newline)%string] [])))
    /\ (forall camera_id, camera_id = None \/ camera_id = Some ""%string ->
          (forall c cs, all_cameras vimba = c :: cs ->
             get_camera vimba camera_id w = (Returned c, w))
          /\ (all_cameras vimba = [] ->
              get_camera vimba camera_id w
              = (Raised (SystemExit 1),
                 extend w [("No Cameras accessible. Abort." ++ newline)%string]
                        [])))
    /\ (forall camera_id,
          (exists c, get_camera vimba camera_id w = (Returned c, w)
                     /\ In c (all_cameras vimba))
          \/ (exists out, get_camera vimba camera_id w
                          = (Raised (SystemExit 1), extend w out []))).
Proof.
  intros vimba w.
  assert (Hid : forall id, id <> ""%string ->
            (forall c w', get_camera_by_id vimba id w = (Returned c, w') ->
               get_camera vimba (Some id) w = (Returned c, w'))
            /\ (forall w', get_camera_by_id vimba id w
                           = (Raised VimbaCameraError, w') ->
                  get_camera vimba (Some id) w
                  = (Raised (SystemExit 1),
                     extend w' [(("Failed to access Camera '" ++ id
                                  ++ "'. Abort.") ++ newline)%string] []))).
  { intros id Hne.
    assert (Ht : truthy (Some id) = true)
      by (cbn [truthy]; apply negb_true_iff, String.eqb_neq, Hne).
    unfold get_camera; rewrite Ht; unfold try_except_camera.
    split; intros; rewrite H; [reflexivity |].
    apply abort_run. }
  assert (Hfirst : forall camera_id,
            camera_id = None \/ camera_id = Some ""%string ->
            (forall c cs, all_cameras vimba = c :: cs ->
               get_camera vimba camera_id w = (Returned c, w))
            /\ (all_cameras vimba = [] ->
                get_camera vimba camera_id w
                = (Raised (SystemExit 1),
                   extend w [("No Cameras accessible. Abort."
                              ++ newline)%string] []))).
  { intros camera_id Hc.
    assert (Ht : truthy camera_id = false) by (destruct Hc; subst; reflexivity).
    unfold get_camera; rewrite Ht.
    split.
    - intros c cs E. rewrite E. reflexivity.
    - intros E. rewrite E. cbn [length Nat.eqb]. unfold bind.
      now rewrite abort_run. }
  split; [exact Hid | split; [exact Hfirst |]].
  intros camera_id.
  destruct (truthy camera_id) eqn:Ht.
  - destruct camera_id as [id |]; [| discriminate].
    assert (Hne : id <> ""%string).
    { cbn [truthy] in Ht. apply negb_true_iff in Ht.
      now apply String.eqb_neq. }
    destruct (Hid id Hne) as [Hok Hfail].
    unfold get_camera_by_id in Hok, Hfail.
    destruct (find _ (all_cameras vimba)) as [c |] eqn:Hfind.
    + left. exists c. split; [now apply Hok |].
      now apply find_some in Hfind.
    + right. eexists. now apply Hfail.
  - assert (Hc : camera_id = None \/ camera_id = Some ""%string).
    { destruct camera_id as [id |]; [right | now left].
      cbn [truthy] in Ht. apply negb_false_iff, String.eqb_eq in Ht.
      now subst. }
    destruct (Hfirst camera_id Hc) as [Hsome Hnone].
    destruct (all_cameras vimba) as [| c cs] eqn:E.
    + right. eexists. now apply Hnone.
    + left. exists c. split; [now apply (Hsome c cs) | now left].
Qed.

(** X11 at a session with two cameras, asked for a third. *)
Lemma get_camera_outcomes_witness :
  "DEV_3"%string <> ""%string
  /\ get_camera (mkVimba [mkCamera "DEV_1" "Manta" "eth0";
                          mkCamera "DEV_2" "Manta" "eth1"])
                (Some "DEV_3"%string) world0
     = (Raised (SystemExit 1),
        extend world0 [("Failed to access Camera 'DEV_3'. Abort."
                        ++ newline)%string] [])
  /\ get_camera (mkVimba [mkCamera "DEV_1" "Manta" "eth0";
                          mkCamera "DEV_2" "Manta" "eth1"])
                (Some ""%string) world0
     = (Returned (mkCamera "DEV_1" "Manta" "eth0"), world0).
Proof.
  assert (Hne : "DEV_3"%string <> ""%string) by discriminate.
  split; [exact Hne | split].
  - apply (proj2 (proj1 (get_camera_outcomes _ world0) "DEV_3"%string Hne)).
    reflexivity.
  - apply (proj1 (proj1 (proj2 (get_camera_outcomes _ world0))
                    (Some ""%string) (or_intror eq_refl))
             (mkCamera "DEV_1" "Manta" "eth0")
             [mkCamera "DEV_2" "Manta" "eth1"]).
    reflexivity.
Defined.

(** ** Timestamps and file names *)

Lemma string_length_app (a b : string) :
  String.length (a ++ b) = (String.length a + String.length b)%nat.
Proof. induction a as [| c a IH]; cbn; [reflexivity | now rewrite IH]. Qed.

Lemma all_chars_app P (a b : string) :
  all_chars P (a ++ b) = all_chars P a && all_chars P b.
Proof.
  induction a as [| c a IH]; cbn; [reflexivity |].
  now rewrite IH, andb_assoc.
Qed.

Lemma all_chars_impl (P Q : ascii -> bool) s :
  (forall c, P c = true -> Q c = true) ->
  all_chars P s = true -> all_chars Q s = true.
Proof.
  intros HPQ. induction s as [| c s IH]; cbn; [reflexivity |].
  rewrite !andb_true_iff. intros [Hc Hs]. auto.
Qed.

Lemma all_chars_contains P s c :
  all_chars P s = true -> P c = false -> contains c s = false.
Proof.
  intros Hall Hc. induction s as [| c' s IH]; cbn in *; [reflexivity |].
  apply andb_true_iff in Hall. destruct Hall as [Hc' Hs].
  rewrite (IH Hs), orb_false_r.
  destruct (Ascii.eqb c c') eqn:E; [| reflexivity].
  apply Ascii.eqb_eq in E. congruence.
Qed.

Lemma append_inj_len (a a' b b' : string) :
  String.length a = String.length a' ->
  (a ++ b)%string = (a' ++ b')%string -> a = a' /\ b = b'.
Proof.
  revert a'. induction a as [| c a IH]; intros [| c' a'] Hlen H;
    try discriminate.
  - auto.
  - cbn in Hlen, H. injection Hlen as Hlen. injection H as -> H.
    destruct (IH a' Hlen H) as [-> ->]. auto.
Qed.

Lemma append_inv_head (a b b' : string) :
  (a ++ b)%string = (a ++ b')%string -> b = b'.
Proof.
  intros H. now destruct (append_inj_len a a b b' eq_refl H).
Qed.

Lemma field2_ok n : (n < 100)%nat -> field_ok 2 n = true.
Proof.
  intros Hn.
  assert (H : forallb (field_ok 2) (seq 0 100) = true) by (vm_compute; reflexivity).
  rewrite forallb_forall in H. apply H, in_seq. lia.
Qed.

Lemma field4_ok n : Z.of_nat n < 10000 -> field_ok 4 n = true.
Proof.
  intros Hn.
  assert (H : forallb (field_ok 4) (seq 0 (Z.to_nat 10000)) = true)
    by (vm_compute; reflexivity).
  rewrite forallb_forall in H. apply H, in_seq. lia.
Qed.

Lemma field_ok_spec width n :
  field_ok width n = true ->
  String.length (zfill width (decimal n)) = width
  /\ all_chars is_digit (zfill width (decimal n)) = true
  /\ digits_value (zfill width (decimal n)) = n.
Proof.
  unfold field_ok; cbv zeta.
  rewrite !andb_true_iff, !Nat.eqb_eq. tauto.
Qed.

Lemma field_inj width n n' :
  field_ok width n = true -> field_ok width n' = true ->
  zfill width (decimal n) = zfill width (decimal n') -> n = n'.
Proof.
  intros H H' E.
  destruct (field_ok_spec _ _ H) as (_ & _ & <-).
  destruct (field_ok_spec _ _ H') as (_ & _ & <-).
  now rewrite E.
Qed.

Lemma strftime_fields dt :
  strftime dt TS_FMT_STR
  = (zfill 4 (decimal (year dt)) ++ "-" ++ zfill 2 (decimal (month dt)) ++ "-"
     ++ zfill 2 (decimal (day dt)) ++ "T" ++ zfill 2 (decimal (hour dt)) ++ "-"
     ++ zfill 2 (decimal (minute dt)) ++ "-" ++ zfill 2 (decimal (second dt))
     ++ "")%string.
Proof. reflexivity. Qed.

Lemma timestamp_fields_ok dt :
  valid_datetime dt ->
  field_ok 4 (year dt) = true /\ field_ok 2 (month dt) = true
  /\ field_ok 2 (day dt) = true /\ field_ok 2 (hour dt) = true
  /\ field_ok 2 (minute dt) = true /\ field_ok 2 (second dt) = true.
Proof.
  unfold valid_datetime. intros H.
  repeat split; first [apply field4_ok | apply field2_ok]; lia.
Qed.

(** X12.  The timestamp that [get_frame] returns and that [save_frame]
    substitutes for 'now' has 19 characters, each a digit, '-' or 'T': it
    holds no path separator, colon, dot or blank, whatever the time. *)
Theorem timestamp_shape :
  forall dt,
    valid_datetime dt ->
    String.length (strftime dt TS_FMT_STR) = 19%nat
    /\ all_chars timestamp_char (strftime dt TS_FMT_STR) = true
    /\ (forall c, timestamp_char c = false ->
          contains c (strftime dt TS_FMT_STR) = false).
Proof.
  intros dt Hdt.
  destruct (timestamp_fields_ok dt Hdt) as (HY & Hm & Hd & HH & HM & HS).
  apply field_ok_spec in HY, Hm, Hd, HH, HM, HS.
  destruct HY as (LY & DY & _), Hm as (Lm & Dm & _), Hd as (Ld & Dd & _),
           HH as (LH & DH & _), HM as (LM & DM & _), HS as (LS & DS & _).
  assert (Hdigit : forall s, all_chars is_digit s = true ->
                             all_chars timestamp_char s = true).
  { intros s. apply all_chars_impl. intros c Hc.
    unfold timestamp_char. now rewrite Hc. }
  assert (Hall : all_chars timestamp_char (strftime dt TS_FMT_STR) = true).
  { rewrite strftime_fields, !all_chars_app.
    rewrite (Hdigit _ DY), (Hdigit _ Dm), (Hdigit _ Dd), (Hdigit _ DH),
      (Hdigit _ DM), (Hdigit _ DS). reflexivity. }
  split; [| split; [exact Hall |]].
  - rewrite strftime_fields, !string_length_app.
    rewrite LY, Lm, Ld, LH, LM, LS. reflexivity.
  - intros c Hc. eapply all_chars_contains; eassumption.
Qed.

(** X12 at the clock of the examples. *)
Lemma timestamp_shape_witness :
  valid_datetime (clock world0)
  /\ String.length (strftime (clock world0) TS_FMT_STR) = 19%nat.
Proof.
  assert (Hdt : valid_datetime (clock world0))
    by (unfold valid_datetime, world0;
        cbn [clock year month day hour minute second]; lia).
  split; [exact Hdt |].
  exact (proj1 (timestamp_shape (clock world0) Hdt)).
Defined.

(** X13.  The name under which [save_frame] stores a frame determines the
    date and time that the local clock showed, to the second: two frames
    saved in one directory with one pixel format never share a file when
    [datetime.now()] read different dates or times of day for them.  (Two
    instants at which the local clock reads the same, as in an hour repeated
    at the end of daylight saving time, give one name.) *)
Theorem save_name_injective :
  forall savepath pixformatstr dt1 dt2,
    valid_datetime dt1 -> valid_datetime dt2 ->
    dt1 <> dt2 ->
    save_name savepath pixformatstr (strftime dt1 TS_FMT_STR)
    <> save_name savepath pixformatstr (strftime dt2 TS_FMT_STR).
Proof.
  intros savepath pix dt1 dt2 H1 H2 Hne E. apply Hne.
  unfold save_name in E.
  apply append_inv_head, append_inv_head, append_inv_head in E.
  apply (append_inv_head "_") in E.
  apply append_inj_len in E;
    [| now rewrite (proj1 (timestamp_shape dt1 H1)),
                   (proj1 (timestamp_shape dt2 H2))].
  destruct E as [E _].
  destruct (timestamp_fields_ok dt1 H1) as (HY & Hm & Hd & HH & HM & HS).
  destruct (timestamp_fields_ok dt2 H2) as (HY' & Hm' & Hd' & HH' & HM' & HS').
  rewrite !strftime_fields in E.
  assert (Hlen : forall width n n',
             field_ok width n = true -> field_ok width n' = true ->
             String.length (zfill width (decimal n))
             = String.length (zfill width (decimal n'))).
  { intros width n n' Hn Hn'.
    destruct (field_ok_spec _ _ Hn) as (-> & _).
    now destruct (field_ok_spec _ _ Hn') as (-> & _). }
  apply append_inj_len in E; [| now apply Hlen]. destruct E as [EY E].
  apply (append_inv_head "-") in E.
  apply append_inj_len in E; [| now apply Hlen]. destruct E as [Em E].
  apply (append_inv_head "-") in E.
  apply append_inj_len in E; [| now apply Hlen]. destruct E as [Ed E].
  apply (append_inv_head "T") in E.
  apply append_inj_len in E; [| now apply Hlen]. destruct E as [EH E].
  apply (append_inv_head "-") in E.
  apply append_inj_len in E; [| now apply Hlen]. destruct E as [EM E].
  apply (append_inv_head "-") in E.
  apply append_inj_len in E; [| now apply Hlen]. destruct E as [ES _].
  apply field_inj in EY, Em, Ed, EH, EM, ES; try assumption.
  destruct dt1, dt2; cbn in *. congruence.
Qed.

(** X13 at two times one second apart. *)
Lemma save_name_injective_witness :
  valid_datetime (mkDatetime 2021 8 13 9 5 7)
  /\ valid_datetime (mkDatetime 2021 8 13 9 5 8)
  /\ save_name "D:/" "Mono8" (strftime (mkDatetime 2021 8 13 9 5 7) TS_FMT_STR)
     <> save_name "D:/" "Mono8" (strftime (mkDatetime 2021 8 13 9 5 8) TS_FMT_STR).
Proof.
  assert (H1 : valid_datetime (mkDatetime 2021 8 13 9 5 7))
    by (unfold valid_datetime;
        cbn [year month day hour minute second]; lia).
  assert (H2 : valid_datetime (mkDatetime 2021 8 13 9 5 8))
    by (unfold valid_datetime;
        cbn [year month day hour minute second]; lia).
  split; [exact H1 | split; [exact H2 |]].
  apply (save_name_injective "D:/" "Mono8" _ _ H1 H2).
  discriminate.
Defined.

(** ** From [get_frame] to [save_frame] *)

Lemma save_timestamp_of_clock dt w :
  save_timestamp (PyStr (strftime dt TS_FMT_STR))
                 (printed w ["save frame"%string])
  = (Returned (strftime dt TS_FMT_STR), printed w ["save frame"%string]).
Proof.
  unfold save_timestamp; cbn [eq_now_test]. unfold bind at 1, ret at 1.
  replace (String.eqb (strftime dt TS_FMT_STR) "now") with false
    by (symmetry; apply String.eqb_neq, strftime_not_now).
  reflexivity.
Qed.

(** X14.  A frame taken with [get_frame] and handed to [save_frame] with
    the timestamp and pixel format that came with it, as [main] does, is
    stored without any warning: the name carries the time at which the
    camera returned the frame, read after the acquisition and not read
    again when saving; where the file can be written the console gets
    'save frame' and the path, and where it cannot, 'save frame' only, and
    the [OSError] of [np.save] passes through.  When the acquisition raises,
    the exception passes through, nothing is printed and no file is
    written. *)
Theorem get_and_save_frame_run :
  forall cam w camname pixformatstr w1 w2,
    get_name cam w = (Returned camname, w1) ->
    get_pixel_format cam w1 = (Returned pixformatstr, w2) ->
    (forall frame w3,
        cam_get_frame cam 2000 w2 = (Returned frame, w3) ->
        arr3_channels (as_numpy_ndarray frame) <> 0%nat ->
        let a := as_numpy_ndarray frame in
        let name := save_name SAVE_PATH pixformatstr
                              (strftime (clock w3) TS_FMT_STR) in
        let stored :=
          mkArray (arr3_dtype a) (arr3_width a)
                  (map (map (fun px => nth 0 px 0)) (arr3_rows a)) in
        get_frame cam false w
        = (Returned (frame, strftime (clock w3) TS_FMT_STR, pixformatstr), w3)
        /\ (writable w3 name = true ->
            get_and_save_frame cam w
            = (Returned tt,
               mkWorld (stdout w3 ++ ["save frame"%string; name])
                       (pywarnings w3) (clock w3) (sys_argv w3)
                       ((name, stored) :: files w3) (writable w3)))
        /\ (writable w3 name = false ->
            get_and_save_frame cam w
            = (Raised OSError,
               mkWorld (stdout w3 ++ ["save frame"%string])
                       (pywarnings w3) (clock w3) (sys_argv w3)
                       (files w3) (writable w3))))
    /\ (forall e w3,
          cam_get_frame cam 2000 w2 = (Raised e, w3) ->
          get_and_save_frame cam w = (Raised e, w3)).
Proof.
  intros cam w camname pix w1 w2 Hname Hpix.
  split.
  - intros frame w3 Hframe Hch a name stored.
    assert (Hget : get_frame cam false w
                   = (Returned (frame, strftime (clock w3) TS_FMT_STR, pix), w3)).
    { unfold get_frame, bind. rewrite Hname, Hpix, Hframe. reflexivity. }
    split; [exact Hget |].
    assert (Hrun : get_and_save_frame cam w
                   = saved w3 ["save frame"%string] name stored).
    { unfold get_and_save_frame, bind at 1. rewrite Hget.
      apply save_frame_run; [exact Hch |].
      apply save_timestamp_of_clock. }
    rewrite Hrun. unfold saved, printed.
    split; intros ->; reflexivity.
  - intros e w3 Hframe.
    unfold get_and_save_frame, get_frame, bind.
    rewrite Hname, Hpix, Hframe. reflexivity.
Qed.

(** X14 at a camera that returns the example frame one second after it was
    asked. *)
Lemma get_and_save_frame_run_witness :
  arr3_channels (as_numpy_ndarray camera_frame) <> 0%nat
  /\ exists w',
       get_and_save_frame example_camera world0 = (Returned tt, w')
       /\ stdout w'
          = ["save frame"%string;
             (SAVE_PATH ++ "manta-frame_Mono8_2021-08-13T09-05-08.npy")%string]
       /\ files w'
          = [((SAVE_PATH ++ "manta-frame_Mono8_2021-08-13T09-05-08.npy")%string,
              mkArray uint8 2 [[1; 2]; [3; 4]])].
Proof.
  assert (Hch : arr3_channels (as_numpy_ndarray camera_frame) <> 0%nat)
    by (vm_compute; discriminate).
  split; [exact Hch |].
  destruct (get_and_save_frame_run example_camera world0 "Manta G-235B"%string
              "Mono8"%string world0 world0 eq_refl eq_refl) as [Hok _].
  destruct (Hok camera_frame _ eq_refl Hch) as (_ & Hrun & _).
  eexists. split; [exact (Hrun eq_refl) |]. split; reflexivity.
Defined.

(** The same acquisition where the directory cannot be written to. *)
Example get_and_save_frame_unwritable_run :
  get_and_save_frame example_camera
    (mkWorld [] [] (mkDatetime 2021 8 13 9 5 7) [] [] (fun _ => false))
  = (Raised OSError,
     mkWorld ["save frame"%string] [] (mkDatetime 2021 8 13 9 5 8) [] []
             (fun _ => false)).
Proof. vm_compute. reflexivity. Qed.
